(** * Profit-10-days dataset: null-offer filling, feature split,
      composite estimator and offer chooser

    Shallow embedding of [src/data/profit_10_days_dataset.py].

    Tables (pandas [DataFrame]s) are column-major association lists, the
    Python functions run in a small state-and-exception monad over an object
    store, so that in-place mutation and copies are told apart.  The two
    fitted gradient-boosting pipelines of [ProfitsPredictor] and the
    floating-point type of their outputs are parameters of the development. *)

From Stdlib Require Import String Ascii List ZArith Bool Lia Arith PeanoNat.
From Stdlib Require Import Floats.PrimFloat.
Import ListNotations.
Local Open Scope string_scope.
Local Open Scope list_scope.

(* ================================================================== *)
(** ** Cell values and exceptions *)

(** A cell of a table: a Python bool, int, float (NaN included) or str. *)
Inductive value : Type :=
| VBool (b : bool)
| VInt (z : Z)
| VFloat (f : float)
| VStr (s : string).

(** [v == 0] as pandas evaluates it cell by cell: numeric comparison for
    numbers ([False] counts as 0; IEEE for floats, so NaN is different from
    0), [False] for a string. *)
Definition eq_zero (v : value) : bool :=
  match v with
  | VBool b => negb b
  | VInt z => Z.eqb z 0
  | VFloat f => PrimFloat.eqb f PrimFloat.zero
  | VStr _ => false
  end.

(** [v == s] for a string literal [s]. *)
Definition eq_str (v : value) (s : string) : bool :=
  match v with
  | VStr t => String.eqb t s
  | _ => false
  end.

(** The exceptions the code can surface (none is caught anywhere). *)
Inductive exn : Type :=
| KeyError
| ValueError
| AttributeError
| ModelError.

Inductive res (A : Type) : Type :=
| Ok (a : A)
| Raise (e : exn).
Arguments Ok {A} a.
Arguments Raise {A} e.

Definition rbind {A B} (r : res A) (k : A -> res B) : res B :=
  match r with
  | Ok a => k a
  | Raise e => Raise e
  end.

(* ================================================================== *)
(** ** Module-level constants (lines 18-29) *)

Definition VIEWCOL_LABEL : string := "viewcol".

Definition Z_COLS : list string :=
  ["difficulty"; "duration"; "reward_t"; "channel_web"; "channel_mobile";
   "channel_email"; "channel_social"].

Definition PROFIT_COLS : list string := Z_COLS ++ ["offer_id"; "offer_type"].

(** ['{}_{}'.format(col, label)] *)
Definition format2 (col label : string) : string := col ++ "_" ++ label.

Definition Z_VIEW_COLS : list string :=
  map (fun col => format2 col VIEWCOL_LABEL) Z_COLS.

Definition VIEW_COLS : list string :=
  Z_VIEW_COLS ++ [format2 "offer_id" VIEWCOL_LABEL;
                  format2 "offer_type" VIEWCOL_LABEL].

(* ================================================================== *)
(** ** Tables and series *)

(** A [DataFrame]: the number of rows and the labelled columns, in order.
    Rows are addressed by position.  The tables of this dataset carry each
    label once ([wf_table] below); a primitive that names a label acts on
    the first column that carries it. *)
Record DataFrame : Type := mkDF {
  nrows : nat;
  cols : list (string * list value)
}.

Definition columns (df : DataFrame) : list string := map fst (cols df).

(** A labelled [Series] of cells (a row of the portfolio). *)
Definition Series : Type := list (string * value).

Definition mem (c : string) (l : list string) : bool :=
  existsb (String.eqb c) l.

Fixpoint lookup {A} (c : string) (l : list (string * A)) : option A :=
  match l with
  | [] => None
  | (k, a) :: l' => if String.eqb c k then Some a else lookup c l'
  end.

(** The cell of column [c] at row [i], if both exist. *)
Definition cell (df : DataFrame) (c : string) (i : nat) : option value :=
  match lookup c (cols df) with
  | Some l => nth_error l i
  | None => None
  end.

(** [df[c]] *)
Definition getitem (df : DataFrame) (c : string) : res (list value) :=
  match lookup c (cols df) with
  | Some l => Ok l
  | None => Raise KeyError
  end.

(** [df[cs]] for a list of labels: the sub-table, in the order of [cs]. *)
Fixpoint getitem_list_cols (df : DataFrame) (cs : list string)
  : res (list (string * list value)) :=
  match cs with
  | [] => Ok []
  | c :: cs' =>
      rbind (getitem df c) (fun l =>
      rbind (getitem_list_cols df cs') (fun r => Ok ((c, l) :: r)))
  end.

Definition getitem_list (df : DataFrame) (cs : list string) : res DataFrame :=
  rbind (getitem_list_cols df cs) (fun r => Ok (mkDF (nrows df) r)).

(** [df[c] = l]: replaces the column when the label exists, appends it as
    the last column otherwise. *)
Fixpoint set_col (c : string) (l : list value) (cs : list (string * list value))
  : list (string * list value) :=
  match cs with
  | [] => [(c, l)]
  | (k, old) :: cs' =>
      if String.eqb c k then (k, l) :: cs' else (k, old) :: set_col c l cs'
  end.

Definition setitem (df : DataFrame) (c : string) (l : list value) : DataFrame :=
  mkDF (nrows df) (set_col c l (cols df)).

(** [df[keys] = value] with a table on the right: pandas checks the number
    of columns, then assigns [df[k1] = value[k2]] pairwise in order. *)
Fixpoint setitem_pairs (df : DataFrame) (kv : list (string * (string * list value)))
  : DataFrame :=
  match kv with
  | [] => df
  | (k1, (_, l)) :: kv' => setitem_pairs (setitem df k1 l) kv'
  end.

Definition setitem_list (df : DataFrame) (keys : list string) (v : DataFrame)
  : res DataFrame :=
  if Nat.eqb (length (cols v)) (length keys)
  then Ok (setitem_pairs df (combine keys (cols v)))
  else Raise ValueError.

(** [df[c] == 0] *)
Definition eq_zero_mask (l : list value) : list bool := map eq_zero l.

(** Masked scalar assignment inside one column; cells beyond the mask are
    kept. *)
Fixpoint where_set (mask : list bool) (v : value) (l : list value) {struct l}
  : list value :=
  match l with
  | [] => []
  | x :: l' =>
      match mask with
      | [] => l
      | m :: mask' => (if m then v else x) :: where_set mask' v l'
      end
  end.

(** The column pandas creates when [.loc[mask, c] = v] names a label that
    does not exist yet: [v] on the masked rows, NaN elsewhere. *)
Definition enlarge_col (mask : list bool) (v : value) : list value :=
  map (fun m : bool => if m then v else VFloat PrimFloat.nan) mask.

(** [df.loc[mask, c] = v] for a single label [c]. *)
Definition loc_set_label (df : DataFrame) (mask : list bool) (c : string) (v : value)
  : DataFrame :=
  match lookup c (cols df) with
  | Some l => setitem df c (where_set mask v l)
  | None => setitem df c (enlarge_col mask v)
  end.

(** [df.columns.isin(labels)] *)
Definition columns_isin (df : DataFrame) (labels : list string) : list bool :=
  map (fun c => mem c labels) (columns df).

(** [df.loc[mask, colmask] = v] for a boolean column mask. *)
Fixpoint loc_set_colmask_cols (mask : list bool) (colmask : list bool) (v : value)
  (cs : list (string * list value)) {struct cs} : list (string * list value) :=
  match cs, colmask with
  | (k, l) :: cs', b :: colmask' =>
      (k, if b then where_set mask v l else l)
        :: loc_set_colmask_cols mask colmask' v cs'
  | _, _ => cs
  end.

Definition loc_set_colmask (df : DataFrame) (mask colmask : list bool) (v : value)
  : DataFrame :=
  mkDF (nrows df) (loc_set_colmask_cols mask colmask v (cols df)).

(** [df.drop(labels, axis=1)]: every label must name a column. *)
Definition drop (df : DataFrame) (labels : list string) : res DataFrame :=
  if forallb (fun c => mem c (columns df)) labels
  then Ok (mkDF (nrows df)
             (filter (fun c => negb (mem (fst c) labels)) (cols df)))
  else Raise KeyError.

(** A Python dict built from key/value pairs in order: a later pair with the
    same key replaces the earlier one. *)
Definition dict_get (k : string) (d : list (string * string)) : option string :=
  lookup k (rev d).

(** [df.rename(columns=d)] *)
Definition rename_columns (df : DataFrame) (d : list (string * string)) : DataFrame :=
  mkDF (nrows df)
    (map (fun c => (match dict_get (fst c) d with
                    | Some p => p
                    | None => fst c
                    end, snd c)) (cols df)).

(** [np.repeat(row.reshape(1, -1), n, axis=0)] restricted to one column. *)
Definition broadcast (n : nat) (v : value) : list value := repeat v n.

(** [df.loc[:, labels] = np.repeat(vals.reshape(1, -1), df.shape[0], axis=0)]:
    every label must exist and the block must have one column per label. *)
Fixpoint loc_set_block (df : DataFrame) (lv : list (string * value)) : DataFrame :=
  match lv with
  | [] => df
  | (c, v) :: lv' => loc_set_block (setitem df c (broadcast (nrows df) v)) lv'
  end.

Definition loc_set_all_rows (df : DataFrame) (labels : list string) (vals : list value)
  : res DataFrame :=
  if negb (forallb (fun c => mem c (columns df)) labels) then Raise KeyError
  else if negb (Nat.eqb (length labels) (length vals)) then Raise ValueError
  else Ok (loc_set_block df (combine labels vals)).

(** [sorted(labels)]: Python orders [str] by code point. *)
Fixpoint insert_sorted (c : string) (l : list string) : list string :=
  match l with
  | [] => [c]
  | k :: l' => if String.leb c k then c :: l else k :: insert_sorted c l'
  end.

Definition sorted (l : list string) : list string :=
  fold_right insert_sorted [] l.

(** *** Series operations *)

Definition index (s : Series) : list string := map fst s.
Definition values (s : Series) : list value := map snd s.

(** [s.rename(index=d)] *)
Definition rename_index (s : Series) (d : list (string * string)) : Series :=
  map (fun kv => (match dict_get (fst kv) d with
                  | Some p => p
                  | None => fst kv
                  end, snd kv)) s.

(** [s.sort_index()] *)
Fixpoint insert_item (kv : string * value) (s : Series) : Series :=
  match s with
  | [] => [kv]
  | kv' :: s' =>
      if String.leb (fst kv) (fst kv') then kv :: s else kv' :: insert_item kv s'
  end.

Definition sort_index (s : Series) : Series := fold_right insert_item [] s.

(** [s.drop(label)] *)
Definition series_drop (s : Series) (label : string) : res Series :=
  if mem label (index s)
  then Ok (filter (fun kv => negb (String.eqb (fst kv) label)) s)
  else Raise KeyError.

(** Attribute access [s.label] on a series or a table. *)
Definition getattr {A} (s : list (string * A)) (label : string) : res A :=
  match lookup label s with
  | Some v => Ok v
  | None => Raise AttributeError
  end.

(** [pd.Series(vals, index=labels)] *)
Definition mk_series (vals : list value) (labels : list string) : res Series :=
  if Nat.eqb (length vals) (length labels)
  then Ok (combine labels vals)
  else Raise ValueError.

(** Row [i] of a table as a series labelled by the columns. *)
Definition row (df : DataFrame) (i : nat) : Series :=
  map (fun c => (fst c, nth i (snd c) (VFloat PrimFloat.nan))) (cols df).

(** The rows handed out by [df.apply(f, axis=1)], in order. *)
Definition iter_rows (df : DataFrame) : list Series :=
  map (row df) (seq 0 (nrows df)).

(** [df.append(s)]: one more row, each column taking the cell [s] holds
    under its label (NaN when it holds none). *)
Definition append_row (df : DataFrame) (s : Series) : DataFrame :=
  mkDF (S (nrows df))
    (map (fun c => (fst c, snd c ++ [match lookup (fst c) s with
                                     | Some v => v
                                     | None => VFloat PrimFloat.nan
                                     end])) (cols df)).

(* ================================================================== *)
(** ** The object store *)

(** Python names hold references; the store maps addresses to tables.  A
    computation returns a value or raises, and leaves a store either way. *)
Definition ref : Type := nat.
Definition heap : Type := list DataFrame.
Definition M (A : Type) : Type := heap -> res A * heap.

Definition ret {A} (a : A) : M A := fun h => (Ok a, h).

Definition bind {A B} (m : M A) (k : A -> M B) : M B :=
  fun h => match m h with
           | (Ok a, h') => k a h'
           | (Raise e, h') => (Raise e, h')
           end.

Notation "x <- m ;; k" := (bind m (fun x => k))
  (at level 61, m at next level, right associativity).
Notation "' p <- m ;; k" := (bind m (fun x => let p := x in k))
  (at level 61, p pattern, m at next level, right associativity).
Notation "m ;;; k" := (bind m (fun _ => k))
  (at level 61, right associativity).

Definition lift {A} (r : res A) : M A := fun h => (r, h).

Definition empty_frame : DataFrame := mkDF 0 [].

(** Dereference. *)
Definition get (r : ref) : M DataFrame := fun h => (Ok (nth r h empty_frame), h).

Fixpoint update (r : ref) (d : DataFrame) (h : heap) : heap :=
  match h, r with
  | [], _ => []
  | _ :: h', O => d :: h'
  | x :: h', S r' => x :: update r' d h'
  end.

(** In-place mutation of the object at [r]. *)
Definition put (r : ref) (d : DataFrame) : M unit := fun h => (Ok tt, update r d h).

(** A fresh object ([.copy()], or any expression building a new table). *)
Definition new (d : DataFrame) : M ref := fun h => (Ok (length h), h ++ [d]).

Fixpoint mapM {A B} (f : A -> M B) (l : list A) : M (list B) :=
  match l with
  | [] => ret []
  | a :: l' => b <- f a ;; bs <- mapM f l' ;; ret (b :: bs)
  end.

(* ================================================================== *)
(** ** [fill_null_offer] (lines 120-146) *)

Definition fill_null_offer (data : ref) : M (ref * list string * list string) :=
  let viewcol_label := "viewcol" in
  let z_cols := ["difficulty"; "duration"; "reward_t"; "channel_web";
                 "channel_mobile"; "channel_email"; "channel_social"] in
  let profit_cols := z_cols ++ ["offer_id"; "offer_type"] in
  let z_view_cols := map (fun col => format2 col viewcol_label) z_cols in
  let view_cols := z_view_cols ++ [format2 "offer_id" viewcol_label;
                                   format2 "offer_type" viewcol_label] in
  (* data[view_cols] = data[profit_cols].copy() *)
  d <- get data ;;
  sub <- lift (getitem_list d profit_cols) ;;
  d1 <- lift (setitem_list d view_cols sub) ;;
  put data d1 ;;;
  (* data.loc[data['viewed'] == 0, 'offer_id'] = 'no_offer' *)
  d <- get data ;;
  viewed <- lift (getitem d "viewed") ;;
  put data (loc_set_label d (eq_zero_mask viewed) "offer_id" (VStr "no_offer")) ;;;
  (* data.loc[data['viewed'] == 0, 'offer_type'] = 'no_offer' *)
  d <- get data ;;
  viewed <- lift (getitem d "viewed") ;;
  put data (loc_set_label d (eq_zero_mask viewed) "offer_type" (VStr "no_offer")) ;;;
  (* data.loc[data['viewed'] == 0, data.columns.isin(z_cols)] = 0 *)
  d <- get data ;;
  viewed <- lift (getitem d "viewed") ;;
  put data (loc_set_colmask d (eq_zero_mask viewed) (columns_isin d z_cols) (VInt 0)) ;;;
  ret (data, view_cols, profit_cols).

(* ================================================================== *)
(** ** [split_view_profit] (lines 149-159) *)

Definition split_view_profit (X : ref) (view_cols profit_cols : list string)
  : M (ref * ref) :=
  (* X_view = X.drop(profit_cols, axis=1).copy() *)
  x <- get X ;;
  dropped <- lift (drop x profit_cols) ;;
  X_view <- new dropped ;;
  (* X_view = X_view.rename(columns={v: p for v, p in zip(view_cols, profit_cols)}) *)
  xv <- get X_view ;;
  X_view <- new (rename_columns xv (combine view_cols profit_cols)) ;;
  (* X_profit = X.drop(view_cols, axis=1).copy() *)
  x <- get X ;;
  dropped <- lift (drop x view_cols) ;;
  X_profit <- new dropped ;;
  ret (X_view, X_profit).

(* ================================================================== *)
(** ** The composite estimator and the offer chooser *)

Set Implicit Arguments.

Section Estimator.

(** The floating-point type of the predictions, with the operations the code
    applies to it: element-wise product, the comparison [<=] and the NaN test
    behind [idxmax], the NaN that pads a ragged table and the [-inf] that
    [idxmax] puts in place of NaN. *)
Variable score : Type.
Variable smul : score -> score -> score.
Variable sleb : score -> score -> bool.
Variable sisnan : score -> bool.
Variable snan : score.
Variable sneginf : score.

(** A fitted [ProfitsPredictor]: the two column-name lists and the two
    fitted pipelines.  A pipeline is given a table, returns its array (or
    raises) and may leave the table it was given modified. *)
Record ProfitsPredictor : Type := mkPredictor {
  view_cols : list string;
  profit_cols : list string;
  views_model_predict_proba : DataFrame -> res (list (score * score)) * DataFrame;
  profits_model_predict : DataFrame -> res (list score) * DataFrame
}.

(** A library call on the object at [r]. *)
Definition call {A} (f : DataFrame -> res A * DataFrame) (r : ref) : M A :=
  fun h => let (out, d) := f (nth r h empty_frame) in (out, update r d h).

(** [a * b] on two one-dimensional arrays, with numpy's broadcasting of a
    length-one operand. *)
Definition np_mul (a b : list score) : res (list score) :=
  if Nat.eqb (length a) (length b) then Ok (map (fun p => smul (fst p) (snd p)) (combine a b))
  else match a, b with
       | [x], _ => Ok (map (smul x) b)
       | _, [y] => Ok (map (fun x => smul x y) a)
       | _, _ => Raise ValueError
       end.

(** [ProfitsPredictor.predict] (lines 300-308) *)
Definition predict (self : ProfitsPredictor) (X : ref) : M (list score) :=
  '(X_views, X_profits) <- split_view_profit X (view_cols self) (profit_cols self) ;;
  proba <- call (views_model_predict_proba self) X_views ;;
  let vis_probas := map snd proba in
  profits_pred <- call (profits_model_predict self) X_profits ;;
  lift (np_mul vis_probas profits_pred).

(** [ProfitsPredictor.predict_profit_alone] (lines 310-319) *)
Definition predict_profit_alone (self : ProfitsPredictor) (X : ref) : M (list score) :=
  '(X_views, X_profits) <- split_view_profit X (view_cols self) (profit_cols self) ;;
  call (profits_model_predict self) X_profits.

(** A named series of scores: [pd.Series(y_pred, name=offer.id)]. *)
Definition ScoreSeries : Type := (value * list score)%type.

(** [predict_profit_with_offer] (lines 220-236) *)
Definition predict_profit_with_offer (model : ProfitsPredictor) (data : ref)
  (offer : Series) (drop_offer_id : bool) : M ScoreSeries :=
  (* samples = data.copy() *)
  d <- get data ;;
  samples <- new d ;;
  std_offer <- lift (if drop_offer_id
                     then rbind (series_drop offer "id") (fun o =>
                          Ok (rename_index o [("reward", "reward_t")]))
                     else Ok (sort_index (rename_index offer
                                [("reward", "reward_t"); ("id", "offer_id")]))) ;;
  let view_offer :=
    rename_index std_offer
      (map (fun old : string => (old, (old ++ "_viewcol")%string)) (index std_offer)) in
  s <- get samples ;;
  s1 <- lift (loc_set_all_rows s (sorted VIEW_COLS) (values view_offer)) ;;
  put samples s1 ;;;
  s <- get samples ;;
  s2 <- lift (loc_set_all_rows s (sorted PROFIT_COLS) (values std_offer)) ;;
  put samples s2 ;;;
  offer_type <- lift (getattr offer "offer_type") ;;
  y_pred <- (if eq_str offer_type "no_offer"
             then predict_profit_alone model samples
             else predict model samples) ;;
  id <- lift (getattr offer "id") ;;
  ret (id, y_pred).

(** The score table [res]: one row per customer, one labelled column per
    candidate. *)
Record ScoreTable : Type := mkScores {
  st_columns : list value;
  st_rows : list (list score)
}.

(** The table [apply(..., axis=1).T] builds from the per-candidate series:
    customer [i] gets the [i]-th score of every candidate, NaN where a
    series is shorter than the longest. *)
Definition transpose_results (results : list (list score)) : list (list score) :=
  let n := fold_right Nat.max 0 (map (@length score) results) in
  map (fun i => map (fun r => nth i r snan) results) (seq 0 n).

(** numpy's [argmax] scan: the running maximum moves to position [i] when
    [not (v[i] <= mp)]. *)
Fixpoint argmax_from (mp : score) (best i : nat) (l : list score) : nat :=
  match l with
  | [] => best
  | v :: l' =>
      if negb (sleb v mp) then argmax_from v i (S i) l'
      else argmax_from mp best (S i) l'
  end.

(** [nanargmax] on one row: NaN is replaced by [-inf] before the scan, and a
    row that holds nothing but NaN has no position. *)
Definition nanargmax (r : list score) : option nat :=
  match map (fun v => if sisnan v then sneginf else v) r with
  | [] => None
  | v :: l => if forallb sisnan r then None else Some (argmax_from v 0 1 l)
  end.

(** [res.idxmax(axis=1)]: per row, the label of the column [nanargmax]
    points at ([None] stands for the NaN label). *)
Definition idxmax (t : ScoreTable) : list (option value) :=
  map (fun r => match nanargmax r with
                | Some i => nth_error (st_columns t) i
                | None => None
                end) (st_rows t).

Definition null_offer_values : list value :=
  [VInt 0; VInt 0; VStr "no_offer"; VStr "no_offer";
   VInt 0; VInt 0; VInt 0; VInt 0; VInt 0].

(** [choose_offer] (lines 239-257) *)
Definition choose_offer (model : ProfitsPredictor) (X : ref) (portfolio : ref)
  (add_null_offer : bool) : M (list (option value) * ScoreTable) :=
  (* complete_portfolio = portfolio.copy() *)
  p <- get portfolio ;;
  complete_portfolio <- new p ;;
  complete_portfolio <-
    (if add_null_offer
     then cp <- get complete_portfolio ;;
          null_offer <- lift (mk_series null_offer_values (columns cp)) ;;
          new (append_row cp null_offer)
     else ret complete_portfolio) ;;
  cp <- get complete_portfolio ;;
  results <- mapM (fun x => predict_profit_with_offer model X x false)
                  (iter_rows cp) ;;
  let res := transpose_results (map snd results) in
  (* res.columns = complete_portfolio.id *)
  cp <- get complete_portfolio ;;
  ids <- lift (getattr (cols cp) "id") ;;
  res <- lift (if Nat.eqb (length ids) (length results)
               then Ok (mkScores ids res)
               else Raise ValueError) ;;
  ret (idxmax res, res).

End Estimator.

Unset Implicit Arguments.

Arguments mkPredictor {score} _ _ _ _.
Arguments mkScores {score} _ _.

(* ================================================================== *)
(** ** [get_offers_ts] (lines 32-55) *)

(** A cell of the time-series table: NaN or a number.  The only numbers the
    function writes are 0 and 1 (floats in the source, whose sums are
    exact); they are kept as integers. *)
Inductive ts_cell : Type :=
| TsNaN
| TsNum (z : Z).

(** The table [offer_ts]: the time labels of the rows and the labelled
    columns, one cell per time. *)
Record OfferTs : Type := mkTs {
  ts_index : list Z;
  ts_cols : list (string * list ts_cell)
}.

(** A row of [user_received]: the fields the loop reads. *)
Record Received : Type := mkReceived {
  rc_time : Z;
  rc_offer_id : string;
  rc_viewed : value
}.

(** [if v:] *)
Definition truthy (v : value) : bool :=
  match v with
  | VBool b => b
  | VInt z => negb (Z.eqb z 0)
  | VFloat f => negb (PrimFloat.eqb f PrimFloat.zero)
  | VStr s => negb (String.eqb s "")
  end.

(** [data.time.unique()]: the distinct values, in order of first appearance. *)
Fixpoint unique_from (seen : list Z) (l : list Z) : list Z :=
  match l with
  | [] => []
  | t :: l' =>
      if existsb (Z.eqb t) seen then unique_from seen l'
      else t :: unique_from (t :: seen) l'
  end.

Definition unique (l : list Z) : list Z := unique_from [] l.

Fixpoint is_monotonic_increasing (l : list Z) : bool :=
  match l with
  | a :: ((b :: _) as l') => Z.leb a b && is_monotonic_increasing l'
  | _ => true
  end.

Fixpoint is_monotonic_decreasing (l : list Z) : bool :=
  match l with
  | a :: ((b :: _) as l') => Z.leb b a && is_monotonic_decreasing l'
  | _ => true
  end.

Inductive side : Type :=
| SideLeft
| SideRight.

(** [idx.get_loc(label)] on an index without duplicates. *)
Fixpoint get_loc (label : Z) (idx : list Z) : option nat :=
  match idx with
  | [] => None
  | t :: idx' =>
      if Z.eqb t label then Some 0
      else match get_loc label idx' with
           | Some i => Some (S i)
           | None => None
           end
  end.

(** [a.searchsorted(label, side)] on an ascending array: the number of
    elements below the label (left), or not above it (right). *)
Definition searchsorted (a : list Z) (label : Z) (sd : side) : nat :=
  length (filter (fun t => match sd with
                           | SideLeft => Z.ltb t label
                           | SideRight => Z.leb t label
                           end) a).

(** [idx.get_slice_bound(label, side)]: the position of the label when the
    index holds it; otherwise its insertion point if the index is monotonic,
    and [KeyError] if it is not. *)
Definition get_slice_bound (idx : list Z) (label : Z) (sd : side) : res nat :=
  match get_loc label idx with
  | Some slc => Ok (match sd with
                    | SideLeft => slc
                    | SideRight => S slc
                    end)
  | None =>
      if is_monotonic_increasing idx then Ok (searchsorted idx label sd)
      else if is_monotonic_decreasing idx
           then Ok (length idx
                    - searchsorted (rev idx) label
                        (match sd with
                         | SideLeft => SideRight
                         | SideRight => SideLeft
                         end))
           else Raise KeyError
  end.

Fixpoint ts_set_col (c : string) (l : list ts_cell) (cs : list (string * list ts_cell))
  : list (string * list ts_cell) :=
  match cs with
  | [] => [(c, l)]
  | (k, old) :: cs' =>
      if String.eqb c k then (k, l) :: cs' else (k, old) :: ts_set_col c l cs'
  end.

Fixpoint ts_where (mask : list bool) (v : ts_cell) (l : list ts_cell) {struct l}
  : list ts_cell :=
  match l with
  | [] => []
  | x :: l' =>
      match mask with
      | [] => l
      | m :: mask' => (if m then v else x) :: ts_where mask' v l'
      end
  end.

(** [offer_ts.loc[a:b, c] = 1]: the rows are those at the positions from the
    left bound of [a] up to the right bound of [b]; a column that does not
    exist yet is created, NaN outside those rows (pandas refuses to create
    it in a table without rows). *)
Definition ts_loc_set (ts : OfferTs) (a b : Z) (c : string) : res OfferTs :=
  rbind (get_slice_bound (ts_index ts) a SideLeft) (fun start =>
  rbind (get_slice_bound (ts_index ts) b SideRight) (fun stop =>
  let mask := map (fun i => Nat.leb start i && Nat.ltb i stop)
                  (seq 0 (length (ts_index ts))) in
  match lookup c (ts_cols ts) with
  | Some l =>
      Ok (mkTs (ts_index ts) (ts_set_col c (ts_where mask (TsNum 1) l) (ts_cols ts)))
  | None =>
      if Nat.eqb (length (ts_index ts)) 0 then Raise ValueError
      else Ok (mkTs (ts_index ts)
                 (ts_set_col c (map (fun m : bool => if m then TsNum 1 else TsNaN) mask)
                    (ts_cols ts)))
  end)).

(** [offer_ts.sum(axis=1)] at row [i]: NaN is skipped. *)
Definition ts_row_sum (cs : list (string * list ts_cell)) (i : nat) : Z :=
  fold_right (fun c acc => match nth_error (snd c) i with
                           | Some (TsNum z) => (z + acc)%Z
                           | _ => acc
                           end) 0%Z cs.

(** The body of the loop for one received row. *)
Definition offers_ts_step (delta : Z) (viewed : bool) (ts : OfferTs) (r : Received)
  : res OfferTs :=
  if viewed
  then if truthy (rc_viewed r)
       then ts_loc_set ts (rc_time r) (rc_time r + delta) (rc_offer_id r)
       else Ok ts
  else ts_loc_set ts (rc_time r) (rc_time r + delta) (rc_offer_id r).

Fixpoint offers_ts_loop (delta : Z) (viewed : bool) (rows : list Received)
  (ts : OfferTs) : res OfferTs :=
  match rows with
  | [] => Ok ts
  | r :: rows' =>
      rbind (offers_ts_step delta viewed ts r) (offers_ts_loop delta viewed rows')
  end.

(** [get_offers_ts]: [offers] stands for [portfolio.id.values] and
    [data_time] for the column [data.time]. *)
Definition get_offers_ts (user_received : list Received) (offers : list string)
  (data_time : list Z) (delta : Z) (viewed : bool) : res OfferTs :=
  let index := unique data_time in
  let offer_ts :=
    mkTs index (map (fun o => (o, repeat (TsNum 0) (length index))) offers) in
  rbind (offers_ts_loop delta viewed user_received offer_ts) (fun offer_ts =>
  (* Fill the "no-offer" column *)
  Ok (mkTs (ts_index offer_ts)
        (ts_set_col "no_offer"
           (map (fun i => TsNum (if Z.eqb (ts_row_sum (ts_cols offer_ts) i) 0
                                 then 1 else 0))
                (seq 0 (length (ts_index offer_ts))))
           (ts_cols offer_ts)))).

(** Whether a received row puts offer [o] on at time [t]. *)
Definition puts_on (delta : Z) (viewed : bool) (o : string) (t : Z) (r : Received)
  : bool :=
  String.eqb (rc_offer_id r) o
  && (if viewed then truthy (rc_viewed r) else true)
  && Z.leb (rc_time r) t && Z.leb t (rc_time r + delta).

(** The cell of column [c] at position [i] of the time-series table. *)
Definition ts_cell_at (ts : OfferTs) (c : string) (i : nat) : option ts_cell :=
  match lookup c (ts_cols ts) with
  | Some l => nth_error l i
  | None => None
  end.

(** Whether some received row puts offer [o] on at time [t]. *)
Definition offer_on (delta : Z) (viewed : bool) (user_received : list Received)
  (o : string) (t : Z) : bool :=
  existsb (puts_on delta viewed o t) user_received.

(** The state of the loop: the table has the times [idx] as its rows and the
    offers as its columns, and holds 1 where [act] is true and 0 elsewhere. *)
Definition ts_marks (idx : list Z) (offers : list string)
  (act : string -> Z -> bool) (ts : OfferTs) : Prop :=
  ts_index ts = idx
  /\ map fst (ts_cols ts) = offers
  /\ forall o i t, In o offers -> nth_error idx i = Some t ->
       ts_cell_at ts o i = Some (TsNum (if act o t then 1 else 0)).

(** The shape every table of the loop has: the times [idx] as rows, one
    cell per time in every column, and the offers as the first columns. *)
Definition ts_shape (idx : list Z) (offers : list string) (ts : OfferTs) : Prop :=
  ts_index ts = idx
  /\ Forall (fun c => length (snd c) = length idx) (ts_cols ts)
  /\ exists extra, map fst (ts_cols ts) = offers ++ extra.

(* ================================================================== *)
(** ** A concrete score type and fixtures *)

(** Integers extended with the two infinities and NaN: an exact instance of
    the score interface, used to run the functions on concrete tables. *)
Module XScore.

Inductive t : Type :=
| NaN
| NInf
| Fin (z : Z)
| PInf.

Definition sign_mul (pos : bool) (z : Z) : t :=
  if Z.eqb z 0 then NaN
  else if Bool.eqb pos (Z.ltb 0 z) then PInf else NInf.

Definition mul (a b : t) : t :=
  match a, b with
  | NaN, _ | _, NaN => NaN
  | Fin x, Fin y => Fin (x * y)
  | PInf, Fin y | Fin y, PInf => sign_mul true y
  | NInf, Fin y | Fin y, NInf => sign_mul false y
  | PInf, PInf | NInf, NInf => PInf
  | PInf, NInf | NInf, PInf => NInf
  end.

Definition leb (a b : t) : bool :=
  match a, b with
  | NaN, _ | _, NaN => false
  | NInf, _ => true
  | _, PInf => true
  | Fin x, Fin y => Z.leb x y
  | _, _ => false
  end.

Definition isnan (a : t) : bool :=
  match a with
  | NaN => true
  | _ => false
  end.

End XScore.

Module Fixtures.

Import XScore.

Definition int_cell (v : value) : Z :=
  match v with
  | VInt z => z
  | _ => 0
  end.

(** A views pipeline that reads [difficulty]: probability column 1 is the
    cell itself, column 0 is left at zero. *)
Definition views_proba (d : DataFrame) : res (list (t * t)) * DataFrame :=
  match lookup "difficulty" (cols d) with
  | Some l => (Ok (map (fun v => (Fin 0, Fin (int_cell v))) l), d)
  | None => (Raise ModelError, d)
  end.

(** A profits pipeline that reads [age] and [reward_t] and returns their sum. *)
Definition profits (d : DataFrame) : res (list t) * DataFrame :=
  match lookup "age" (cols d), lookup "reward_t" (cols d) with
  | Some a, Some r =>
      (Ok (map (fun p => Fin (int_cell (fst p) + int_cell (snd p))) (combine a r)), d)
  | _, _ => (Raise ModelError, d)
  end.

Definition model : ProfitsPredictor t :=
  mkPredictor VIEW_COLS PROFIT_COLS views_proba profits.

(** A constant model: every row is viewed with probability one and yields a
    profit of five, whatever the offer is. *)
Definition flat_model : ProfitsPredictor t :=
  mkPredictor VIEW_COLS PROFIT_COLS
    (fun d => (Ok (repeat (Fin 0, Fin 1) (nrows d)), d))
    (fun d => (Ok (repeat (Fin 5) (nrows d)), d)).

(** Two customers before null-offer filling: the first did not view the
    offer sent to them, the second did. *)
Definition raw_data : DataFrame :=
  mkDF 2
    [("age", [VInt 30; VInt 40]);
     ("viewed", [VInt 0; VInt 1]);
     ("difficulty", [VInt 10; VInt 5]);
     ("duration", [VInt 7; VInt 5]);
     ("reward_t", [VInt 2; VInt 5]);
     ("channel_web", [VInt 1; VInt 0]);
     ("channel_mobile", [VInt 1; VInt 1]);
     ("channel_email", [VInt 1; VInt 1]);
     ("channel_social", [VInt 0; VInt 1]);
     ("offer_id", [VStr "A"; VStr "B"]);
     ("offer_type", [VStr "discount"; VStr "bogo"])].

Definition filled_data : DataFrame :=
  nth 0 (snd (fill_null_offer 0 [raw_data])) empty_frame.

(** The feature table: the filled data without the target column. *)
Definition X : DataFrame :=
  mkDF 2 (filter (fun c => negb (String.eqb (fst c) "viewed")) (cols filled_data)).

(** A catalog with one real offer, in the column layout of the portfolio. *)
Definition portfolio1 : DataFrame :=
  mkDF 1
    [("difficulty", [VInt 3]);
     ("duration", [VInt 7]);
     ("id", [VStr "A"]);
     ("offer_type", [VStr "discount"]);
     ("reward", [VInt 2]);
     ("channel_web", [VInt 1]);
     ("channel_email", [VInt 1]);
     ("channel_mobile", [VInt 0]);
     ("channel_social", [VInt 0])].

Definition choose (m : ProfitsPredictor t) (x p : DataFrame) :=
  choose_offer mul leb isnan NaN NInf m 0 1 true [x; p].

(** A catalog with two real offers. *)
Definition portfolio2 : DataFrame :=
  mkDF 2
    [("difficulty", [VInt 3; VInt 10]);
     ("duration", [VInt 7; VInt 5]);
     ("id", [VStr "A"; VStr "B"]);
     ("offer_type", [VStr "discount"; VStr "bogo"]);
     ("reward", [VInt 2; VInt 10]);
     ("channel_web", [VInt 1; VInt 1]);
     ("channel_email", [VInt 1; VInt 1]);
     ("channel_mobile", [VInt 0; VInt 1]);
     ("channel_social", [VInt 0; VInt 1])].

(** The same offer as [portfolio1], its fields in the order identity, type,
    difficulty, duration, reward, channel flags. *)
Definition portfolio_id_first : DataFrame :=
  mkDF 1
    [("id", [VStr "A"]);
     ("offer_type", [VStr "discount"]);
     ("difficulty", [VInt 3]);
     ("duration", [VInt 7]);
     ("reward", [VInt 2]);
     ("channel_web", [VInt 1]);
     ("channel_mobile", [VInt 0]);
     ("channel_email", [VInt 1]);
     ("channel_social", [VInt 0])].

(** A transcript clock and what one user received: offer "A" at time 0
    (viewed), offer "B" at time 12 (not viewed). *)
Definition clock : list Z := [0; 0; 6; 12; 6; 18; 24]%Z.

Definition received : list Received :=
  [mkReceived 0 "A" (VInt 1); mkReceived 12 "B" (VInt 0)].

(** The table of [received] over [clock] for the offers A and B, with a
    window of 6 hours and [viewed=False]. *)
Definition offers_table : OfferTs :=
  mkTs [0; 6; 12; 18; 24]%Z
    [("A", [TsNum 1; TsNum 1; TsNum 0; TsNum 0; TsNum 0]);
     ("B", [TsNum 0; TsNum 0; TsNum 1; TsNum 1; TsNum 0]);
     ("no_offer", [TsNum 0; TsNum 0; TsNum 0; TsNum 0; TsNum 1])].

(** [X] with other cells in its view block. *)
Definition X_other_views : DataFrame :=
  mkDF 2 (map (fun c => if mem (fst c) VIEW_COLS
                        then (fst c, [VInt 9; VStr "other"])
                        else c) (cols X)).

End Fixtures.

(* ================================================================== *)
(** ** Well-formed tables *)

Fixpoint nodupb (l : list string) : bool :=
  match l with
  | [] => true
  | c :: l' => negb (mem c l') && nodupb l'
  end.

(** Labels are unique and every column has one cell per row: the tables
    pandas builds for this dataset. *)
Definition wf_table (df : DataFrame) : bool :=
  nodupb (columns df)
  && forallb (fun c => Nat.eqb (length (snd c)) (nrows df)) (cols df).

(** Every label of [labels] names a column of [df]. *)
Definition has_columns (df : DataFrame) (labels : list string) : bool :=
  forallb (fun c => mem c (columns df)) labels.

(* ================================================================== *)
(** ** Specification vocabulary *)

(** A frame rule for the store

    [frame n m Q]: run from a store of at least [n] objects, [m] leaves the
    first [n] objects as they were, never shrinks the store, and its result
    satisfies [Q]. *)
Definition frame {A} (n : nat) (m : M A) (Q : A -> Prop) : Prop :=
  forall h, n <= length h ->
    length h <= length (snd (m h))
    /\ (forall r, r < n -> nth r (snd (m h)) empty_frame = nth r h empty_frame)
    /\ (forall a, fst (m h) = Ok a -> Q a).

(** The table [fill_null_offer] leaves behind, given the profit-block
    sub-table [sub] and the [viewed] column it read. *)
Definition fill_frame (data : DataFrame) (sub : list (string * list value))
  (viewed : list value) : DataFrame :=
  let d1 := setitem_pairs data (combine VIEW_COLS sub) in
  let m := eq_zero_mask viewed in
  let d2 := loc_set_label d1 m "offer_id" (VStr "no_offer") in
  let d3 := loc_set_label d2 m "offer_type" (VStr "no_offer") in
  loc_set_colmask d3 m (columns_isin d3 Z_COLS) (VInt 0).

(** Two tables with the same labels, row count and cells, except possibly
    for the cells of the columns named in [labels]. *)
Definition agree_outside (labels : list string) (x1 x2 : DataFrame) : Prop :=
  nrows x1 = nrows x2
  /\ Forall2 (fun a b => fst a = fst b
                         /\ (mem (fst a) labels = false -> snd a = snd b))
       (cols x1) (cols x2).

(** The label an offer field takes in the customer table: the renaming
    [{'reward': 'reward_t', 'id': 'offer_id'}] of [predict_profit_with_offer]. *)
Definition std_label (k : string) : string :=
  match dict_get k [("reward", "reward_t"); ("id", "offer_id")] with
  | Some p => p
  | None => k
  end.

(** The positional layout [null_offer] relies on: nine columns, with the
    identity and the type of the offer in third and fourth place. *)
Definition portfolio_layout (p : DataFrame) : bool :=
  match columns p with
  | [_; _; c2; c3; _; _; _; _; _] =>
      (String.eqb c2 "id" && String.eqb c3 "offer_type")
      || (String.eqb c2 "offer_type" && String.eqb c3 "id")
  | _ => false
  end.

(** The table [predict_profit_with_offer] scores: the customer table with
    the offer written over the view block, then over the profit block. *)
Definition substituted (d : DataFrame) (offer : Series) : DataFrame :=
  let std_offer :=
    sort_index (rename_index offer [("reward", "reward_t"); ("id", "offer_id")]) in
  let view_offer :=
    rename_index std_offer
      (map (fun old : string => (old, (old ++ "_viewcol")%string)) (index std_offer)) in
  loc_set_block
    (loc_set_block d (combine (sorted VIEW_COLS) (values view_offer)))
    (combine (sorted PROFIT_COLS) (values std_offer)).

(** The catalog [choose_offer] scores when [add_null_offer] is set: the
    portfolio with the [null_offer] row appended. *)
Definition complete_with_null (p : DataFrame) : DataFrame :=
  append_row p (combine (columns p) null_offer_values).

Set Implicit Arguments.

Section ChooserVocabulary.

Variable score : Type.
Variable smul : score -> score -> score.
Variable sleb : score -> score -> bool.
Variable sisnan : score -> bool.
Variable snan : score.
Variable sneginf : score.

(** The part of [choose_offer] that follows the construction of
    [complete_portfolio]. *)
Definition score_candidates (model : ProfitsPredictor score)
  (X complete_portfolio : ref) : M (list (option value) * ScoreTable score) :=
  cp <- get complete_portfolio ;;
  results <- mapM (fun x => predict_profit_with_offer smul model X x false)
                  (iter_rows cp) ;;
  let res := transpose_results snan (map snd results) in
  cp <- get complete_portfolio ;;
  ids <- lift (getattr (cols cp) "id") ;;
  res <- lift (if Nat.eqb (length ids) (length results)
               then Ok (mkScores ids res)
               else Raise ValueError) ;;
  ret (idxmax sleb sisnan sneginf res, res).

(** A fitted pipeline answers every table that has the columns it was
    trained on with one value per row. *)
Definition predicts_per_row {A} (f : DataFrame -> res (list A) * DataFrame)
  (labels : list string) : Prop :=
  forall d, columns d = labels ->
    exists out d', f d = (Ok out, d') /\ length out = nrows d.

(** Position [i] holds a maximum of the row, and no earlier position does:
    the first occurrence of the maximum. *)
Definition first_max (r : list score) (i : nat) : Prop :=
  exists y,
    nth_error r i = Some y
    /\ (forall j x, nth_error r j = Some x -> sleb x y = true)
    /\ (forall j x, j < i -> nth_error r j = Some x -> sleb y x = false).

(** The row holds no NaN. *)
Definition no_nan (r : list score) : Prop :=
  Forall (fun v => sisnan v = false) r.

End ChooserVocabulary.

Unset Implicit Arguments.

(** An offer that carries the nine fields of the catalog, under the
    identity [id]. *)
Definition scorable (offer : Series) (id : value) : Prop :=
  sorted (map std_label (index offer)) = sorted PROFIT_COLS
  /\ getattr offer "id" = Ok id
  /\ exists offer_type, getattr offer "offer_type" = Ok offer_type.

(* ================================================================== *)
(** * Proofs *)

(* ================================================================== *)
(** ** Lemmas on the table primitives *)

Lemma mem_In c l : mem c l = true <-> In c l.
Proof.
  unfold mem. rewrite existsb_exists. split.
  - intros [x [Hx He]]. apply String.eqb_eq in He. now subst.
  - intros H. exists c. split; [assumption | apply String.eqb_refl].
Qed.

Lemma mem_false_In c l : mem c l = false <-> ~ In c l.
Proof.
  rewrite <- mem_In. destruct (mem c l); split; intros; congruence.
Qed.

Lemma lookup_mem {A} c (l : list (string * A)) :
  mem c (map fst l) = true <-> exists a, lookup c l = Some a.
Proof.
  induction l as [|[k a] l IH]; simpl.
  - split; [discriminate | intros [a H]; discriminate].
  - destruct (String.eqb c k) eqn:E; simpl.
    + split; eauto.
    + exact IH.
Qed.

Lemma lookup_set_col c l c' cs :
  lookup c' (set_col c l cs) = if String.eqb c' c then Some l else lookup c' cs.
Proof.
  induction cs as [|[k old] cs IH]; simpl.
  - destruct (String.eqb c' c); reflexivity.
  - destruct (String.eqb c k) eqn:E; simpl.
    + apply String.eqb_eq in E. subst k.
      destruct (String.eqb c' c); reflexivity.
    + rewrite IH. destruct (String.eqb c' c) eqn:E'; [|reflexivity].
      apply String.eqb_eq in E'. subst c'. now rewrite E.
Qed.

Lemma mem_set_col c l c' cs :
  mem c' (map fst (set_col c l cs)) = String.eqb c' c || mem c' (map fst cs).
Proof.
  induction cs as [|[k old] cs IH]; simpl.
  - now rewrite orb_false_r.
  - destruct (String.eqb c k) eqn:E; simpl.
    + apply String.eqb_eq in E. subst k.
      destruct (String.eqb c' c); reflexivity.
    + rewrite IH. destruct (String.eqb c' c), (String.eqb c' k); reflexivity.
Qed.

Lemma lookup_colmask (mask : list bool) v zs c cs :
  lookup c (loc_set_colmask_cols mask (map (fun k => mem k zs) (map fst cs)) v cs)
  = match lookup c cs with
    | Some l => Some (if mem c zs then where_set mask v l else l)
    | None => None
    end.
Proof.
  induction cs as [|[k l] cs IH]; simpl; [reflexivity|].
  destruct (String.eqb c k) eqn:E.
  - apply String.eqb_eq in E. now subst k.
  - exact IH.
Qed.

Lemma colmask_columns (mask colmask : list bool) v cs :
  map fst (loc_set_colmask_cols mask colmask v cs) = map fst cs.
Proof.
  revert colmask. induction cs as [|[k l] cs IH]; intros [|b colmask]; simpl;
    try reflexivity.
  now rewrite IH.
Qed.

Lemma where_set_length mask v l : length (where_set mask v l) = length l.
Proof.
  revert mask. induction l as [|x l IH]; intros [|m mask]; simpl; auto.
Qed.

Lemma nth_error_where_set mask v l i :
  nth_error (where_set mask v l) i
  = match nth_error l i with
    | Some x => Some (match nth_error mask i with
                      | Some true => v
                      | _ => x
                      end)
    | None => None
    end.
Proof.
  revert mask i. induction l as [|x l IH]; intros mask i.
  - destruct i; reflexivity.
  - destruct mask as [|m mask]; simpl.
    + destruct i; simpl; [reflexivity|].
      destruct (nth_error l i); [|reflexivity]. now destruct i.
    + destruct i; simpl; [now destruct m | apply IH].
Qed.

Lemma getitem_list_cols_ok df cs :
  has_columns df cs = true ->
  exists r, getitem_list_cols df cs = Ok r
            /\ map fst r = cs
            /\ forall c, In c cs -> lookup c r = lookup c (cols df).
Proof.
  induction cs as [|c cs IH]; simpl; intros H.
  - exists []. repeat split. intros c [].
  - apply andb_prop in H. destruct H as [Hc Hcs].
    destruct (IH Hcs) as [r [Hr [Hf Hl]]].
    apply lookup_mem in Hc. destruct Hc as [l Hlc].
    unfold getitem. rewrite Hlc. simpl. rewrite Hr. simpl.
    exists ((c, l) :: r). repeat split.
    + simpl. now rewrite Hf.
    + intros c' [E|Hin]; simpl.
      * subst c'. now rewrite String.eqb_refl.
      * destruct (String.eqb c' c) eqn:E; [|auto].
        apply String.eqb_eq in E. now subst c'.
Qed.

(* ================================================================== *)
(** ** Lemmas on the object store *)

Lemma update_length r d h : length (update r d h) = length h.
Proof.
  revert r. induction h as [|x h IH]; intros [|r]; simpl; auto.
Qed.

Lemma nth_update_same r d h :
  r < length h -> nth r (update r d h) empty_frame = d.
Proof.
  revert r. induction h as [|x h IH]; intros [|r] H; simpl in *; try lia; auto.
  apply IH. lia.
Qed.

Lemma nth_update_other r r' d h :
  r <> r' -> nth r' (update r d h) empty_frame = nth r' h empty_frame.
Proof.
  revert r r'. induction h as [|x h IH]; intros [|r] [|r'] H; simpl; auto;
    try congruence.
Qed.

Lemma nth_new h (d : DataFrame) : nth (length h) (h ++ [d]) empty_frame = d.
Proof.
  rewrite app_nth2 by lia. now rewrite Nat.sub_diag.
Qed.

Lemma update_new h (d d' : DataFrame) : update (length h) d' (h ++ [d]) = h ++ [d'].
Proof.
  induction h as [|x h IH]; simpl; [reflexivity | now rewrite IH].
Qed.

(** *** The frame rule *)

Lemma frame_ret {A} n (a : A) (Q : A -> Prop) : Q a -> frame n (ret a) Q.
Proof.
  intros HQ h Hn. simpl. repeat split; auto. intros a' E.
  inversion E. subst a'. exact HQ.
Qed.

Lemma frame_lift {A} n (r : res A) : frame n (lift r) (fun _ => True).
Proof. intros h Hn. simpl. repeat split; auto. Qed.

Lemma frame_get n r : frame n (get r) (fun _ => True).
Proof. intros h Hn. simpl. repeat split; auto. Qed.

Lemma frame_new n d : frame n (new d) (fun r => n <= r).
Proof.
  intros h Hn. simpl. repeat split.
  - rewrite length_app. lia.
  - intros r Hr. apply app_nth1. lia.
  - intros a E. inversion E. lia.
Qed.

Lemma frame_put n r d : n <= r -> frame n (put r d) (fun _ => True).
Proof.
  intros Hr h Hn. simpl. repeat split.
  - rewrite update_length. lia.
  - intros r' Hr'. apply nth_update_other. lia.
Qed.

Lemma frame_bind {A B} n (m : M A) (k : A -> M B) (Q : A -> Prop) (R : B -> Prop) :
  frame n m Q -> (forall a, Q a -> frame n (k a) R) -> frame n (bind m k) R.
Proof.
  intros Hm Hk h Hn. unfold bind.
  destruct (Hm h Hn) as [Hlen [Hfr HQ]].
  destruct (m h) as [[a|e] h'] eqn:E; simpl in *.
  - destruct (Hk a (HQ a eq_refl) h') as [Hlen' [Hfr' HR]]; [lia|].
    repeat split.
    + lia.
    + intros r Hr. rewrite Hfr' by assumption. now apply Hfr.
    + assumption.
  - repeat split; auto. intros b Hb. discriminate.
Qed.

Lemma frame_weaken {A} n (m : M A) (Q R : A -> Prop) :
  frame n m Q -> (forall a, Q a -> R a) -> frame n m R.
Proof.
  intros Hm HQR h Hn. destruct (Hm h Hn) as [H1 [H2 H3]]. repeat split; auto.
Qed.

Lemma frame_mapM {A B} n (f : A -> M B) l :
  (forall a, frame n (f a) (fun _ => True)) -> frame n (mapM f l) (fun _ => True).
Proof.
  intros Hf. induction l as [|a l IH]; simpl.
  - now apply frame_ret.
  - eapply frame_bind; [apply Hf|]. intros b _.
    eapply frame_bind; [apply IH|]. intros bs _. now apply frame_ret.
Qed.

Lemma frame_split n X vc pc :
  frame n (split_view_profit X vc pc) (fun p => n <= fst p /\ n <= snd p).
Proof.
  unfold split_view_profit.
  eapply frame_bind; [apply frame_get|]. intros x _.
  eapply frame_bind; [apply frame_lift|]. intros dv _.
  eapply frame_bind; [apply frame_new|]. intros r1 H1.
  eapply frame_bind; [apply frame_get|]. intros xv _.
  eapply frame_bind; [apply frame_new|]. intros r2 H2.
  eapply frame_bind; [apply frame_get|]. intros x' _.
  eapply frame_bind; [apply frame_lift|]. intros dp _.
  eapply frame_bind; [apply frame_new|]. intros r3 H3.
  apply frame_ret. simpl. split; assumption.
Qed.

Lemma update_update r d d' h : update r d' (update r d h) = update r d' h.
Proof.
  revert r. induction h as [|x h IH]; intros [|r]; simpl; auto.
  now rewrite IH.
Qed.

Lemma lookup_app {A} c (l1 l2 : list (string * A)) :
  lookup c (l1 ++ l2) = match lookup c l1 with
                        | Some a => Some a
                        | None => lookup c l2
                        end.
Proof.
  induction l1 as [|[k a] l1 IH]; simpl; [reflexivity|].
  destruct (String.eqb c k); [reflexivity | exact IH].
Qed.

Lemma lookup_setitem_pairs c kv df :
  lookup c (cols (setitem_pairs df kv))
  = match lookup c (rev kv) with
    | Some (_, l) => Some l
    | None => lookup c (cols df)
    end.
Proof.
  revert df. induction kv as [|[k1 [k2 l]] kv IH]; intros df; simpl.
  - reflexivity.
  - rewrite IH, lookup_app. destruct (lookup c (rev kv)) as [[k l']|].
    + reflexivity.
    + simpl. rewrite lookup_set_col. now destruct (String.eqb c k1).
Qed.

Lemma setitem_pairs_nrows kv df : nrows (setitem_pairs df kv) = nrows df.
Proof.
  revert df. induction kv as [|[k1 [k2 l]] kv IH]; intros df; simpl.
  - reflexivity.
  - now rewrite IH.
Qed.

Lemma map_fst_length9 {A} (l : list (string * A)) :
  map fst l = PROFIT_COLS ->
  exists a1 a2 a3 a4 a5 a6 a7 a8 a9,
    l = [("difficulty", a1); ("duration", a2); ("reward_t", a3);
         ("channel_web", a4); ("channel_mobile", a5); ("channel_email", a6);
         ("channel_social", a7); ("offer_id", a8); ("offer_type", a9)].
Proof.
  intros H.
  do 9 (destruct l as [|[? ?] l]; [discriminate H|]).
  destruct l; [|discriminate H].
  simpl in H. inversion H. subst. repeat eexists.
Qed.

(** The local name lists of [fill_null_offer] are the module constants. *)
Lemma fill_null_offer_unfold data :
  fill_null_offer data
  = (d <- get data ;;
     sub <- lift (getitem_list d PROFIT_COLS) ;;
     d1 <- lift (setitem_list d VIEW_COLS sub) ;;
     put data d1 ;;;
     d <- get data ;;
     viewed <- lift (getitem d "viewed") ;;
     put data (loc_set_label d (eq_zero_mask viewed) "offer_id" (VStr "no_offer")) ;;;
     d <- get data ;;
     viewed <- lift (getitem d "viewed") ;;
     put data (loc_set_label d (eq_zero_mask viewed) "offer_type" (VStr "no_offer")) ;;;
     d <- get data ;;
     viewed <- lift (getitem d "viewed") ;;
     put data (loc_set_colmask d (eq_zero_mask viewed) (columns_isin d Z_COLS) (VInt 0)) ;;;
     ret (data, VIEW_COLS, PROFIT_COLS)).
Proof. reflexivity. Qed.

(** What [fill_null_offer] does to the store when the table holds the
    profit block and the [viewed] column. *)
Lemma fill_null_offer_run r h viewed :
  r < length h ->
  has_columns (nth r h empty_frame) PROFIT_COLS = true ->
  lookup "viewed" (cols (nth r h empty_frame)) = Some viewed ->
  exists sub,
    getitem_list_cols (nth r h empty_frame) PROFIT_COLS = Ok sub
    /\ map fst sub = PROFIT_COLS
    /\ (forall c, In c PROFIT_COLS ->
          lookup c sub = lookup c (cols (nth r h empty_frame)))
    /\ fill_null_offer r h
       = (Ok (r, VIEW_COLS, PROFIT_COLS),
          update r (fill_frame (nth r h empty_frame) sub viewed) h).
Proof.
  intros Hr Hcols Hv.
  destruct (getitem_list_cols_ok _ _ Hcols) as [sub [Hsub [Hfst Hlk]]].
  exists sub. repeat split; try assumption.
  destruct (map_fst_length9 _ Hfst) as (a1&a2&a3&a4&a5&a6&a7&a8&a9&Es).
  set (data := nth r h empty_frame) in *.
  assert (Hv1 : forall d, lookup "viewed" (cols d) = Some viewed ->
                 getitem d "viewed" = Ok viewed).
  { intros d Hd. unfold getitem. now rewrite Hd. }
  assert (Hd1 : lookup "viewed" (cols (setitem_pairs data (combine VIEW_COLS sub)))
                = Some viewed).
  { rewrite lookup_setitem_pairs. rewrite Es. exact Hv. }
  assert (Hd2 : forall d c m v, c <> "viewed" ->
                 lookup "viewed" (cols d) = Some viewed ->
                 lookup "viewed" (cols (loc_set_label d m c v)) = Some viewed).
  { intros d c m v Hc Hd. unfold loc_set_label.
    destruct (lookup c (cols d)); simpl; rewrite lookup_set_col;
      (destruct (String.eqb "viewed" c) eqn:E;
       [apply String.eqb_eq in E; congruence | exact Hd]). }
  rewrite fill_null_offer_unfold.
  unfold bind, get, put, lift, ret, getitem_list, setitem_list.
  fold data. rewrite Hsub. simpl rbind. cbv beta iota.
  replace (Nat.eqb (length (cols (mkDF (nrows data) sub))) (length VIEW_COLS))
    with true by (rewrite Es; reflexivity).
  rewrite nth_update_same by assumption.
  change (cols (mkDF (nrows data) sub)) with sub.
  rewrite (Hv1 _ Hd1).
  rewrite update_update, nth_update_same by assumption.
  rewrite (Hv1 _ (Hd2 _ "offer_id" _ _ ltac:(discriminate) Hd1)).
  rewrite update_update, nth_update_same by assumption.
  rewrite (Hv1 _ (Hd2 _ "offer_type" _ _ ltac:(discriminate)
                     (Hd2 _ "offer_id" _ _ ltac:(discriminate) Hd1))).
  rewrite update_update. reflexivity.
Qed.

Lemma lookup_loc_set_label c' d m c v :
  lookup c' (cols (loc_set_label d m c v))
  = if String.eqb c' c
    then Some (match lookup c (cols d) with
               | Some l => where_set m v l
               | None => enlarge_col m v
               end)
    else lookup c' (cols d).
Proof.
  unfold loc_set_label.
  destruct (lookup c (cols d)); simpl; now rewrite lookup_set_col.
Qed.

Lemma lookup_not_mem {A} c (l : list (string * A)) :
  mem c (map fst l) = false -> lookup c l = None.
Proof.
  intros H. destruct (lookup c l) eqn:E; [|reflexivity].
  assert (mem c (map fst l) = true) by (apply lookup_mem; eauto). congruence.
Qed.

Lemma lookup_fill_frame c data sub viewed :
  lookup c (cols (fill_frame data sub viewed))
  = let m := eq_zero_mask viewed in
    let d1 := setitem_pairs data (combine VIEW_COLS sub) in
    let d2 := loc_set_label d1 m "offer_id" (VStr "no_offer") in
    match lookup c (cols (loc_set_label d2 m "offer_type" (VStr "no_offer"))) with
    | Some l => Some (if mem c Z_COLS then where_set m (VInt 0) l else l)
    | None => None
    end.
Proof.
  unfold fill_frame, loc_set_colmask, columns_isin, columns. cbn [cols].
  apply lookup_colmask.
Qed.

(** Outside the view block, [fill_null_offer] rewrites the cells of the
    profit block in the masked rows and nothing else. *)
Lemma lookup_fill_frame_other c data sub viewed :
  map fst sub = PROFIT_COLS ->
  has_columns data PROFIT_COLS = true ->
  mem c VIEW_COLS = false ->
  lookup c (cols (fill_frame data sub viewed))
  = match lookup c (cols data) with
    | Some l =>
        Some (if mem c ["offer_id"; "offer_type"]
              then where_set (eq_zero_mask viewed) (VStr "no_offer") l
              else if mem c Z_COLS
                   then where_set (eq_zero_mask viewed) (VInt 0) l
                   else l)
    | None => None
    end.
Proof.
  intros Hfst Hcols Hc.
  assert (H1 : forall k, mem k VIEW_COLS = false ->
            lookup k (cols (setitem_pairs data (combine VIEW_COLS sub)))
            = lookup k (cols data)).
  { intros k Hk. rewrite lookup_setitem_pairs.
    rewrite lookup_not_mem; [reflexivity|].
    rewrite map_rev. apply mem_false_In. intros Hin. apply in_rev in Hin.
    apply mem_false_In in Hk. apply Hk.
    destruct (map_fst_length9 _ Hfst) as (a1&a2&a3&a4&a5&a6&a7&a8&a9&Es).
    subst sub. exact Hin. }
  assert (Hoid : exists l, lookup "offer_id" (cols data) = Some l).
  { apply lookup_mem. unfold has_columns in Hcols.
    rewrite forallb_forall in Hcols. apply Hcols. simpl. tauto. }
  assert (Hoty : exists l, lookup "offer_type" (cols data) = Some l).
  { apply lookup_mem. unfold has_columns in Hcols.
    rewrite forallb_forall in Hcols. apply Hcols. simpl. tauto. }
  destruct Hoid as [lid Hlid]. destruct Hoty as [lty Hlty].
  rewrite lookup_fill_frame. cbv zeta.
  rewrite !lookup_loc_set_label.
  rewrite (H1 "offer_id" eq_refl), Hlid.
  rewrite (H1 c Hc).
  cbn [String.eqb Ascii.eqb Bool.eqb]. rewrite (H1 "offer_type" eq_refl), Hlty.
  destruct (String.eqb c "offer_type") eqn:Ety.
  - apply String.eqb_eq in Ety. subst c. rewrite Hlty. reflexivity.
  - destruct (String.eqb c "offer_id") eqn:Eid.
    + apply String.eqb_eq in Eid. subst c. rewrite Hlid. reflexivity.
    + replace (mem c ["offer_id"; "offer_type"]) with false
        by (unfold mem; cbn [existsb]; now rewrite Eid, Ety).
      destruct (lookup c (cols data)); reflexivity.
Qed.

(** A view-block column ends up holding the profit-block column it is
    paired with, as that column was before the call. *)
Lemma lookup_fill_frame_view p data sub viewed :
  map fst sub = PROFIT_COLS ->
  (forall c, In c PROFIT_COLS -> lookup c sub = lookup c (cols data)) ->
  In p PROFIT_COLS ->
  lookup (format2 p VIEWCOL_LABEL) (cols (fill_frame data sub viewed))
  = lookup p (cols data).
Proof.
  intros Hfst Hsub Hp.
  rewrite <- (Hsub p Hp).
  destruct (map_fst_length9 _ Hfst) as (a1&a2&a3&a4&a5&a6&a7&a8&a9&Es).
  rewrite lookup_fill_frame. cbv zeta. rewrite !lookup_loc_set_label.
  rewrite !lookup_setitem_pairs. subst sub.
  unfold PROFIT_COLS, Z_COLS in Hp. simpl in Hp.
  repeat (destruct Hp as [Hp|Hp]; [subst p; reflexivity|]).
  destruct Hp.
Qed.

Lemma mem_lookup {A} c (l : list (string * A)) :
  mem c (map fst l) = match lookup c l with
                      | Some _ => true
                      | None => false
                      end.
Proof.
  destruct (lookup c l) eqn:E.
  - apply lookup_mem. eauto.
  - destruct (mem c (map fst l)) eqn:M; [|reflexivity].
    apply lookup_mem in M. destruct M as [a M]. congruence.
Qed.

Lemma wf_column_length d c l :
  wf_table d = true -> lookup c (cols d) = Some l -> length l = nrows d.
Proof.
  unfold wf_table. intros H. apply andb_prop in H. destruct H as [_ H].
  rewrite forallb_forall in H.
  induction (cols d) as [|[k x] cs IH]; simpl; [discriminate|].
  destruct (String.eqb c k).
  - intros E. inversion E. subst x.
    apply Nat.eqb_eq. apply (H (k, l)). now left.
  - apply IH. intros y Hy. apply H. now right.
Qed.

Lemma has_columns_lookup d cs c :
  has_columns d cs = true -> In c cs -> exists l, lookup c (cols d) = Some l.
Proof.
  unfold has_columns. rewrite forallb_forall. intros H Hc.
  apply lookup_mem. now apply H.
Qed.

Lemma view_col_is_paired c :
  mem c VIEW_COLS = true ->
  exists p, In p PROFIT_COLS /\ c = format2 p VIEWCOL_LABEL.
Proof.
  intros H. apply mem_In in H.
  unfold VIEW_COLS, Z_VIEW_COLS, Z_COLS in H. simpl in H.
  unfold PROFIT_COLS, Z_COLS.
  repeat (destruct H as [H|H];
          [subst c; eexists; split; [|reflexivity]; simpl; tauto|]).
  destruct H.
Qed.

Lemma profit_col_not_view c : In c PROFIT_COLS -> mem c VIEW_COLS = false.
Proof.
  unfold PROFIT_COLS, Z_COLS. simpl.
  intros H. repeat (destruct H as [H|H]; [subst c; reflexivity|]). destruct H.
Qed.

(** After [fill_null_offer], every cell of a row, column by column. *)
Lemma fill_null_offer_cells r h i v :
  r < length h ->
  wf_table (nth r h empty_frame) = true ->
  has_columns (nth r h empty_frame) PROFIT_COLS = true ->
  cell (nth r h empty_frame) "viewed" i = Some v ->
  let data := nth r h empty_frame in
  let filled := nth r (snd (fill_null_offer r h)) empty_frame in
  fst (fill_null_offer r h) = Ok (r, VIEW_COLS, PROFIT_COLS)
  /\ snd (fill_null_offer r h) = update r filled h
  /\ (forall c, mem c VIEW_COLS = false ->
        cell filled c i
        = match cell data c i with
          | Some x =>
              Some (if eq_zero v
                    then if mem c ["offer_id"; "offer_type"] then VStr "no_offer"
                         else if mem c Z_COLS then VInt 0 else x
                    else x)
          | None => None
          end)
  /\ (forall p, In p PROFIT_COLS ->
        cell filled (format2 p VIEWCOL_LABEL) i = cell data p i)
  /\ (forall c, mem c (columns filled) = mem c (columns data) || mem c VIEW_COLS)
  /\ (forall p, In p PROFIT_COLS -> exists x, cell data p i = Some x).
Proof.
  intros Hr Hwf Hcols Hv data filled.
  unfold cell in Hv. fold data in Hv, Hwf, Hcols.
  destruct (lookup "viewed" (cols data)) as [viewed|] eqn:Hviewed; [|discriminate].
  destruct (fill_null_offer_run r h viewed Hr Hcols Hviewed) as [sub [_ [Hfst [Hsub Hrun]]]].
  fold data in Hsub, Hrun.
  assert (Hfilled : filled = fill_frame data sub viewed).
  { unfold filled. rewrite Hrun. simpl. now apply nth_update_same. }
  assert (Hmask : nth_error (eq_zero_mask viewed) i = Some (eq_zero v)).
  { unfold eq_zero_mask. rewrite nth_error_map, Hv. reflexivity. }
  assert (Hlen : forall c l, lookup c (cols data) = Some l ->
                   exists x, nth_error l i = Some x).
  { intros c l Hl. destruct (nth_error l i) eqn:E; [eauto|].
    apply nth_error_None in E.
    assert (i < length viewed) by (apply nth_error_Some; congruence).
    rewrite (wf_column_length _ _ _ Hwf Hl) in E.
    rewrite (wf_column_length _ _ _ Hwf Hviewed) in H. lia. }
  rewrite Hfilled. split; [now rewrite Hrun|]. split; [now rewrite Hrun|].
  split; [|split; [|split]].
  - intros c Hc. unfold cell.
    rewrite (lookup_fill_frame_other _ _ _ viewed Hfst Hcols Hc).
    destruct (lookup c (cols data)) as [l|] eqn:Hl; [|reflexivity].
    destruct (Hlen _ _ Hl) as [x Hx]. rewrite Hx.
    destruct (mem c ["offer_id"; "offer_type"]);
      [|destruct (mem c Z_COLS)];
      rewrite ?nth_error_where_set, ?Hx, ?Hmask; destruct (eq_zero v); reflexivity.
  - intros p Hp. unfold cell.
    now rewrite (lookup_fill_frame_view _ _ _ viewed Hfst Hsub Hp).
  - intros c. unfold columns. rewrite !mem_lookup.
    destruct (mem c VIEW_COLS) eqn:Hc.
    + destruct (view_col_is_paired _ Hc) as [p [Hp Ec]]. subst c.
      rewrite (lookup_fill_frame_view _ _ _ viewed Hfst Hsub Hp).
      destruct (has_columns_lookup _ _ _ Hcols Hp) as [l Hl]. rewrite Hl.
      now rewrite orb_true_r.
    + rewrite (lookup_fill_frame_other _ _ _ viewed Hfst Hcols Hc).
      destruct (lookup c (cols data)); reflexivity.
  - intros p Hp. unfold cell.
    destruct (has_columns_lookup _ _ _ Hcols Hp) as [l Hl]. rewrite Hl.
    eapply Hlen; eassumption.
Qed.

(* ================================================================== *)
(** ** Null-offer filling: the rows that were not viewed, and the others *)

(** C3.  For a row with [viewed == 0], after [fill_null_offer] the
    profit-block [offer_id] and [offer_type] read "no_offer", every column
    of [Z_COLS] reads zero, and each view-block column [c_viewcol] reads
    what the profit-block column [c] held in that row before the call. *)
Theorem fill_null_offer_not_viewed r h i v :
  r < length h ->
  wf_table (nth r h empty_frame) = true ->
  has_columns (nth r h empty_frame) PROFIT_COLS = true ->
  cell (nth r h empty_frame) "viewed" i = Some v ->
  eq_zero v = true ->
  let data := nth r h empty_frame in
  let filled := nth r (snd (fill_null_offer r h)) empty_frame in
  fst (fill_null_offer r h) = Ok (r, VIEW_COLS, PROFIT_COLS)
  /\ cell filled "offer_id" i = Some (VStr "no_offer")
  /\ cell filled "offer_type" i = Some (VStr "no_offer")
  /\ (forall c, In c Z_COLS -> cell filled c i = Some (VInt 0))
  /\ (forall c, In c PROFIT_COLS ->
        exists x, cell data c i = Some x
                  /\ cell filled (format2 c VIEWCOL_LABEL) i = Some x).
Proof.
  intros Hr Hwf Hcols Hv Hz data filled.
  destruct (fill_null_offer_cells r h i v Hr Hwf Hcols Hv)
    as [Hret [_ [Hother [Hview [_ Hsome]]]]].
  fold data in Hother, Hview, Hsome. fold filled in Hother, Hview.
  rewrite Hz in Hother.
  assert (Hin : forall c, In c PROFIT_COLS ->
            exists x, cell data c i = Some x
                      /\ cell filled c i
                         = Some (if mem c ["offer_id"; "offer_type"]
                                 then VStr "no_offer"
                                 else if mem c Z_COLS then VInt 0 else x)).
  { intros c Hc. destruct (Hsome c Hc) as [x Hx]. exists x. split; [exact Hx|].
    rewrite (Hother c (profit_col_not_view c Hc)), Hx. reflexivity. }
  split; [exact Hret|]. split; [|split; [|split]].
  - destruct (Hin "offer_id") as [x [_ H]]; [unfold PROFIT_COLS; simpl; tauto|].
    exact H.
  - destruct (Hin "offer_type") as [x [_ H]]; [unfold PROFIT_COLS; simpl; tauto|].
    exact H.
  - intros c Hc.
    destruct (Hin c) as [x [_ H]]; [unfold PROFIT_COLS; apply in_or_app; now left|].
    rewrite H. unfold Z_COLS in Hc. simpl in Hc.
    repeat (destruct Hc as [Hc|Hc]; [subst c; reflexivity|]). destruct Hc.
  - intros c Hc. destruct (Hsome c Hc) as [x Hx]. exists x. split; [exact Hx|].
    now rewrite (Hview c Hc).
Qed.

(** The first customer of [Fixtures.raw_data] did not view their offer. *)
Lemma fill_null_offer_not_viewed_witness :
  let filled := nth 0 (snd (fill_null_offer 0 [Fixtures.raw_data])) empty_frame in
  fst (fill_null_offer 0 [Fixtures.raw_data]) = Ok (0, VIEW_COLS, PROFIT_COLS)
  /\ cell filled "offer_id" 0 = Some (VStr "no_offer")
  /\ cell filled "offer_type" 0 = Some (VStr "no_offer")
  /\ (forall c, In c Z_COLS -> cell filled c 0 = Some (VInt 0))
  /\ (forall c, In c PROFIT_COLS ->
        exists x, cell Fixtures.raw_data c 0 = Some x
                  /\ cell filled (format2 c VIEWCOL_LABEL) 0 = Some x).
Proof.
  apply (fill_null_offer_not_viewed 0 [Fixtures.raw_data] 0 (VInt 0)).
  - simpl. lia.
  - reflexivity.
  - reflexivity.
  - reflexivity.
  - reflexivity.
Defined.

(** C9.  For a row with [viewed != 0], [fill_null_offer] leaves every
    profit-block cell (indeed every cell outside the view block) as it was;
    the row only gains the view-block columns, each a copy of the
    profit-block column it is paired with. *)
Theorem fill_null_offer_viewed r h i v :
  r < length h ->
  wf_table (nth r h empty_frame) = true ->
  has_columns (nth r h empty_frame) PROFIT_COLS = true ->
  cell (nth r h empty_frame) "viewed" i = Some v ->
  eq_zero v = false ->
  let data := nth r h empty_frame in
  let filled := nth r (snd (fill_null_offer r h)) empty_frame in
  (forall c, In c PROFIT_COLS -> cell filled c i = cell data c i)
  /\ (forall c, mem c VIEW_COLS = false -> cell filled c i = cell data c i)
  /\ (forall c, In c PROFIT_COLS ->
        cell filled (format2 c VIEWCOL_LABEL) i = cell data c i)
  /\ (forall c, mem c (columns filled) = mem c (columns data) || mem c VIEW_COLS).
Proof.
  intros Hr Hwf Hcols Hv Hz data filled.
  destruct (fill_null_offer_cells r h i v Hr Hwf Hcols Hv)
    as [_ [_ [Hother [Hview [Hcolumns _]]]]].
  fold data in Hother, Hview, Hcolumns. fold filled in Hother, Hview, Hcolumns.
  rewrite Hz in Hother.
  assert (Hsame : forall c, mem c VIEW_COLS = false ->
                    cell filled c i = cell data c i).
  { intros c Hc. rewrite (Hother c Hc). now destruct (cell data c i). }
  split; [|split; [|split]].
  - intros c Hc. apply Hsame. now apply profit_col_not_view.
  - exact Hsame.
  - exact Hview.
  - exact Hcolumns.
Qed.

(** The second customer of [Fixtures.raw_data] viewed their offer. *)
Lemma fill_null_offer_viewed_witness :
  let filled := nth 0 (snd (fill_null_offer 0 [Fixtures.raw_data])) empty_frame in
  (forall c, In c PROFIT_COLS -> cell filled c 1 = cell Fixtures.raw_data c 1)
  /\ (forall c, mem c VIEW_COLS = false ->
        cell filled c 1 = cell Fixtures.raw_data c 1)
  /\ (forall c, In c PROFIT_COLS ->
        cell filled (format2 c VIEWCOL_LABEL) 1 = cell Fixtures.raw_data c 1)
  /\ (forall c, mem c (columns filled)
                = mem c (columns Fixtures.raw_data) || mem c VIEW_COLS).
Proof.
  apply (fill_null_offer_viewed 0 [Fixtures.raw_data] 1 (VInt 1)).
  - simpl. lia.
  - reflexivity.
  - reflexivity.
  - reflexivity.
  - reflexivity.
Defined.

(* ================================================================== *)
(** ** The feature splitter and the composite estimator *)

(** The three tables [split_view_profit] allocates, and the two it returns. *)
Lemma split_view_profit_run X vc pc h dv xp :
  X < length h ->
  drop (nth X h empty_frame) pc = Ok dv ->
  drop (nth X h empty_frame) vc = Ok xp ->
  split_view_profit X vc pc h
  = (Ok (S (length h), S (S (length h))),
     h ++ [dv; rename_columns dv (combine vc pc); xp]).
Proof.
  intros HX Hdv Hxp. unfold split_view_profit, bind, get, lift, new, ret.
  rewrite Hdv. rewrite nth_new.
  rewrite !app_nth1 by (rewrite ?length_app; simpl; lia).
  rewrite Hxp. rewrite !length_app. simpl length.
  rewrite <- !app_assoc. simpl app.
  repeat f_equal; lia.
Qed.

Lemma split_view_profit_raise_profit X vc pc h e :
  drop (nth X h empty_frame) pc = Raise e ->
  split_view_profit X vc pc h = (Raise e, h).
Proof.
  intros Hdv. unfold split_view_profit, bind, get, lift. now rewrite Hdv.
Qed.

Lemma split_view_profit_raise_view X vc pc h dv e :
  X < length h ->
  drop (nth X h empty_frame) pc = Ok dv ->
  drop (nth X h empty_frame) vc = Raise e ->
  split_view_profit X vc pc h
  = (Raise e, h ++ [dv; rename_columns dv (combine vc pc)]).
Proof.
  intros HX Hdv Hxp. unfold split_view_profit, bind, get, lift, new, ret.
  rewrite Hdv. rewrite nth_new.
  rewrite !app_nth1 by (rewrite ?length_app; simpl; lia).
  rewrite Hxp. rewrite <- !app_assoc. reflexivity.
Qed.

Lemma agree_columns (labels : list string) (l1 l2 : list (string * list value)) :
  Forall2 (fun a b => fst a = fst b
                      /\ (mem (fst a) labels = false -> snd a = snd b)) l1 l2 ->
  map fst l1 = map fst l2.
Proof.
  intros H. induction H as [|a b l1 l2 [Hab _] _ IH]; simpl; [reflexivity|].
  now rewrite Hab, IH.
Qed.

Lemma agree_filter (labels dropped : list string)
  (l1 l2 : list (string * list value)) :
  Forall2 (fun a b => fst a = fst b
                      /\ (mem (fst a) labels = false -> snd a = snd b)) l1 l2 ->
  (forall c, mem c labels = true -> mem c dropped = true) ->
  filter (fun c => negb (mem (fst c) dropped)) l1
  = filter (fun c => negb (mem (fst c) dropped)) l2.
Proof.
  intros H Hsub.
  induction H as [|[ka va] [kb vb] l1 l2 [Hab Hv] _ IH]; simpl; [reflexivity|].
  simpl in Hab, Hv. subst kb.
  destruct (mem ka dropped) eqn:E; simpl; [exact IH|].
  rewrite IH. do 2 f_equal. apply Hv.
  destruct (mem ka labels) eqn:E'; [|reflexivity].
  apply Hsub in E'. congruence.
Qed.

(** Dropping (at least) the columns two tables may differ on yields the same
    table, or the same exception. *)
Lemma drop_agree labels dropped x1 x2 :
  agree_outside labels x1 x2 ->
  (forall c, mem c labels = true -> mem c dropped = true) ->
  drop x1 dropped = drop x2 dropped.
Proof.
  intros [Hn Hc] Hsub. unfold drop, columns.
  rewrite (agree_columns _ _ _ Hc), Hn, (agree_filter _ _ _ _ Hc Hsub).
  reflexivity.
Qed.

(** Dropping any labels succeeds on both tables or raises on both. *)
Lemma drop_columns_agree labels dropped x1 x2 :
  agree_outside labels x1 x2 ->
  match drop x1 dropped, drop x2 dropped with
  | Ok _, Ok _ => True
  | Raise e1, Raise e2 => e1 = e2
  | _, _ => False
  end.
Proof.
  intros [Hn Hc]. unfold drop, columns.
  rewrite (agree_columns _ _ _ Hc). now destruct (forallb _ dropped).
Qed.

Lemma update_second h (a b c b' : DataFrame) :
  update (S (length h)) b' (h ++ [a; b; c]) = h ++ [a; b'; c].
Proof.
  induction h as [|x h IH]; [reflexivity|].
  change (x :: update (S (length h)) b' (h ++ [a; b; c]) = x :: (h ++ [a; b'; c])).
  now rewrite IH.
Qed.

Lemma update_third h (a b c c' : DataFrame) :
  update (S (S (length h))) c' (h ++ [a; b; c]) = h ++ [a; b; c'].
Proof.
  induction h as [|x h IH]; [reflexivity|].
  change (x :: update (S (S (length h))) c' (h ++ [a; b; c])
          = x :: (h ++ [a; b; c'])).
  now rewrite IH.
Qed.

Section EstimatorProofs.

Variable score : Type.
Variable smul : score -> score -> score.
Variable sleb : score -> score -> bool.
Variable sisnan : score -> bool.
Variable snan : score.
Variable sneginf : score.

Lemma np_mul_same_length (a b : list score) :
  length a = length b ->
  np_mul smul a b = Ok (map (fun p => smul (fst p) (snd p)) (combine a b)).
Proof.
  intros H. unfold np_mul. now rewrite H, Nat.eqb_refl.
Qed.

(** [predict] when the split succeeds and both pipelines return: the two
    arrays are multiplied, and the pipelines leave their own tables behind. *)
Lemma predict_run (self : ProfitsPredictor score) X h dv xp
  proba xv' profits xp' :
  X < length h ->
  drop (nth X h empty_frame) (profit_cols self) = Ok dv ->
  drop (nth X h empty_frame) (view_cols self) = Ok xp ->
  views_model_predict_proba self
    (rename_columns dv (combine (view_cols self) (profit_cols self)))
  = (Ok proba, xv') ->
  profits_model_predict self xp = (Ok profits, xp') ->
  predict smul self X h
  = (np_mul smul (map snd proba) profits, h ++ [dv; xv'; xp']).
Proof.
  intros HX Hdv Hxp Hviews Hprofits.
  unfold predict, bind.
  rewrite (split_view_profit_run X _ _ h dv xp HX Hdv Hxp).
  unfold call.
  replace (nth (S (length h)) (h ++ [dv; _; xp]) empty_frame)
    with (rename_columns dv (combine (view_cols self) (profit_cols self)))
    by (rewrite app_nth2 by lia;
        replace (S (length h) - length h) with 1 by lia; reflexivity).
  rewrite Hviews.
  rewrite nth_update_other by lia.
  replace (nth (S (S (length h))) (h ++ [dv; _; xp]) empty_frame) with xp
    by (rewrite app_nth2 by lia;
        replace (S (S (length h)) - length h) with 2 by lia; reflexivity).
  rewrite Hprofits. unfold lift. f_equal.
  now rewrite update_second, update_third.
Qed.

(** C1.  On a table holding both column blocks, [predict] returns, row by
    row, the view classifier's probability of [viewed = 1] (column 1 of
    [predict_proba], computed on the view-side table of the split) times the
    profit regressor's prediction (computed on the profit-side table). *)
Theorem predict_is_product (self : ProfitsPredictor score) X h dv xp
  proba xv' profits xp' :
  X < length h ->
  drop (nth X h empty_frame) (profit_cols self) = Ok dv ->
  drop (nth X h empty_frame) (view_cols self) = Ok xp ->
  views_model_predict_proba self
    (rename_columns dv (combine (view_cols self) (profit_cols self)))
  = (Ok proba, xv') ->
  profits_model_predict self xp = (Ok profits, xp') ->
  length proba = nrows (nth X h empty_frame) ->
  length profits = nrows (nth X h empty_frame) ->
  exists y,
    fst (predict smul self X h) = Ok y
    /\ length y = nrows (nth X h empty_frame)
    /\ forall i, i < nrows (nth X h empty_frame) ->
         exists p0 p1 q,
           nth_error proba i = Some (p0, p1)
           /\ nth_error profits i = Some q
           /\ nth_error y i = Some (smul p1 q).
Proof.
  intros HX Hdv Hxp Hviews Hprofits Hlen1 Hlen2.
  exists (map (fun p => smul (fst p) (snd p)) (combine (map snd proba) profits)).
  split; [|split].
  - rewrite (predict_run self X h dv xp proba xv' profits xp'
               HX Hdv Hxp Hviews Hprofits).
    simpl fst. apply np_mul_same_length. rewrite length_map. congruence.
  - rewrite length_map, length_combine, length_map. lia.
  - intros i Hi.
    destruct (nth_error proba i) as [[p0 p1]|] eqn:E1;
      [|apply nth_error_None in E1; lia].
    destruct (nth_error profits i) as [q|] eqn:E2;
      [|apply nth_error_None in E2; lia].
    exists p0, p1, q. repeat split.
    rewrite nth_error_map.
    assert (Hc : nth_error (combine (map snd proba) profits) i = Some (p1, q)).
    { clear - E1 E2. revert proba profits E1 E2.
      induction i as [|i IH]; intros [|a proba] [|b profits] E1 E2;
        simpl in *; try discriminate.
      - inversion E1. inversion E2. subst. reflexivity.
      - now apply IH. }
    now rewrite Hc.
Qed.

(** C4.  On two tables that agree everywhere outside the view block,
    [predict_profit_alone] returns the same result (the same array, or the
    same exception); and the result does not depend on the view classifier,
    which the function never calls. *)
Theorem predict_profit_alone_ignores_view_block (self : ProfitsPredictor score)
  X1 h1 X2 h2 :
  X1 < length h1 ->
  X2 < length h2 ->
  agree_outside (view_cols self) (nth X1 h1 empty_frame) (nth X2 h2 empty_frame) ->
  fst (predict_profit_alone self X1 h1) = fst (predict_profit_alone self X2 h2)
  /\ forall vm,
       predict_profit_alone
         (mkPredictor (view_cols self) (profit_cols self) vm
            (profits_model_predict self)) X1 h1
       = predict_profit_alone self X1 h1.
Proof.
  intros H1 H2 Hagree. split; [|reflexivity].
  pose proof (drop_columns_agree _ (profit_cols self) _ _ Hagree) as Hp.
  pose proof (drop_agree _ (view_cols self) _ _ Hagree (fun c H => H)) as Hv.
  unfold predict_profit_alone, bind.
  destruct (drop (nth X1 h1 empty_frame) (profit_cols self)) as [dv1|e1] eqn:E1;
    destruct (drop (nth X2 h2 empty_frame) (profit_cols self)) as [dv2|e2] eqn:E2;
    try contradiction.
  - destruct (drop (nth X1 h1 empty_frame) (view_cols self)) as [xp|e] eqn:E3.
    + rewrite (split_view_profit_run X1 _ _ h1 dv1 xp H1 E1 E3).
      rewrite (split_view_profit_run X2 _ _ h2 dv2 xp H2 E2 (eq_sym Hv)).
      unfold call.
      rewrite !app_nth2 by lia.
      replace (S (S (length h1)) - length h1) with 2 by lia.
      replace (S (S (length h2)) - length h2) with 2 by lia.
      simpl nth. now destruct (profits_model_predict self xp).
    + rewrite (split_view_profit_raise_view X1 _ _ h1 dv1 e H1 E1 E3).
      rewrite (split_view_profit_raise_view X2 _ _ h2 dv2 e H2 E2 (eq_sym Hv)).
      reflexivity.
  - subst e2.
    rewrite (split_view_profit_raise_profit X1 _ _ h1 e1 E1).
    rewrite (split_view_profit_raise_profit X2 _ _ h2 e1 E2).
    reflexivity.
Qed.

End EstimatorProofs.

(** [Fixtures.model] on the filled fixture table. *)
Lemma predict_is_product_witness :
  exists y,
    fst (predict XScore.mul Fixtures.model 0 [Fixtures.X]) = Ok y
    /\ length y = 2
    /\ forall i, i < 2 ->
         exists p0 p1 q,
           nth_error [(XScore.Fin 0, XScore.Fin 10); (XScore.Fin 0, XScore.Fin 5)] i
           = Some (p0, p1)
           /\ nth_error [XScore.Fin 30; XScore.Fin 45] i = Some q
           /\ nth_error y i = Some (XScore.mul p1 q).
Proof.
  eapply (predict_is_product XScore.t XScore.mul Fixtures.model 0 [Fixtures.X]).
  - simpl. lia.
  - reflexivity.
  - reflexivity.
  - reflexivity.
  - reflexivity.
  - reflexivity.
  - reflexivity.
Defined.

(** The fixture table against a copy whose view block is overwritten. *)
Lemma predict_profit_alone_ignores_view_block_witness :
  fst (predict_profit_alone Fixtures.model 0 [Fixtures.X])
  = fst (predict_profit_alone Fixtures.model 1 [Fixtures.X; Fixtures.X_other_views])
  /\ forall vm,
       predict_profit_alone
         (mkPredictor VIEW_COLS PROFIT_COLS vm Fixtures.profits) 0 [Fixtures.X]
       = predict_profit_alone Fixtures.model 0 [Fixtures.X].
Proof.
  apply (predict_profit_alone_ignores_view_block XScore.t Fixtures.model
           0 [Fixtures.X] 1 [Fixtures.X; Fixtures.X_other_views]).
  - simpl. lia.
  - simpl. lia.
  - split; [reflexivity|].
    repeat (constructor; [split; [reflexivity | intros H; try discriminate H; reflexivity]|]).
    constructor.
Defined.

(* ================================================================== *)
(** ** Which objects the functions write to *)

Section FrameProofs.

Variable score : Type.
Variable smul : score -> score -> score.
Variable sleb : score -> score -> bool.
Variable sisnan : score -> bool.
Variable snan : score.
Variable sneginf : score.

Lemma frame_call {A} n (f : DataFrame -> res A * DataFrame) r :
  n <= r -> frame n (call f r) (fun _ => True).
Proof.
  intros Hr h Hn. unfold call.
  destruct (f (nth r h empty_frame)) as [out d]. simpl. repeat split.
  - rewrite update_length. lia.
  - intros r' Hr'. apply nth_update_other. lia.
Qed.

Lemma frame_predict n (self : ProfitsPredictor score) X :
  frame n (predict smul self X) (fun _ => True).
Proof.
  unfold predict.
  eapply frame_bind; [apply frame_split|]. intros [xv xp] [Hv Hp]. simpl in Hv, Hp.
  eapply frame_bind; [apply frame_call; exact Hv|]. intros proba _.
  eapply frame_bind; [apply frame_call; exact Hp|]. intros profits _.
  apply frame_lift.
Qed.

Lemma frame_predict_profit_alone n (self : ProfitsPredictor score) X :
  frame n (predict_profit_alone self X) (fun _ => True).
Proof.
  unfold predict_profit_alone.
  eapply frame_bind; [apply frame_split|]. intros [xv xp] [Hv Hp]. simpl in Hv, Hp.
  apply frame_call. exact Hp.
Qed.

Lemma frame_predict_profit_with_offer n (model : ProfitsPredictor score)
  data offer drop_offer_id :
  frame n (predict_profit_with_offer smul model data offer drop_offer_id)
    (fun _ => True).
Proof.
  unfold predict_profit_with_offer.
  eapply frame_bind; [apply frame_get|]. intros d _.
  eapply frame_bind; [apply frame_new|]. intros samples Hs.
  eapply frame_bind; [apply frame_lift|]. intros std_offer _.
  eapply frame_bind; [apply frame_get|]. intros s _.
  eapply frame_bind; [apply frame_lift|]. intros s1 _.
  eapply frame_bind; [apply frame_put; exact Hs|]. intros _ _.
  eapply frame_bind; [apply frame_get|]. intros s' _.
  eapply frame_bind; [apply frame_lift|]. intros s2 _.
  eapply frame_bind; [apply frame_put; exact Hs|]. intros _ _.
  eapply frame_bind; [apply frame_lift|]. intros offer_type _.
  eapply frame_bind.
  { destruct (eq_str offer_type "no_offer");
      [apply frame_predict_profit_alone | apply frame_predict]. }
  intros y_pred _.
  eapply frame_bind; [apply frame_lift|]. intros id _.
  now apply frame_ret.
Qed.

Lemma frame_choose_offer n (model : ProfitsPredictor score) X portfolio add_null :
  frame n (choose_offer smul sleb sisnan snan sneginf model X portfolio add_null)
    (fun _ => True).
Proof.
  unfold choose_offer.
  eapply frame_bind; [apply frame_get|]. intros p _.
  eapply frame_bind; [apply frame_new|]. intros cp0 Hcp0.
  eapply frame_bind with (Q := fun _ => True).
  { destruct add_null.
    - eapply frame_bind; [apply frame_get|]. intros cp _.
      eapply frame_bind; [apply frame_lift|]. intros null_offer _.
      eapply frame_weaken; [apply frame_new | auto].
    - now apply frame_ret. }
  intros cp1 _.
  eapply frame_bind; [apply frame_get|]. intros cp _.
  eapply frame_bind.
  { apply frame_mapM. intros x. apply frame_predict_profit_with_offer. }
  intros results _.
  eapply frame_bind; [apply frame_get|]. intros cp' _.
  eapply frame_bind; [apply frame_lift|]. intros ids _.
  eapply frame_bind; [apply frame_lift|]. intros res _.
  now apply frame_ret.
Qed.

(** C10.  [choose_offer] and [predict_profit_with_offer] leave every object
    that existed before the call as it was, the customer table and the
    portfolio among them, whether they return or raise: the substitution of
    the offer is written to a copy.  [fill_null_offer], by contrast, writes
    to the very table it is given: it allocates nothing, returns the
    reference it received, and the table at that reference now carries the
    view block. *)
Theorem inputs_not_mutated (model : ProfitsPredictor score)
  X portfolio add_null offer drop_offer_id h data h' :
  X < length h ->
  portfolio < length h ->
  data < length h' ->
  wf_table (nth data h' empty_frame) = true ->
  has_columns (nth data h' empty_frame) PROFIT_COLS = true ->
  has_columns (nth data h' empty_frame) ["viewed"] = true ->
  (forall r, r < length h ->
     nth r (snd (choose_offer smul sleb sisnan snan sneginf
                   model X portfolio add_null h)) empty_frame
     = nth r h empty_frame)
  /\ (forall r, r < length h ->
        nth r (snd (predict_profit_with_offer smul model X offer drop_offer_id h))
          empty_frame
        = nth r h empty_frame)
  /\ fst (fill_null_offer data h') = Ok (data, VIEW_COLS, PROFIT_COLS)
  /\ length (snd (fill_null_offer data h')) = length h'
  /\ has_columns (nth data (snd (fill_null_offer data h')) empty_frame) VIEW_COLS
     = true
  /\ (has_columns (nth data h' empty_frame) VIEW_COLS = false ->
      nth data (snd (fill_null_offer data h')) empty_frame
      <> nth data h' empty_frame).
Proof.
  intros HX Hp Hdata Hwf Hcols Hviewed.
  split; [|split].
  - intros r Hr.
    destruct (frame_choose_offer (length h) model X portfolio add_null h (le_n _))
      as [_ [H _]].
    now apply H.
  - intros r Hr.
    destruct (frame_predict_profit_with_offer (length h) model X offer
                drop_offer_id h (le_n _)) as [_ [H _]].
    now apply H.
  - destruct (has_columns_lookup _ _ "viewed" Hviewed) as [viewed Hv];
      [now left|].
    destruct (fill_null_offer_run data h' viewed Hdata Hcols Hv)
      as [sub [_ [Hfst [Hsub Hrun]]]].
    rewrite Hrun. simpl fst. simpl snd.
    rewrite update_length, nth_update_same by assumption.
    assert (Hhas : has_columns (fill_frame (nth data h' empty_frame) sub viewed)
                     VIEW_COLS = true).
    { unfold has_columns. apply forallb_forall. intros c Hc.
      apply mem_In in Hc. destruct (view_col_is_paired c Hc) as [p [Hp' Ec]].
      subst c. unfold columns. rewrite mem_lookup.
      rewrite (lookup_fill_frame_view p _ sub viewed Hfst Hsub Hp').
      destruct (has_columns_lookup _ _ p Hcols Hp') as [l Hl]. now rewrite Hl. }
    repeat split; try assumption.
    intros Hno Heq. rewrite Heq in Hhas. congruence.
Qed.

End FrameProofs.

(** The fixture tables as customer table, portfolio and dataset. *)
Lemma inputs_not_mutated_witness :
  (forall r, r < 2 ->
     nth r (snd (Fixtures.choose Fixtures.model Fixtures.X Fixtures.portfolio1))
       empty_frame
     = nth r [Fixtures.X; Fixtures.portfolio1] empty_frame)
  /\ (forall r, r < 2 ->
        nth r (snd (predict_profit_with_offer XScore.mul Fixtures.model 0
                      (row Fixtures.portfolio1 0) false
                      [Fixtures.X; Fixtures.portfolio1])) empty_frame
        = nth r [Fixtures.X; Fixtures.portfolio1] empty_frame)
  /\ fst (fill_null_offer 0 [Fixtures.raw_data]) = Ok (0, VIEW_COLS, PROFIT_COLS)
  /\ length (snd (fill_null_offer 0 [Fixtures.raw_data])) = 1
  /\ has_columns (nth 0 (snd (fill_null_offer 0 [Fixtures.raw_data])) empty_frame)
       VIEW_COLS = true
  /\ (has_columns Fixtures.raw_data VIEW_COLS = false ->
      nth 0 (snd (fill_null_offer 0 [Fixtures.raw_data])) empty_frame
      <> Fixtures.raw_data).
Proof.
  apply (inputs_not_mutated XScore.t XScore.mul XScore.leb XScore.isnan
           XScore.NaN XScore.NInf Fixtures.model 0 1 true
           (row Fixtures.portfolio1 0) false
           [Fixtures.X; Fixtures.portfolio1] 0 [Fixtures.raw_data]).
  - simpl. lia.
  - simpl. lia.
  - simpl. lia.
  - reflexivity.
  - reflexivity.
  - reflexivity.
Defined.

(* ================================================================== *)
(** ** The columns of the view-side table *)

Lemma columns_drop x labels d :
  drop x labels = Ok d ->
  columns d = filter (fun k => negb (mem k labels)) (columns x).
Proof.
  unfold drop. destruct (forallb _ labels); [|discriminate].
  intros E. injection E as <-. unfold columns. simpl.
  induction (cols x) as [|[k l] cs IH]; simpl; [reflexivity|].
  destruct (negb (mem k labels)); simpl; now rewrite IH.
Qed.

Lemma drop_ok x labels :
  has_columns x labels = true -> exists d, drop x labels = Ok d.
Proof.
  unfold has_columns, drop. intros H. rewrite H. eauto.
Qed.

Lemma columns_rename d m :
  columns (rename_columns d m)
  = map (fun k => match dict_get k m with
                  | Some p => p
                  | None => k
                  end) (columns d).
Proof.
  unfold columns, rename_columns. simpl. rewrite !map_map. reflexivity.
Qed.

Lemma lookup_In {A} c (a : A) l : lookup c l = Some a -> In (c, a) l.
Proof.
  induction l as [|[k b] l IH]; simpl; [discriminate|].
  destruct (String.eqb c k) eqn:E.
  - apply String.eqb_eq in E. intros H. inversion H. subst. now left.
  - intros H. right. now apply IH.
Qed.

Lemma lookup_nodup {A} c (a : A) l :
  NoDup (map fst l) -> In (c, a) l -> lookup c l = Some a.
Proof.
  induction l as [|[k b] l IH]; simpl; [contradiction|].
  intros Hnd [E|Hin].
  - inversion E. subst. now rewrite String.eqb_refl.
  - inversion Hnd as [|? ? Hk Hnd']. subst.
    destruct (String.eqb c k) eqn:E.
    + apply String.eqb_eq in E. subst k. exfalso. apply Hk.
      apply (in_map fst) in Hin. exact Hin.
    + now apply IH.
Qed.

Lemma map_fst_combine {A B} (l : list A) (l' : list B) :
  length l = length l' -> map fst (combine l l') = l.
Proof.
  revert l'. induction l as [|a l IH]; intros [|b l'] H; simpl in *;
    try reflexivity; try discriminate.
  f_equal. apply IH. lia.
Qed.

Lemma dict_get_In k p (vc pc : list string) :
  dict_get k (combine vc pc) = Some p -> In k vc /\ In p pc.
Proof.
  unfold dict_get. intros H. apply lookup_In in H. apply in_rev in H.
  split; [eapply in_combine_l | eapply in_combine_r]; eassumption.
Qed.

Lemma dict_get_key k (vc pc : list string) :
  length vc = length pc -> In k vc -> exists p, dict_get k (combine vc pc) = Some p.
Proof.
  intros Hlen Hk. unfold dict_get. apply lookup_mem.
  rewrite map_rev. apply mem_In. apply in_rev. rewrite rev_involutive.
  rewrite map_fst_combine by assumption. exact Hk.
Qed.

Lemma dict_get_value p (vc pc : list string) :
  NoDup vc -> length vc = length pc -> In p pc ->
  exists k, In k vc /\ dict_get k (combine vc pc) = Some p.
Proof.
  intros Hnd Hlen Hp.
  assert (Hex : exists k, In (k, p) (combine vc pc)).
  { clear Hnd. revert pc Hlen Hp.
    induction vc as [|v vc IH]; intros [|q pc] Hlen Hp; simpl in *;
      try contradiction; try discriminate.
    destruct Hp as [E|Hp].
    - subst q. exists v. now left.
    - destruct (IH pc) as [k Hk]; [lia | assumption |]. exists k. now right. }
  destruct Hex as [k Hk]. exists k. split; [eapply in_combine_l; eassumption|].
  unfold dict_get. apply lookup_nodup.
  - rewrite map_rev. apply NoDup_rev. rewrite map_fst_combine by assumption. exact Hnd.
  - apply in_rev. now rewrite rev_involutive.
Qed.

(** C7, as the code has it.  The view-side table keeps the customer's own
    columns next to the renamed offer columns: its column set is that of the
    input minus the view block, which is also the column set of the
    profit-side table.  It holds every profit-block name and no view-block
    name. *)
Theorem split_view_side_columns X vc pc h :
  X < length h ->
  NoDup vc ->
  length vc = length pc ->
  (forall c, In c vc -> ~ In c pc) ->
  has_columns (nth X h empty_frame) vc = true ->
  has_columns (nth X h empty_frame) pc = true ->
  let x := nth X h empty_frame in
  let x_view := nth (S (length h)) (snd (split_view_profit X vc pc h)) empty_frame in
  let x_profit :=
    nth (S (S (length h))) (snd (split_view_profit X vc pc h)) empty_frame in
  fst (split_view_profit X vc pc h) = Ok (S (length h), S (S (length h)))
  /\ (forall c, In c (columns x_view) <-> In c (columns x) /\ ~ In c vc)
  /\ (forall c, In c (columns x_view) <-> In c (columns x_profit))
  /\ (forall c, In c pc -> In c (columns x_view))
  /\ (forall c, In c vc -> ~ In c (columns x_view)).
Proof.
  intros HX Hnd Hlen Hdisj Hvc Hpc x x_view x_profit.
  destruct (drop_ok _ _ Hpc) as [dv Hdv]. destruct (drop_ok _ _ Hvc) as [xp Hxp].
  fold x in Hdv, Hxp, Hvc, Hpc.
  assert (Hrun := split_view_profit_run X vc pc h dv xp HX Hdv Hxp).
  assert (Ev : x_view = rename_columns dv (combine vc pc)).
  { unfold x_view. rewrite Hrun. simpl snd. rewrite app_nth2 by lia.
    replace (S (length h) - length h) with 1 by lia. reflexivity. }
  assert (Ep : x_profit = xp).
  { unfold x_profit. rewrite Hrun. simpl snd. rewrite app_nth2 by lia.
    replace (S (S (length h)) - length h) with 2 by lia. reflexivity. }
  assert (Hin : forall l c, has_columns x l = true -> In c l -> In c (columns x)).
  { intros l c Hl Hc. unfold has_columns in Hl. rewrite forallb_forall in Hl.
    apply mem_In. now apply Hl. }
  assert (Hview : forall c, In c (columns x_view) <-> In c (columns x) /\ ~ In c vc).
  { intros c. rewrite Ev, columns_rename, (columns_drop _ _ _ Hdv).
    rewrite in_map_iff. split.
    - intros [k [Hk Hf]]. apply filter_In in Hf. destruct Hf as [Hkx Hkp].
      apply negb_true_iff, mem_false_In in Hkp.
      destruct (dict_get k (combine vc pc)) as [p|] eqn:E.
      + subst p. apply dict_get_In in E. destruct E as [Hkv Hcp]. split.
        * apply (Hin pc); assumption.
        * intros Hcv. exact (Hdisj c Hcv Hcp).
      + subst k. split; [assumption|]. intros Hcv.
        destruct (dict_get_key c vc pc Hlen Hcv) as [p Hp]. congruence.
    - intros [Hcx Hcv].
      destruct (mem c pc) eqn:Hcp.
      + apply mem_In in Hcp.
        destruct (dict_get_value c vc pc Hnd Hlen Hcp) as [k [Hk Hg]].
        exists k. rewrite Hg. split; [reflexivity|]. apply filter_In. split.
        * apply (Hin vc); assumption.
        * apply negb_true_iff, mem_false_In. now apply Hdisj.
      + exists c. split.
        * destruct (dict_get c (combine vc pc)) as [p|] eqn:E; [|reflexivity].
          apply dict_get_In in E. tauto.
        * apply filter_In. split; [assumption|]. now rewrite Hcp. }
  assert (Hprofit : forall c, In c (columns x_profit) <-> In c (columns x) /\ ~ In c vc).
  { intros c. rewrite Ep, (columns_drop _ _ _ Hxp), filter_In.
    rewrite negb_true_iff, mem_false_In. reflexivity. }
  split; [now rewrite Hrun|]. split; [exact Hview|]. split; [|split].
  - intros c. rewrite Hview, Hprofit. reflexivity.
  - intros c Hc. apply Hview. split; [apply (Hin pc); assumption|].
    intros Hcv. exact (Hdisj c Hcv Hc).
  - intros c Hc H. apply Hview in H. tauto.
Qed.

Lemma NoDup_VIEW_COLS : NoDup VIEW_COLS.
Proof.
  unfold VIEW_COLS, Z_VIEW_COLS, Z_COLS. simpl.
  repeat (constructor; [simpl; intros H;
                        repeat (destruct H as [H|H]; [discriminate H|]);
                        exact H|]).
  constructor.
Qed.

Lemma VIEW_PROFIT_disjoint c : In c VIEW_COLS -> ~ In c PROFIT_COLS.
Proof.
  intros Hv Hp. apply profit_col_not_view in Hp. apply mem_In in Hv. congruence.
Qed.

(** The split of the fixture table, with the module's two blocks. *)
Lemma split_view_side_columns_witness :
  let x_view :=
    nth 2 (snd (split_view_profit 0 VIEW_COLS PROFIT_COLS [Fixtures.X])) empty_frame in
  let x_profit :=
    nth 3 (snd (split_view_profit 0 VIEW_COLS PROFIT_COLS [Fixtures.X])) empty_frame in
  fst (split_view_profit 0 VIEW_COLS PROFIT_COLS [Fixtures.X]) = Ok (2, 3)
  /\ (forall c, In c (columns x_view) <-> In c (columns Fixtures.X) /\ ~ In c VIEW_COLS)
  /\ (forall c, In c (columns x_view) <-> In c (columns x_profit))
  /\ (forall c, In c PROFIT_COLS -> In c (columns x_view))
  /\ (forall c, In c VIEW_COLS -> ~ In c (columns x_view)).
Proof.
  apply (split_view_side_columns 0 VIEW_COLS PROFIT_COLS [Fixtures.X]).
  - simpl. lia.
  - exact NoDup_VIEW_COLS.
  - reflexivity.
  - exact VIEW_PROFIT_disjoint.
  - reflexivity.
  - reflexivity.
Defined.

(** C7, as the claim words it, fails: the fixture table holds both blocks
    and the customer's [age]; the view-side table of its split still has the
    [age] column, which is no profit-block name. *)
Lemma split_view_side_keeps_customer_columns :
  has_columns Fixtures.X (VIEW_COLS ++ PROFIT_COLS) = true
  /\ ~ (forall c,
          In c (columns (nth 2 (snd (split_view_profit 0 VIEW_COLS PROFIT_COLS
                                       [Fixtures.X])) empty_frame))
          <-> In c PROFIT_COLS).
Proof.
  split; [reflexivity|].
  intros H. destruct (H "age") as [Hage _].
  assert (Hin : In "age" PROFIT_COLS).
  { apply Hage. vm_compute. left. reflexivity. }
  apply mem_In in Hin. vm_compute in Hin. discriminate Hin.
Qed.

(* ================================================================== *)
(** ** Substituting an offer into the customer table *)

Lemma In_insert_sorted c k l : In c (insert_sorted k l) <-> c = k \/ In c l.
Proof.
  induction l as [|x l IH]; simpl.
  - intuition.
  - destruct (String.leb k x); simpl; [intuition|]. rewrite IH. intuition.
Qed.

Lemma In_sorted c l : In c (sorted l) <-> In c l.
Proof.
  induction l as [|x l IH]; simpl; [reflexivity|].
  rewrite In_insert_sorted, IH. intuition.
Qed.



Lemma index_insert_item kv s :
  index (insert_item kv s) = insert_sorted (fst kv) (index s).
Proof.
  induction s as [|y s IH]; simpl; [reflexivity|].
  destruct (String.leb (fst kv) (fst y)); simpl; [reflexivity|].
  f_equal. exact IH.
Qed.

Lemma index_sort_index s : index (sort_index s) = sorted (index s).
Proof.
  induction s as [|y s IH]; simpl; [reflexivity|].
  rewrite index_insert_item. f_equal. exact IH.
Qed.

Lemma index_rename_index s d :
  index (rename_index s d)
  = map (fun k => match dict_get k d with
                  | Some p => p
                  | None => k
                  end) (index s).
Proof.
  unfold index, rename_index. rewrite !map_map. reflexivity.
Qed.

Lemma combine_index_values (s : Series) : combine (index s) (values s) = s.
Proof.
  induction s as [|[k v] s IH]; simpl; [reflexivity|]. f_equal. exact IH.
Qed.


Lemma loc_set_block_nrows lv df : nrows (loc_set_block df lv) = nrows df.
Proof.
  revert df. induction lv as [|[c v] lv IH]; intros df; simpl; [reflexivity|].
  now rewrite IH.
Qed.


Lemma set_col_columns c l cs :
  mem c (map fst cs) = true -> map fst (set_col c l cs) = map fst cs.
Proof.
  induction cs as [|[k old] cs IH]; simpl; [discriminate|].
  destruct (String.eqb c k) eqn:E; simpl; [reflexivity|].
  intros H. f_equal. now apply IH.
Qed.

Lemma loc_set_block_columns lv df :
  (forall c, In c (map fst lv) -> mem c (columns df) = true) ->
  columns (loc_set_block df lv) = columns df.
Proof.
  revert df. induction lv as [|[k v] lv IH]; intros df H; simpl; [reflexivity|].
  assert (E : columns (setitem df k (broadcast (nrows df) v)) = columns df).
  { unfold columns, setitem. simpl. apply set_col_columns. apply H. now left. }
  rewrite IH; [exact E|]. intros c Hc. rewrite E. apply H. now right.
Qed.

Lemma sorted_VIEW_COLS :
  sorted VIEW_COLS = map (fun c => (c ++ "_viewcol")%string) (sorted PROFIT_COLS).
Proof. reflexivity. Qed.



Lemma has_columns_sorted d l :
  has_columns d l = true -> has_columns d (sorted l) = true.
Proof.
  unfold has_columns. rewrite !forallb_forall. intros H c Hc.
  apply H. now apply In_sorted.
Qed.

Lemma values_rename_index s d : values (rename_index s d) = values s.
Proof. unfold values, rename_index. rewrite map_map. reflexivity. Qed.

Lemma index_values_length (s : Series) : length (values s) = length (index s).
Proof. unfold values, index. now rewrite !length_map. Qed.

Lemma combine_map_index (f : string -> string) (s : Series) :
  combine (map f (index s)) (values s) = map (fun kv => (f (fst kv), snd kv)) s.
Proof.
  induction s as [|[k v] s IH]; simpl; [reflexivity|]. f_equal. exact IH.
Qed.


(** The offer, once renamed and sorted, lines up with the sorted blocks. *)
Lemma std_offer_index offer :
  sorted (map std_label (index offer)) = sorted PROFIT_COLS ->
  index (sort_index (rename_index offer
                       [("reward", "reward_t"); ("id", "offer_id")]))
  = sorted PROFIT_COLS.
Proof.
  intros H. rewrite index_sort_index, index_rename_index. exact H.
Qed.

Lemma substituted_eq d offer :
  sorted (map std_label (index offer)) = sorted PROFIT_COLS ->
  let std := sort_index (rename_index offer
                           [("reward", "reward_t"); ("id", "offer_id")]) in
  substituted d offer
  = loc_set_block
      (loc_set_block d
         (map (fun kv => ((fst kv ++ "_viewcol")%string, snd kv)) std))
      std.
Proof.
  intros Hfields std. pose proof (std_offer_index offer Hfields) as Hidx.
  fold std in Hidx. unfold substituted. fold std.
  rewrite values_rename_index, sorted_VIEW_COLS, <- Hidx.
  now rewrite combine_map_index, combine_index_values.
Qed.

Lemma substituted_nrows d offer : nrows (substituted d offer) = nrows d.
Proof. unfold substituted. now rewrite !loc_set_block_nrows. Qed.

Lemma view_keys (std : Series) :
  map fst (map (fun kv => ((fst kv ++ "_viewcol")%string, snd kv)) std)
  = map (fun c => (c ++ "_viewcol")%string) (index std).
Proof. unfold index. rewrite !map_map. reflexivity. Qed.

Lemma substituted_view_columns d offer :
  has_columns d VIEW_COLS = true ->
  sorted (map std_label (index offer)) = sorted PROFIT_COLS ->
  columns (loc_set_block d
             (map (fun kv => ((fst kv ++ "_viewcol")%string, snd kv))
                (sort_index (rename_index offer
                               [("reward", "reward_t"); ("id", "offer_id")]))))
  = columns d.
Proof.
  intros Hview Hfields. apply loc_set_block_columns. intros c Hc.
  rewrite view_keys, (std_offer_index offer Hfields), <- sorted_VIEW_COLS in Hc.
  apply has_columns_sorted in Hview. unfold has_columns in Hview.
  rewrite forallb_forall in Hview. now apply Hview.
Qed.

Lemma substituted_columns d offer :
  has_columns d VIEW_COLS = true ->
  has_columns d PROFIT_COLS = true ->
  sorted (map std_label (index offer)) = sorted PROFIT_COLS ->
  columns (substituted d offer) = columns d.
Proof.
  intros Hview Hprofit Hfields. rewrite (substituted_eq d offer Hfields).
  cbv zeta. rewrite loc_set_block_columns.
  - now apply substituted_view_columns.
  - intros c Hc. fold (index (sort_index (rename_index offer
                           [("reward", "reward_t"); ("id", "offer_id")]))) in Hc.
    rewrite (std_offer_index offer Hfields) in Hc.
    rewrite (substituted_view_columns d offer Hview Hfields).
    apply has_columns_sorted in Hprofit. unfold has_columns in Hprofit.
    rewrite forallb_forall in Hprofit. now apply Hprofit.
Qed.

Section SubstitutionProofs.

Variable score : Type.
Variable smul : score -> score -> score.

(** [predict_profit_with_offer] allocates one table, the substituted copy,
    and hands it to the estimator. *)
Lemma predict_profit_with_offer_run (model : ProfitsPredictor score)
  data offer h offer_type id :
  has_columns (nth data h empty_frame) VIEW_COLS = true ->
  has_columns (nth data h empty_frame) PROFIT_COLS = true ->
  sorted (map std_label (index offer)) = sorted PROFIT_COLS ->
  getattr offer "offer_type" = Ok offer_type ->
  getattr offer "id" = Ok id ->
  predict_profit_with_offer smul model data offer false h
  = (y_pred <- (if eq_str offer_type "no_offer"
                then predict_profit_alone model (length h)
                else predict smul model (length h)) ;;
     ret (id, y_pred)) (h ++ [substituted (nth data h empty_frame) offer]).
Proof.
  intros Hview Hprofit Hfields Htype Hid.
  set (d := nth data h empty_frame) in *.
  pose proof (std_offer_index offer Hfields) as Hidx.
  set (std := sort_index (rename_index offer
                            [("reward", "reward_t"); ("id", "offer_id")])) in *.
  assert (Hlen : length (values std) = 9).
  { rewrite index_values_length, Hidx. reflexivity. }
  set (view_offer := rename_index std
         (map (fun old : string => (old, (old ++ "_viewcol")%string)) (index std))).
  set (s1 := loc_set_block d (combine (sorted VIEW_COLS) (values view_offer))).
  assert (Hc1 : columns s1 = columns d).
  { unfold s1, view_offer.
    rewrite values_rename_index, sorted_VIEW_COLS, <- Hidx, combine_map_index.
    now apply substituted_view_columns. }
  unfold predict_profit_with_offer.
  unfold bind at 1. unfold get at 1. cbv beta iota.
  unfold bind at 1. unfold new at 1. cbv beta iota.
  unfold bind at 1. unfold lift at 1. cbv beta iota. fold std. fold view_offer.
  unfold bind at 1. unfold get at 1. cbv beta iota. rewrite nth_new. fold d.
  assert (E1 : loc_set_all_rows d (sorted VIEW_COLS) (values view_offer) = Ok s1).
  { unfold loc_set_all_rows. fold (has_columns d (sorted VIEW_COLS)).
    rewrite (has_columns_sorted d _ Hview).
    unfold view_offer at 1. rewrite values_rename_index, Hlen. reflexivity. }
  unfold bind at 1. unfold lift at 1. rewrite E1. cbv beta iota.
  unfold bind at 1. unfold put at 1. cbv beta iota. rewrite update_new.
  unfold bind at 1. unfold get at 1. cbv beta iota. rewrite nth_new.
  assert (E2 : loc_set_all_rows s1 (sorted PROFIT_COLS) (values std)
               = Ok (substituted d offer)).
  { unfold loc_set_all_rows. rewrite Hc1.
    fold (has_columns d (sorted PROFIT_COLS)).
    rewrite (has_columns_sorted d _ Hprofit), Hlen. reflexivity. }
  unfold bind at 1. unfold lift at 1. rewrite E2. cbv beta iota.
  unfold bind at 1. unfold put at 1. cbv beta iota. rewrite update_new.
  unfold bind at 1. unfold lift at 1. rewrite Htype. cbv beta iota.
  unfold bind. unfold lift. rewrite Hid.
  destruct ((if eq_str offer_type "no_offer"
             then predict_profit_alone model (length h)
             else predict smul model (length h))
              (h ++ [substituted d offer])) as [[y|e] h2];
    reflexivity.
Qed.


End SubstitutionProofs.


(* ================================================================== *)
(** ** The catalog with the null offer *)

Lemma nodupb_NoDup l : nodupb l = true -> NoDup l.
Proof.
  induction l as [|c l IH]; simpl; intros H; constructor.
  - apply andb_prop in H. destruct H as [H _].
    apply negb_true_iff in H. now apply mem_false_In.
  - apply IH. apply andb_prop in H. tauto.
Qed.

Lemma wf_table_NoDup d : wf_table d = true -> NoDup (columns d).
Proof.
  unfold wf_table. intros H. apply andb_prop in H. apply nodupb_NoDup. tauto.
Qed.

Lemma wf_table_lengths d c :
  wf_table d = true -> In c (cols d) -> length (snd c) = nrows d.
Proof.
  unfold wf_table. intros H Hc. apply andb_prop in H. destruct H as [_ H].
  rewrite forallb_forall in H. apply Nat.eqb_eq. now apply H.
Qed.

Lemma row_append_old p s i :
  wf_table p = true -> i < nrows p -> row (append_row p s) i = row p i.
Proof.
  intros Hwf Hi. unfold row, append_row. simpl. rewrite map_map. simpl.
  apply map_ext_in. intros c Hc. f_equal.
  apply app_nth1. now rewrite (wf_table_lengths p c Hwf Hc).
Qed.

Lemma row_append_new p s :
  wf_table p = true ->
  row (append_row p s) (nrows p)
  = map (fun c => (fst c, match lookup (fst c) s with
                          | Some v => v
                          | None => VFloat PrimFloat.nan
                          end)) (cols p).
Proof.
  intros Hwf. unfold row, append_row. simpl. rewrite map_map. simpl.
  apply map_ext_in. intros c Hc. f_equal.
  rewrite app_nth2 by (rewrite (wf_table_lengths p c Hwf Hc); lia).
  rewrite (wf_table_lengths p c Hwf Hc), Nat.sub_diag. reflexivity.
Qed.

Lemma lookup_combine_self (keys : list string) (vals : list value) :
  NoDup keys -> length keys = length vals ->
  map (fun k => (k, match lookup k (combine keys vals) with
                    | Some v => v
                    | None => VFloat PrimFloat.nan
                    end)) keys
  = combine keys vals.
Proof.
  revert vals. induction keys as [|k keys IH]; intros [|v vals] Hnd Hlen;
    simpl in *; try reflexivity; try discriminate.
  inversion Hnd as [|? ? Hk Hnd']. subst.
  rewrite String.eqb_refl. f_equal.
  etransitivity; [|apply (IH vals Hnd'); lia].
  apply map_ext_in. intros k' Hk'.
  destruct (String.eqb k' k) eqn:E; [|reflexivity].
  apply String.eqb_eq in E. subst k'. contradiction.
Qed.

(** The appended row is the [null_offer] series itself. *)
Lemma null_offer_row p :
  wf_table p = true ->
  length (columns p) = 9 ->
  row (complete_with_null p) (nrows p) = combine (columns p) null_offer_values.
Proof.
  intros Hwf Hlen. unfold complete_with_null. rewrite (row_append_new p _ Hwf).
  etransitivity;
    [|apply (lookup_combine_self (columns p) null_offer_values
               (wf_table_NoDup p Hwf) Hlen)].
  unfold columns. rewrite map_map. reflexivity.
Qed.

Lemma portfolio_layout_length p :
  portfolio_layout p = true -> length (columns p) = 9.
Proof.
  unfold portfolio_layout.
  destruct (columns p) as [|c0 [|c1 [|c2 [|c3 [|c4 [|c5 [|c6 [|c7 [|c8 [|c9 l]]]]]]]]]];
    try discriminate. reflexivity.
Qed.

(** What the [null_offer] series holds under each label. *)
Lemma null_offer_fields p :
  wf_table p = true ->
  portfolio_layout p = true ->
  let s := combine (columns p) null_offer_values in
  lookup "id" s = Some (VStr "no_offer")
  /\ lookup "offer_type" s = Some (VStr "no_offer")
  /\ forall c, In c (columns p) -> c <> "id" -> c <> "offer_type" ->
       lookup c s = Some (VInt 0).
Proof.
  intros Hwf Hlay s.
  pose proof (wf_table_NoDup p Hwf) as Hnd.
  assert (Hkeys : NoDup (map fst s)).
  { unfold s. rewrite map_fst_combine; [exact Hnd|].
    now rewrite (portfolio_layout_length p Hlay). }
  unfold portfolio_layout in Hlay. unfold s in *. clear s.
  destruct (columns p) as [|c0 [|c1 [|c2 [|c3 [|c4 [|c5 [|c6 [|c7 [|c8 [|c9 l]]]]]]]]]];
    try discriminate.
  assert (Hids : (c2 = "id" /\ c3 = "offer_type") \/ (c2 = "offer_type" /\ c3 = "id")).
  { apply orb_prop in Hlay. destruct Hlay as [H|H]; apply andb_prop in H;
      destruct H as [H2 H3]; apply String.eqb_eq in H2, H3; tauto. }
  split; [|split].
  - apply lookup_nodup; [exact Hkeys|]. simpl.
    destruct Hids as [[-> ->]|[-> ->]]; tauto.
  - apply lookup_nodup; [exact Hkeys|]. simpl.
    destruct Hids as [[-> ->]|[-> ->]]; tauto.
  - intros c Hc Hid Hty. apply lookup_nodup; [exact Hkeys|]. simpl.
    simpl in Hc.
    destruct Hids as [[-> ->]|[-> ->]];
      repeat (destruct Hc as [Hc|Hc]; [subst c; try congruence; tauto|]);
      destruct Hc.
Qed.

Lemma iter_rows_complete p :
  wf_table p = true ->
  iter_rows (complete_with_null p)
  = iter_rows p ++ [row (complete_with_null p) (nrows p)].
Proof.
  intros Hwf. unfold iter_rows, complete_with_null at 1. simpl nrows.
  rewrite seq_S, map_app. simpl. f_equal.
  apply map_ext_in. intros i Hi. apply in_seq in Hi.
  apply row_append_old; [assumption | lia].
Qed.

Section ChooserProofs.

Variable score : Type.
Variable smul : score -> score -> score.
Variable sleb : score -> score -> bool.
Variable sisnan : score -> bool.
Variable snan : score.
Variable sneginf : score.

(** With [add_null_offer], [choose_offer] first allocates the copy of the
    portfolio and the copy with the null offer appended, in that order. *)
Lemma choose_offer_prefix (model : ProfitsPredictor score) X portfolio h :
  length (columns (nth portfolio h empty_frame)) = 9 ->
  choose_offer smul sleb sisnan snan sneginf model X portfolio true h
  = score_candidates smul sleb sisnan snan sneginf model X (S (length h))
      (h ++ [nth portfolio h empty_frame;
             complete_with_null (nth portfolio h empty_frame)]).
Proof.
  intros Hlen. set (p := nth portfolio h empty_frame) in *.
  unfold choose_offer.
  unfold bind at 1. unfold get at 1. cbv beta iota. fold p.
  unfold bind at 1. unfold new at 1. cbv beta iota.
  unfold bind at 1.
  unfold bind at 1. unfold get at 1. cbv beta iota. rewrite nth_new.
  unfold bind at 1. unfold lift at 1. unfold mk_series. rewrite Hlen.
  cbv beta iota. simpl Nat.eqb. cbv beta iota.
  unfold new at 1. cbv beta iota.
  rewrite length_app. simpl length. rewrite Nat.add_1_r.
  rewrite <- app_assoc. reflexivity.
Qed.

Lemma frame_score_candidates n (model : ProfitsPredictor score) X cp :
  frame n (score_candidates smul sleb sisnan snan sneginf model X cp)
    (fun _ => True).
Proof.
  unfold score_candidates.
  eapply frame_bind; [apply frame_get|]. intros cp0 _.
  eapply frame_bind.
  { apply frame_mapM. intros x. apply frame_predict_profit_with_offer. }
  intros results _.
  eapply frame_bind; [apply frame_get|]. intros cp' _.
  eapply frame_bind; [apply frame_lift|]. intros ids _.
  eapply frame_bind; [apply frame_lift|]. intros res _.
  now apply frame_ret.
Qed.

(** The completed catalog is still in the store, untouched, when
    [choose_offer] ends. *)
Lemma choose_offer_catalog (model : ProfitsPredictor score) X portfolio h :
  length (columns (nth portfolio h empty_frame)) = 9 ->
  nth (S (length h))
    (snd (choose_offer smul sleb sisnan snan sneginf model X portfolio true h))
    empty_frame
  = complete_with_null (nth portfolio h empty_frame).
Proof.
  intros Hlen. rewrite (choose_offer_prefix model X portfolio h Hlen).
  set (h2 := h ++ [_; _]).
  assert (Hl : length h2 = S (S (length h))).
  { unfold h2. rewrite length_app. simpl. lia. }
  destruct (frame_score_candidates (length h2) model X (S (length h)) h2 (le_n _))
    as [_ [H _]].
  rewrite H by lia. unfold h2. rewrite app_nth2 by lia.
  replace (S (length h) - length h) with 1 by lia. reflexivity.
Qed.

(** C8.  With [add_null_offer=True] and a portfolio in the catalog layout
    (nine distinct columns, the identity and the type of the offer in third
    and fourth place), the catalog [choose_offer] scores is the portfolio
    followed by one more row, the sentinel, which reads "no_offer" for the
    identity and for the type of the offer and zero in every other field
    (difficulty, duration, reward and the channel flags). *)
Theorem null_offer_is_sentinel (model : ProfitsPredictor score) X portfolio h :
  portfolio < length h ->
  wf_table (nth portfolio h empty_frame) = true ->
  portfolio_layout (nth portfolio h empty_frame) = true ->
  let p := nth portfolio h empty_frame in
  let complete_portfolio :=
    nth (S (length h))
      (snd (choose_offer smul sleb sisnan snan sneginf model X portfolio true h))
      empty_frame in
  let null_offer := row complete_portfolio (nrows p) in
  nrows complete_portfolio = S (nrows p)
  /\ iter_rows complete_portfolio = iter_rows p ++ [null_offer]
  /\ lookup "id" null_offer = Some (VStr "no_offer")
  /\ lookup "offer_type" null_offer = Some (VStr "no_offer")
  /\ forall c, In c (columns p) -> c <> "id" -> c <> "offer_type" ->
       lookup c null_offer = Some (VInt 0).
Proof.
  intros Hp Hwf Hlay p complete_portfolio null_offer.
  pose proof (portfolio_layout_length _ Hlay) as Hlen.
  assert (Hcp : complete_portfolio = complete_with_null p).
  { apply choose_offer_catalog. exact Hlen. }
  assert (Hnull : null_offer = combine (columns p) null_offer_values).
  { unfold null_offer. rewrite Hcp. now apply null_offer_row. }
  destruct (null_offer_fields p Hwf Hlay) as [Hid [Hty Hother]].
  rewrite Hnull. split; [now rewrite Hcp|]. split; [|auto].
  rewrite <- Hnull. unfold null_offer. rewrite Hcp. now apply iter_rows_complete.
Qed.

End ChooserProofs.

(** The fixture catalog, with its one real offer. *)
Lemma null_offer_is_sentinel_witness :
  let p := Fixtures.portfolio1 in
  let complete_portfolio :=
    nth 3 (snd (Fixtures.choose Fixtures.model Fixtures.X p)) empty_frame in
  let null_offer := row complete_portfolio (nrows p) in
  nrows complete_portfolio = S (nrows p)
  /\ iter_rows complete_portfolio = iter_rows p ++ [null_offer]
  /\ lookup "id" null_offer = Some (VStr "no_offer")
  /\ lookup "offer_type" null_offer = Some (VStr "no_offer")
  /\ forall c, In c (columns p) -> c <> "id" -> c <> "offer_type" ->
       lookup c null_offer = Some (VInt 0).
Proof.
  apply (null_offer_is_sentinel XScore.t XScore.mul XScore.leb XScore.isnan
           XScore.NaN XScore.NInf Fixtures.model 0 1
           [Fixtures.X; Fixtures.portfolio1]).
  - simpl. lia.
  - reflexivity.
  - reflexivity.
Defined.

(** C8, as the claim words it ("for every portfolio"), fails: [null_offer]
    is built by position.  On the well-formed catalog that holds the same
    nine fields with the identity first, the appended row reads 0 under the
    identity and under the type of the offer, and "no_offer" under
    difficulty and duration. *)
Lemma null_offer_misplaced_when_id_comes_first :
  let p := Fixtures.portfolio_id_first in
  let complete_portfolio :=
    nth 3 (snd (Fixtures.choose Fixtures.model Fixtures.X p)) empty_frame in
  let null_offer := row complete_portfolio (nrows p) in
  wf_table p = true
  /\ sorted (map std_label (columns p)) = sorted PROFIT_COLS
  /\ nrows complete_portfolio = S (nrows p)
  /\ iter_rows complete_portfolio = iter_rows p ++ [null_offer]
  /\ lookup "id" null_offer = Some (VInt 0)
  /\ lookup "offer_type" null_offer = Some (VInt 0)
  /\ lookup "difficulty" null_offer = Some (VStr "no_offer")
  /\ lookup "duration" null_offer = Some (VStr "no_offer")
  /\ lookup "id" null_offer <> Some (VStr "no_offer")
  /\ lookup "difficulty" null_offer <> Some (VInt 0).
Proof.
  cbv zeta. repeat split; try (vm_compute; reflexivity);
    vm_compute; discriminate.
Qed.

(* ================================================================== *)
(** ** The arg-max of a row of scores *)

Section ArgmaxProofs.

Variable score : Type.
Variable sleb : score -> score -> bool.
Variable sisnan : score -> bool.
Variable sneginf : score.

(** On scores that are not NaN, [<=] is a total preorder. *)
Hypothesis sleb_total :
  forall a b, sisnan a = false -> sisnan b = false ->
              sleb a b = true \/ sleb b a = true.
Hypothesis sleb_trans :
  forall a b c, sleb a b = true -> sleb b c = true -> sleb a c = true.

Lemma argmax_from_first_max l : forall pre mp best,
  no_nan sisnan (pre ++ l) ->
  nth_error pre best = Some mp ->
  (forall j x, nth_error pre j = Some x -> sleb x mp = true) ->
  (forall j x, j < best -> nth_error pre j = Some x -> sleb mp x = false) ->
  first_max sleb (pre ++ l) (argmax_from sleb mp best (length pre) l).
Proof.
  induction l as [|v l IH]; intros pre mp best Hnan Hbest Hle Hlt.
  - simpl. rewrite app_nil_r. exists mp. auto.
  - assert (Hpre : forall j x, nth_error pre j = Some x -> sisnan x = false).
    { intros j x Hx. unfold no_nan in Hnan. rewrite Forall_forall in Hnan.
      apply Hnan. apply in_or_app. left. eapply nth_error_In; eassumption. }
    assert (Hv : sisnan v = false).
    { unfold no_nan in Hnan. rewrite Forall_forall in Hnan.
      apply Hnan. apply in_or_app. right. now left. }
    assert (Hmp : sisnan mp = false) by (eapply Hpre; eassumption).
    assert (Hlast : nth_error (pre ++ [v]) (length pre) = Some v).
    { rewrite nth_error_app2 by lia. now rewrite Nat.sub_diag. }
    assert (Hcases : forall j x, nth_error (pre ++ [v]) j = Some x ->
              (j < length pre /\ nth_error pre j = Some x)
              \/ (j = length pre /\ x = v)).
    { intros j x Hx. destruct (Nat.lt_ge_cases j (length pre)) as [Hj|Hj].
      - left. split; [assumption|]. now rewrite nth_error_app1 in Hx.
      - right. rewrite nth_error_app2 in Hx by assumption.
        destruct (j - length pre) as [|m] eqn:E; simpl in Hx.
        + split; [lia | congruence].
        + destruct m; discriminate. }
    replace (pre ++ v :: l) with ((pre ++ [v]) ++ l) in *
      by (rewrite <- app_assoc; reflexivity).
    simpl. replace (S (length pre)) with (length (pre ++ [v]))
      by (rewrite length_app; simpl; lia).
    destruct (sleb v mp) eqn:E; simpl.
    + apply IH; try assumption.
      * rewrite nth_error_app1; [assumption|].
        apply nth_error_Some. congruence.
      * intros j x Hx. destruct (Hcases j x Hx) as [[_ Hj]|[_ ->]];
          [eapply Hle; eassumption | assumption].
      * intros j x Hj Hx. destruct (Hcases j x Hx) as [[_ Hx']|[Hj' _]].
        -- eapply Hlt; eassumption.
        -- assert (best < length pre) by (apply nth_error_Some; congruence). lia.
    + assert (Hmv : sleb mp v = true).
      { destruct (sleb_total mp v Hmp Hv) as [H|H]; [assumption | congruence]. }
      apply IH; try assumption.
      * intros j x Hx. destruct (Hcases j x Hx) as [[_ Hj]|[_ ->]].
        -- eapply sleb_trans; [eapply Hle; eassumption | assumption].
        -- destruct (sleb_total v v Hv Hv); assumption.
      * intros j x Hj Hx. destruct (Hcases j x Hx) as [[_ Hx']|[Hj' _]]; [|lia].
        destruct (sleb v x) eqn:E'; [|reflexivity].
        rewrite (sleb_trans v x mp E' (Hle j x Hx')) in E. discriminate.
Qed.

(** [nanargmax] on a row without NaN: the first occurrence of the maximum. *)
Lemma nanargmax_first_max (r : list score) :
  r <> [] -> no_nan sisnan r ->
  exists i, nanargmax sleb sisnan sneginf r = Some i /\ first_max sleb r i.
Proof.
  intros Hne Hnan. unfold nanargmax.
  assert (Hmap : map (fun v => if sisnan v then sneginf else v) r = r).
  { unfold no_nan in Hnan. rewrite Forall_forall in Hnan.
    rewrite <- (map_id r) at 2. apply map_ext_in. intros v Hv.
    now rewrite (Hnan v Hv). }
  rewrite Hmap. destruct r as [|v l]; [congruence|].
  assert (Hv : sisnan v = false) by (inversion Hnan; assumption).
  simpl forallb. rewrite Hv. simpl andb. cbv iota.
  exists (argmax_from sleb v 0 1 l). split; [reflexivity|].
  apply (argmax_from_first_max l [v] v 0).
  - exact Hnan.
  - reflexivity.
  - intros j x Hx. destruct j as [|j]; simpl in Hx.
    + inversion Hx. subst x. destruct (sleb_total v v Hv Hv); assumption.
    + destruct j; discriminate.
  - intros j x Hj. lia.
Qed.

End ArgmaxProofs.

(* ================================================================== *)
(** ** Scoring every candidate *)

Lemma lookup_map_values {A B} (g : string -> A -> B) c (l : list (string * A)) :
  lookup c (map (fun x => (fst x, g (fst x) (snd x))) l)
  = option_map (g c) (lookup c l).
Proof.
  induction l as [|[k a] l IH]; simpl; [reflexivity|].
  destruct (String.eqb c k) eqn:E; [|exact IH].
  apply String.eqb_eq in E. now subst k.
Qed.

Lemma lookup_row p i c :
  lookup c (row p i)
  = option_map (fun l => nth i l (VFloat PrimFloat.nan)) (lookup c (cols p)).
Proof.
  unfold row. apply (lookup_map_values (fun _ l => nth i l (VFloat PrimFloat.nan))).
Qed.

Lemma index_row p i : index (row p i) = columns p.
Proof. unfold index, row, columns. rewrite map_map. reflexivity. Qed.

Lemma lookup_complete_with_null p c :
  lookup c (cols (complete_with_null p))
  = option_map
      (fun l => l ++ [match lookup c (combine (columns p) null_offer_values) with
                      | Some v => v
                      | None => VFloat PrimFloat.nan
                      end])
      (lookup c (cols p)).
Proof.
  unfold complete_with_null, append_row. simpl cols.
  apply (lookup_map_values
           (fun k l => l ++ [match lookup k (combine (columns p) null_offer_values) with
                             | Some v => v
                             | None => VFloat PrimFloat.nan
                             end])).
Qed.

Lemma portfolio_layout_fields p :
  portfolio_layout p = true ->
  In "id" (columns p) /\ In "offer_type" (columns p).
Proof.
  unfold portfolio_layout.
  destruct (columns p) as [|c0 [|c1 [|c2 [|c3 [|c4 [|c5 [|c6 [|c7 [|c8 [|c9 l]]]]]]]]]];
    try discriminate.
  intros H. apply orb_prop in H. destruct H as [H|H]; apply andb_prop in H;
    destruct H as [H2 H3]; apply String.eqb_eq in H2, H3; subst; simpl; tauto.
Qed.

(** The identities of the completed catalog: those of the portfolio, then
    "no_offer". *)
Lemma catalog_ids p :
  wf_table p = true ->
  portfolio_layout p = true ->
  exists ids,
    getattr (cols p) "id" = Ok ids
    /\ length ids = nrows p
    /\ getattr (cols (complete_with_null p)) "id" = Ok (ids ++ [VStr "no_offer"]).
Proof.
  intros Hwf Hlay.
  destruct (portfolio_layout_fields p Hlay) as [Hid _].
  apply mem_In, lookup_mem in Hid. destruct Hid as [ids Hids].
  destruct (null_offer_fields p Hwf Hlay) as [Hnull _].
  exists ids. unfold getattr. rewrite lookup_complete_with_null, Hids, Hnull.
  repeat split. exact (wf_column_length p "id" ids Hwf Hids).
Qed.

Lemma drop_same_columns a b labels da :
  columns a = columns b ->
  drop a labels = Ok da ->
  exists db, drop b labels = Ok db
             /\ columns db = columns da
             /\ nrows db = nrows b.
Proof.
  intros Hcols Hda.
  assert (Hdb : exists db, drop b labels = Ok db).
  { unfold drop in *. rewrite <- Hcols.
    destruct (forallb _ labels); [eauto | discriminate]. }
  destruct Hdb as [db Hdb]. exists db. split; [assumption|]. split.
  - now rewrite (columns_drop _ _ _ Hdb), (columns_drop _ _ _ Hda), Hcols.
  - unfold drop in Hdb. destruct (forallb _ labels); [|discriminate].
    injection Hdb as <-. reflexivity.
Qed.

Lemma drop_nrows a labels da : drop a labels = Ok da -> nrows da = nrows a.
Proof.
  unfold drop. destruct (forallb _ labels); [|discriminate].
  intros E. injection E as <-. reflexivity.
Qed.

Section ScoringProofs.

Variable score : Type.
Variable smul : score -> score -> score.

Lemma predict_profit_alone_run (self : ProfitsPredictor score) X h dv xp out xp' :
  X < length h ->
  drop (nth X h empty_frame) (profit_cols self) = Ok dv ->
  drop (nth X h empty_frame) (view_cols self) = Ok xp ->
  profits_model_predict self xp = (out, xp') ->
  predict_profit_alone self X h
  = (out, h ++ [dv; rename_columns dv (combine (view_cols self) (profit_cols self));
                xp']).
Proof.
  intros HX Hdv Hxp Hprofits. unfold predict_profit_alone, bind.
  rewrite (split_view_profit_run X _ _ h dv xp HX Hdv Hxp). unfold call.
  replace (nth (S (S (length h))) (h ++ [dv; _; xp]) empty_frame) with xp
    by (rewrite app_nth2 by lia;
        replace (S (S (length h)) - length h) with 2 by lia; reflexivity).
  rewrite Hprofits. now rewrite update_third.
Qed.

(** The tables and the model under which every candidate can be scored. *)
Variable model : ProfitsPredictor score.
Variable x dv xp : DataFrame.
Hypothesis x_view_block : has_columns x VIEW_COLS = true.
Hypothesis x_profit_block : has_columns x PROFIT_COLS = true.
Hypothesis x_drop_profit : drop x (profit_cols model) = Ok dv.
Hypothesis x_drop_view : drop x (view_cols model) = Ok xp.
Hypothesis views_fitted :
  predicts_per_row (views_model_predict_proba model)
    (columns (rename_columns dv (combine (view_cols model) (profit_cols model)))).
Hypothesis profits_fitted :
  predicts_per_row (profits_model_predict model) (columns xp).

Lemma predict_profit_with_offer_ok X offer id h :
  X < length h ->
  nth X h empty_frame = x ->
  scorable offer id ->
  exists y h',
    predict_profit_with_offer smul model X offer false h = (Ok (id, y), h')
    /\ length y = nrows x.
Proof.
  intros HX Hx [Hfields [Hid [offer_type Htype]]].
  rewrite (predict_profit_with_offer_run score smul model X offer h offer_type id)
    by (rewrite ?Hx; assumption).
  rewrite Hx. set (samples := substituted x offer).
  assert (Hcols : columns x = columns samples).
  { symmetry. now apply substituted_columns. }
  assert (Hn : nrows samples = nrows x) by apply substituted_nrows.
  destruct (drop_same_columns x samples _ dv Hcols x_drop_profit)
    as [dv' [Hdv' [Hcdv Hndv]]].
  destruct (drop_same_columns x samples _ xp Hcols x_drop_view)
    as [xp1 [Hxp1 [Hcxp Hnxp]]].
  destruct (views_fitted
              (rename_columns dv' (combine (view_cols model) (profit_cols model))))
    as [proba [xv' [Hviews Hlv]]].
  { now rewrite !columns_rename, Hcdv. }
  destruct (profits_fitted xp1 Hcxp) as [profits [xp' [Hprofits Hlp]]].
  simpl nrows in Hlv.
  assert (Hnew : nth (length h) (h ++ [samples]) empty_frame = samples)
    by apply nth_new.
  assert (Hlt : length h < length (h ++ [samples]))
    by (rewrite length_app; simpl; lia).
  unfold bind.
  destruct (eq_str offer_type "no_offer").
  - rewrite (predict_profit_alone_run model (length h) (h ++ [samples])
               dv' xp1 (Ok profits) xp' Hlt)
      by (rewrite ?Hnew; assumption).
    simpl. eexists _, _. split; [reflexivity|]. congruence.
  - rewrite (predict_run score smul model (length h) (h ++ [samples])
               dv' xp1 proba xv' profits xp' Hlt)
      by (rewrite ?Hnew; assumption).
    rewrite np_mul_same_length by (rewrite length_map; congruence).
    simpl. eexists _, _. split; [reflexivity|].
    rewrite length_map, length_combine, length_map. lia.
Qed.

Lemma mapM_predict_profit_with_offer X offers : forall ids h,
  X < length h ->
  nth X h empty_frame = x ->
  Forall2 scorable offers ids ->
  exists ys h',
    mapM (fun o => predict_profit_with_offer smul model X o false) offers h
    = (Ok (combine ids ys), h')
    /\ length ys = length ids
    /\ Forall (fun y => length y = nrows x) ys.
Proof.
  induction offers as [|o offers IH]; intros ids h HX Hx Hall.
  - destruct ids as [|id ids']; [|inversion Hall].
    exists [], h. simpl. repeat split. constructor.
  - destruct ids as [|id ids']; [inversion Hall|].
    apply Forall2_cons_iff in Hall. destruct Hall as [Ho Hrest].
    destruct (predict_profit_with_offer_ok X o id h HX Hx Ho) as [y [h1 [Hrun Hy]]].
    destruct (frame_predict_profit_with_offer score smul (length h) model X o false
                h (le_n _)) as [Hlen [Hfr _]].
    rewrite Hrun in Hlen, Hfr. simpl snd in Hlen, Hfr.
    destruct (IH ids' h1) as [ys [h2 [Hruns [Hlen2 Hys]]]];
      [lia | rewrite Hfr by assumption; exact Hx | assumption |].
    exists (y :: ys), h2. simpl mapM. unfold bind at 1. rewrite Hrun.
    unfold bind at 1. rewrite Hruns. simpl. repeat split.
    + lia.
    + now constructor.
Qed.

End ScoringProofs.


(* ================================================================== *)
(** ** The score table and the chosen offers *)

Section ChoiceProofs.

Variable score : Type.
Variable smul : score -> score -> score.
Variable sleb : score -> score -> bool.
Variable sisnan : score -> bool.
Variable snan : score.
Variable sneginf : score.

Lemma transpose_results_row_length (ys : list (list score)) r :
  In r (transpose_results snan ys) -> length r = length ys.
Proof.
  unfold transpose_results. intros H. apply in_map_iff in H.
  destruct H as [i [<- _]]. now rewrite length_map.
Qed.

Lemma nth_error_idxmax (t : ScoreTable score) k r :
  nth_error (st_rows t) k = Some r ->
  nth_error (idxmax sleb sisnan sneginf t) k
  = Some (match nanargmax sleb sisnan sneginf r with
          | Some i => nth_error (st_columns t) i
          | None => None
          end).
Proof.
  intros H. unfold idxmax. now rewrite nth_error_map, H.
Qed.

(** [score_candidates] once every candidate has been scored. *)
Lemma score_candidates_run (model : ProfitsPredictor score) X r h2 results h3 ids :
  r < length h2 ->
  mapM (fun o => predict_profit_with_offer smul model X o false)
       (iter_rows (nth r h2 empty_frame)) h2 = (Ok results, h3) ->
  getattr (cols (nth r h2 empty_frame)) "id" = Ok ids ->
  length ids = length results ->
  fst (score_candidates smul sleb sisnan snan sneginf model X r h2)
  = Ok (idxmax sleb sisnan sneginf
          (mkScores ids (transpose_results snan (map snd results))),
        mkScores ids (transpose_results snan (map snd results))).
Proof.
  intros Hr Hrun Hids Hlen.
  assert (Hsame : nth r h3 empty_frame = nth r h2 empty_frame).
  { destruct (frame_mapM (length h2)
                (fun o => predict_profit_with_offer smul model X o false)
                (iter_rows (nth r h2 empty_frame))
                (fun o => frame_predict_profit_with_offer score smul (length h2)
                            model X o false)
                h2 (le_n _)) as [_ [H _]].
    rewrite Hrun in H. now apply H. }
  unfold score_candidates.
  unfold bind at 1. unfold get at 1. cbv beta iota.
  unfold bind at 1. rewrite Hrun.
  unfold bind at 1. unfold get at 1. cbv beta iota. rewrite Hsame.
  unfold bind at 1. unfold lift at 1. rewrite Hids.
  unfold bind at 1. unfold lift at 1. rewrite Hlen, Nat.eqb_refl.
  reflexivity.
Qed.

(** What a returned score table is made of. *)
Lemma score_candidates_inv (model : ProfitsPredictor score) X r h2 chosen t :
  r < length h2 ->
  fst (score_candidates smul sleb sisnan snan sneginf model X r h2)
  = Ok (chosen, t) ->
  exists ids ys,
    getattr (cols (nth r h2 empty_frame)) "id" = Ok ids
    /\ length ids = length ys
    /\ t = mkScores ids (transpose_results snan ys)
    /\ chosen = idxmax sleb sisnan sneginf t.
Proof.
  intros Hr. unfold score_candidates.
  unfold bind at 1. unfold get at 1. cbv beta iota.
  unfold bind at 1.
  destruct (mapM (fun o => predict_profit_with_offer smul model X o false)
              (iter_rows (nth r h2 empty_frame)) h2) as [[results|e] h3] eqn:Hrun;
    [|discriminate].
  assert (Hsame : nth r h3 empty_frame = nth r h2 empty_frame).
  { destruct (frame_mapM (length h2)
                (fun o => predict_profit_with_offer smul model X o false)
                (iter_rows (nth r h2 empty_frame))
                (fun o => frame_predict_profit_with_offer score smul (length h2)
                            model X o false)
                h2 (le_n _)) as [_ [H _]].
    rewrite Hrun in H. now apply H. }
  unfold bind at 1. unfold get at 1. cbv beta iota. rewrite Hsame.
  unfold bind at 1. unfold lift at 1.
  destruct (getattr (cols (nth r h2 empty_frame)) "id") as [ids|e]; [|discriminate].
  unfold bind at 1. unfold lift at 1.
  destruct (Nat.eqb (length ids) (length results)) eqn:Hlen; [|discriminate].
  simpl. intros E. injection E as <- <-.
  exists ids, (map snd results). repeat split.
  rewrite length_map. now apply Nat.eqb_eq.
Qed.

(** On scores that are not NaN, [<=] is a total preorder. *)
Hypothesis sleb_total :
  forall a b, sisnan a = false -> sisnan b = false ->
              sleb a b = true \/ sleb b a = true.
Hypothesis sleb_trans :
  forall a b c, sleb a b = true -> sleb b c = true -> sleb a c = true.

(** C2, as the code has it.  [choose_offer] labels the candidates in
    catalog order, the sentinel last, and [idxmax] picks, in every row that
    holds no NaN, the first column that attains the maximum.  So when a real
    offer scores at least as much as the sentinel, a tie included, the
    chosen offer is a real one: the first that attains the maximum. *)
Theorem ties_go_to_the_first_candidate (model : ProfitsPredictor score)
  X portfolio h chosen t :
  portfolio < length h ->
  wf_table (nth portfolio h empty_frame) = true ->
  portfolio_layout (nth portfolio h empty_frame) = true ->
  fst (choose_offer smul sleb sisnan snan sneginf model X portfolio true h)
  = Ok (chosen, t) ->
  exists ids,
    getattr (cols (nth portfolio h empty_frame)) "id" = Ok ids
    /\ st_columns t = ids ++ [VStr "no_offer"]
    /\ forall k r, nth_error (st_rows t) k = Some r -> no_nan sisnan r ->
         exists i,
           nth_error chosen k = Some (nth_error (st_columns t) i)
           /\ first_max sleb r i
           /\ forall j x s,
                j < length ids ->
                nth_error r j = Some x ->
                nth_error r (length ids) = Some s ->
                sleb s x = true ->
                i < length ids /\ nth_error chosen k = Some (nth_error ids i).
Proof.
  intros Hp Hwf Hlay Hrun. set (p := nth portfolio h empty_frame) in *.
  pose proof (portfolio_layout_length p Hlay) as Hlen9.
  rewrite (choose_offer_prefix score smul sleb sisnan snan sneginf
             model X portfolio h Hlen9) in Hrun.
  fold p in Hrun.
  assert (Hlt : S (length h) < length (h ++ [p; complete_with_null p]))
    by (rewrite length_app; simpl; lia).
  destruct (score_candidates_inv model X (S (length h)) _ chosen t Hlt Hrun)
    as [ids' [ys [Hids' [Hlen [Ht Hchosen]]]]].
  replace (nth (S (length h)) (h ++ [p; complete_with_null p]) empty_frame)
    with (complete_with_null p) in Hids'
    by (rewrite app_nth2 by lia;
        replace (S (length h) - length h) with 1 by lia; reflexivity).
  destruct (catalog_ids p Hwf Hlay) as [ids [Hids [Hlids Hcat]]].
  rewrite Hcat in Hids'. injection Hids' as <-.
  exists ids. split; [exact Hids|]. split; [now rewrite Ht|].
  intros k r Hr Hnan.
  assert (Hrlen : length r = S (length ids)).
  { rewrite Ht in Hr. simpl in Hr. apply nth_error_In in Hr.
    rewrite (transpose_results_row_length _ _ Hr), <- Hlen, length_app.
    simpl. lia. }
  destruct (nanargmax_first_max score sleb sisnan sneginf sleb_total sleb_trans r)
    as [i [Hi Hfirst]]; [destruct r; [discriminate | congruence] | assumption |].
  exists i. split; [|split].
  - rewrite Hchosen, (nth_error_idxmax t k r Hr), Hi. reflexivity.
  - exact Hfirst.
  - intros j x s Hj Hx Hs Hsx.
    destruct Hfirst as [y [Hy [Hmax Hstrict]]].
    assert (Hilt : i < length r) by (apply nth_error_Some; congruence).
    assert (Hne : i <> length ids).
    { intros ->. rewrite Hs in Hy. injection Hy as <-.
      rewrite (Hstrict j x Hj Hx) in Hsx. discriminate. }
    assert (Hreal : i < length ids) by lia.
    split; [exact Hreal|].
    rewrite Hchosen, (nth_error_idxmax t k r Hr), Hi, Ht. simpl.
    now rewrite nth_error_app1.
Qed.

End ChoiceProofs.

(* ================================================================== *)
(** ** One real offer against the null offer *)


Section SingleOfferProofs.

Variable score : Type.
Variable smul : score -> score -> score.
Variable sleb : score -> score -> bool.
Variable sisnan : score -> bool.
Variable snan : score.
Variable sneginf : score.

Hypothesis sleb_total :
  forall a b, sisnan a = false -> sisnan b = false ->
              sleb a b = true \/ sleb b a = true.
Hypothesis sleb_trans :
  forall a b c, sleb a b = true -> sleb b c = true -> sleb a c = true.



End SingleOfferProofs.

(* ================================================================== *)
(** ** The fixtures meet the assumptions *)

Lemma XScore_leb_total (a b : XScore.t) :
  XScore.isnan a = false -> XScore.isnan b = false ->
  XScore.leb a b = true \/ XScore.leb b a = true.
Proof.
  destruct a as [| |x|], b as [| |y|]; simpl; intros Ha Hb;
    try discriminate; auto.
  destruct (Z.leb_spec x y); [now left|]. right. apply Z.leb_le. lia.
Qed.

Lemma XScore_leb_trans (a b c : XScore.t) :
  XScore.leb a b = true -> XScore.leb b c = true -> XScore.leb a c = true.
Proof.
  destruct a as [| |x|], b as [| |y|], c as [| |z|]; simpl; intros Hab Hbc;
    try discriminate; auto.
  apply Z.leb_le. apply Z.leb_le in Hab, Hbc. lia.
Qed.

Lemma flat_model_views_fitted labels :
  predicts_per_row (views_model_predict_proba Fixtures.flat_model) labels.
Proof.
  intros d _. eexists _, _. split; [reflexivity|]. apply repeat_length.
Qed.

Lemma flat_model_profits_fitted labels :
  predicts_per_row (profits_model_predict Fixtures.flat_model) labels.
Proof.
  intros d _. eexists _, _. split; [reflexivity|]. apply repeat_length.
Qed.



(** The flat model scores the real offer and the null offer alike. *)
Lemma ties_go_to_the_first_candidate_witness :
  exists ids,
    getattr (cols Fixtures.portfolio1) "id" = Ok ids
    /\ [VStr "A"; VStr "no_offer"] = ids ++ [VStr "no_offer"]
    /\ forall k r,
         nth_error [[XScore.Fin 5; XScore.Fin 5]; [XScore.Fin 5; XScore.Fin 5]] k
         = Some r ->
         no_nan XScore.isnan r ->
         exists i,
           nth_error [Some (VStr "A"); Some (VStr "A")] k
           = Some (nth_error [VStr "A"; VStr "no_offer"] i)
           /\ first_max XScore.leb r i
           /\ forall j x s,
                j < length ids ->
                nth_error r j = Some x ->
                nth_error r (length ids) = Some s ->
                XScore.leb s x = true ->
                i < length ids
                /\ nth_error [Some (VStr "A"); Some (VStr "A")] k
                   = Some (nth_error ids i).
Proof.
  apply (ties_go_to_the_first_candidate XScore.t XScore.mul XScore.leb
           XScore.isnan XScore.NaN XScore.NInf XScore_leb_total XScore_leb_trans
           Fixtures.flat_model 0 1 [Fixtures.X; Fixtures.portfolio1]
           [Some (VStr "A"); Some (VStr "A")]
           (mkScores [VStr "A"; VStr "no_offer"]
              [[XScore.Fin 5; XScore.Fin 5]; [XScore.Fin 5; XScore.Fin 5]])).
  - simpl. lia.
  - reflexivity.
  - reflexivity.
  - reflexivity.
Defined.

(** C2, as the claim words it, fails: under the flat model the real offer
    "A" and the sentinel score 5 for both customers, an exact tie with no
    other candidate, and the offer chosen is "A", not "no_offer". *)
Lemma tie_with_null_offer_goes_to_the_offer :
  exists chosen t,
    fst (Fixtures.choose Fixtures.flat_model Fixtures.X Fixtures.portfolio1)
    = Ok (chosen, t)
    /\ st_columns t = [VStr "A"; VStr "no_offer"]
    /\ nth_error (st_rows t) 0 = Some [XScore.Fin 5; XScore.Fin 5]
    /\ nth_error chosen 0 = Some (Some (VStr "A"))
    /\ nth_error chosen 0 <> Some (Some (VStr "no_offer")).
Proof.
  exists [Some (VStr "A"); Some (VStr "A")],
         (mkScores [VStr "A"; VStr "no_offer"]
            [[XScore.Fin 5; XScore.Fin 5]; [XScore.Fin 5; XScore.Fin 5]]).
  repeat split; try reflexivity. discriminate.
Qed.

(* ================================================================== *)
(** * Further properties *)

(* ================================================================== *)
(** ** [fill_null_offer]: failures, well-formedness, repeated calls *)

Lemma getitem_list_cols_missing df cs :
  has_columns df cs = false -> getitem_list_cols df cs = Raise KeyError.
Proof.
  induction cs as [|c cs IH]; simpl; [discriminate|].
  intros H. unfold getitem. unfold columns in H. rewrite mem_lookup in H.
  destruct (lookup c (cols df)) as [l|]; [|reflexivity].
  simpl in H. simpl. rewrite (IH H). reflexivity.
Qed.

(** If a profit-block column is missing, [fill_null_offer] raises
    [KeyError] at its first statement and the dataset is left as it was. *)
Theorem fill_null_offer_missing_profit_column r h :
  has_columns (nth r h empty_frame) PROFIT_COLS = false ->
  fill_null_offer r h = (Raise KeyError, h).
Proof.
  intros H. rewrite fill_null_offer_unfold.
  unfold bind, get, lift, getitem_list.
  now rewrite (getitem_list_cols_missing _ _ H).
Qed.

(** The raw fixture without its [reward_t] column. *)
Lemma fill_null_offer_missing_profit_column_witness :
  fill_null_offer 0
    [mkDF 2 (filter (fun c => negb (String.eqb (fst c) "reward_t"))
               (cols Fixtures.raw_data))]
  = (Raise KeyError,
     [mkDF 2 (filter (fun c => negb (String.eqb (fst c) "reward_t"))
                (cols Fixtures.raw_data))]).
Proof.
  apply (fill_null_offer_missing_profit_column 0
           [mkDF 2 (filter (fun c => negb (String.eqb (fst c) "reward_t"))
                      (cols Fixtures.raw_data))]).
  reflexivity.
Defined.

Lemma setitem_pairs_view p data sub :
  map fst sub = PROFIT_COLS ->
  In p PROFIT_COLS ->
  lookup (format2 p VIEWCOL_LABEL) (cols (setitem_pairs data (combine VIEW_COLS sub)))
  = lookup p sub.
Proof.
  intros Hfst Hp.
  destruct (map_fst_length9 _ Hfst) as (a1&a2&a3&a4&a5&a6&a7&a8&a9&Es).
  rewrite lookup_setitem_pairs. subst sub.
  unfold PROFIT_COLS, Z_COLS in Hp. simpl in Hp.
  repeat (destruct Hp as [Hp|Hp]; [subst p; reflexivity|]).
  destruct Hp.
Qed.

Lemma setitem_pairs_other c data sub :
  map fst sub = PROFIT_COLS ->
  mem c VIEW_COLS = false ->
  lookup c (cols (setitem_pairs data (combine VIEW_COLS sub))) = lookup c (cols data).
Proof.
  intros Hfst Hc. rewrite lookup_setitem_pairs.
  rewrite lookup_not_mem; [reflexivity|].
  rewrite map_rev. apply mem_false_In. intros Hin. apply in_rev in Hin.
  apply mem_false_In in Hc. apply Hc.
  destruct (map_fst_length9 _ Hfst) as (a1&a2&a3&a4&a5&a6&a7&a8&a9&Es).
  subst sub. exact Hin.
Qed.

(** If the profit block is there but [viewed] is not, [fill_null_offer]
    raises [KeyError] only after its first statement has run: the dataset
    is left with the view block written (each view-block column a copy of
    its profit-block column) and nothing else changed. *)
Theorem fill_null_offer_missing_viewed r h :
  r < length h ->
  has_columns (nth r h empty_frame) PROFIT_COLS = true ->
  has_columns (nth r h empty_frame) ["viewed"] = false ->
  let data := nth r h empty_frame in
  let left := nth r (snd (fill_null_offer r h)) empty_frame in
  fst (fill_null_offer r h) = Raise KeyError
  /\ (forall p, In p PROFIT_COLS ->
        lookup (format2 p VIEWCOL_LABEL) (cols left) = lookup p (cols data))
  /\ (forall c, mem c VIEW_COLS = false ->
        lookup c (cols left) = lookup c (cols data)).
Proof.
  intros Hr Hcols Hviewed data left.
  destruct (getitem_list_cols_ok _ _ Hcols) as [sub [Hsub [Hfst Hlk]]].
  fold data in Hsub, Hlk.
  destruct (map_fst_length9 _ Hfst) as (a1&a2&a3&a4&a5&a6&a7&a8&a9&Es).
  assert (Hnone : lookup "viewed" (cols data) = None).
  { apply lookup_not_mem. unfold has_columns in Hviewed. simpl in Hviewed.
    now rewrite andb_true_r in Hviewed. }
  assert (Hrun : fill_null_offer r h
                 = (Raise KeyError,
                    update r (setitem_pairs data (combine VIEW_COLS sub)) h)).
  { rewrite fill_null_offer_unfold.
    unfold bind, get, put, lift, ret, getitem_list, setitem_list.
    fold data. rewrite Hsub. simpl rbind. cbv beta iota.
    change (cols (mkDF (nrows data) sub)) with sub.
    replace (Nat.eqb (length sub) (length VIEW_COLS)) with true
      by (rewrite Es; reflexivity).
    rewrite nth_update_same by assumption.
    unfold getitem.
    rewrite (setitem_pairs_other "viewed" data sub Hfst eq_refl), Hnone.
    reflexivity. }
  unfold left. rewrite Hrun. cbn [fst snd].
  rewrite nth_update_same by assumption.
  split; [reflexivity|]. split.
  - intros p Hp. rewrite (setitem_pairs_view p data sub Hfst Hp). now apply Hlk.
  - intros c Hc. now apply setitem_pairs_other.
Qed.

(** The raw fixture without its [viewed] column. *)
Lemma fill_null_offer_missing_viewed_witness :
  let data := mkDF 2 (filter (fun c => negb (String.eqb (fst c) "viewed"))
                        (cols Fixtures.raw_data)) in
  let left := nth 0 (snd (fill_null_offer 0 [data])) empty_frame in
  fst (fill_null_offer 0 [data]) = Raise KeyError
  /\ (forall p, In p PROFIT_COLS ->
        lookup (format2 p VIEWCOL_LABEL) (cols left) = lookup p (cols data))
  /\ (forall c, mem c VIEW_COLS = false ->
        lookup c (cols left) = lookup c (cols data)).
Proof.
  apply (fill_null_offer_missing_viewed 0
           [mkDF 2 (filter (fun c => negb (String.eqb (fst c) "viewed"))
                      (cols Fixtures.raw_data))]).
  - simpl. lia.
  - reflexivity.
  - reflexivity.
Defined.

Lemma NoDup_nodupb l : NoDup l -> nodupb l = true.
Proof.
  induction 1 as [|c l Hc _ IH]; simpl; [reflexivity|].
  rewrite IH, andb_true_r. apply negb_true_iff. now apply mem_false_In.
Qed.

Lemma wf_table_iff d :
  wf_table d = true
  <-> NoDup (columns d) /\ Forall (fun c => length (snd c) = nrows d) (cols d).
Proof.
  unfold wf_table. rewrite andb_true_iff, Forall_forall, forallb_forall. split.
  - intros [Hn Hl]. split; [now apply nodupb_NoDup|].
    intros c Hc. apply Nat.eqb_eq. now apply Hl.
  - intros [Hn Hl]. split; [now apply NoDup_nodupb|].
    intros c Hc. apply Nat.eqb_eq. now apply Hl.
Qed.

Lemma set_col_append c l cs :
  mem c (map fst cs) = false -> map fst (set_col c l cs) = map fst cs ++ [c].
Proof.
  induction cs as [|[k old] cs IH]; simpl; [reflexivity|].
  destruct (String.eqb c k) eqn:E; simpl; [discriminate|].
  intros H. f_equal. now apply IH.
Qed.

Lemma set_col_NoDup c l cs :
  NoDup (map fst cs) -> NoDup (map fst (set_col c l cs)).
Proof.
  intros H. destruct (mem c (map fst cs)) eqn:E.
  - now rewrite set_col_columns.
  - rewrite set_col_append by assumption.
    apply NoDup_app; [assumption | repeat constructor; intros [] |].
    intros x Hx [Hc|[]]. subst x. apply mem_false_In in E. contradiction.
Qed.

Lemma set_col_Forall (P : string * list value -> Prop) c l cs :
  Forall P cs -> (forall k, P (k, l)) -> Forall P (set_col c l cs).
Proof.
  intros H Hl. induction H as [|[k old] cs Hk Hcs IH]; simpl.
  - repeat constructor. apply Hl.
  - destruct (String.eqb c k); constructor; auto.
Qed.

Lemma wf_setitem d c l :
  wf_table d = true -> length l = nrows d -> wf_table (setitem d c l) = true.
Proof.
  rewrite !wf_table_iff. intros [Hn Hl] Hlen. unfold setitem, columns. simpl. split.
  - now apply set_col_NoDup.
  - now apply set_col_Forall.
Qed.

Lemma wf_setitem_pairs kv : forall d,
  wf_table d = true ->
  Forall (fun x => length (snd (snd x)) = nrows d) kv ->
  wf_table (setitem_pairs d kv) = true.
Proof.
  induction kv as [|[k1 [k2 l]] kv IH]; intros d Hwf Hkv; simpl; [assumption|].
  inversion Hkv as [|? ? Hl Hrest]. subst. simpl in Hl.
  apply IH; [now apply wf_setitem | exact Hrest].
Qed.

Lemma wf_loc_set_label d m c v l :
  wf_table d = true -> lookup c (cols d) = Some l ->
  wf_table (loc_set_label d m c v) = true.
Proof.
  intros Hwf Hl. unfold loc_set_label. rewrite Hl.
  apply wf_setitem; [assumption|].
  rewrite where_set_length. exact (wf_column_length d c l Hwf Hl).
Qed.

Lemma wf_loc_set_colmask d m cm v :
  wf_table d = true -> wf_table (loc_set_colmask d m cm v) = true.
Proof.
  rewrite !wf_table_iff. intros [Hn Hl]. unfold loc_set_colmask, columns. simpl.
  rewrite colmask_columns. split; [assumption|].
  revert cm. induction Hl as [|[k l] cs Hk Hcs IH]; intros cm.
  - destruct cm; constructor.
  - destruct cm as [|b cm]; simpl.
    + constructor; assumption.
    + constructor; [|apply IH].
      simpl in *. destruct b; [now rewrite where_set_length | assumption].
Qed.

Lemma setitem_pairs_columns kv : forall d,
  NoDup (map fst kv) ->
  (forall c, In c (map fst kv) -> mem c (columns d) = false) ->
  columns (setitem_pairs d kv) = columns d ++ map fst kv.
Proof.
  induction kv as [|[k1 [k2 l]] kv IH]; intros d Hnd Hnew; simpl.
  - now rewrite app_nil_r.
  - inversion Hnd as [|? ? Hk Hnd']. subst.
    assert (E : columns (setitem d k1 l) = columns d ++ [k1]).
    { unfold columns, setitem. simpl. apply set_col_append. apply Hnew. now left. }
    rewrite IH; [rewrite E, <- app_assoc; reflexivity | assumption |].
    intros c Hc. rewrite E. apply mem_false_In. intros Hin.
    apply in_app_or in Hin. destruct Hin as [Hin|[->|[]]].
    + apply mem_In in Hin. rewrite Hnew in Hin by now right. discriminate.
    + contradiction.
Qed.

Lemma loc_set_label_nrows d m c v : nrows (loc_set_label d m c v) = nrows d.
Proof. unfold loc_set_label. now destruct (lookup c (cols d)). Qed.

Lemma NoDup_PROFIT_COLS : NoDup PROFIT_COLS.
Proof.
  unfold PROFIT_COLS, Z_COLS. simpl.
  repeat (constructor; [simpl; intros H;
                        repeat (destruct H as [H|H]; [discriminate H|]);
                        exact H|]).
  constructor.
Qed.

(** The table [fill_null_offer] leaves behind is well formed. *)
Lemma fill_frame_wf data sub viewed :
  wf_table data = true ->
  has_columns data PROFIT_COLS = true ->
  map fst sub = PROFIT_COLS ->
  (forall c, In c PROFIT_COLS -> lookup c sub = lookup c (cols data)) ->
  wf_table (fill_frame data sub viewed) = true
  /\ nrows (fill_frame data sub viewed) = nrows data
  /\ (forallb (fun c => negb (mem c (columns data))) VIEW_COLS = true ->
      columns (fill_frame data sub viewed) = columns data ++ VIEW_COLS).
Proof.
  intros Hwf Hcols Hfst Hsub.
  set (d1 := setitem_pairs data (combine VIEW_COLS sub)).
  assert (Hkeys : map fst (combine VIEW_COLS sub) = VIEW_COLS).
  { apply map_fst_combine.
    rewrite <- (length_map fst sub), Hfst. reflexivity. }
  assert (Hw1 : wf_table d1 = true).
  { apply wf_setitem_pairs; [assumption|].
    apply Forall_forall. intros [k1 [k2 l]] Hin. simpl.
    apply in_combine_r in Hin.
    assert (Hk2 : In k2 PROFIT_COLS).
    { rewrite <- Hfst. apply in_map_iff. exists (k2, l). split; [reflexivity|assumption]. }
    assert (Hl : lookup k2 sub = Some l).
    { apply lookup_nodup; [|assumption].
      rewrite Hfst. exact NoDup_PROFIT_COLS. }
    rewrite (Hsub k2 Hk2) in Hl. exact (wf_column_length data k2 l Hwf Hl). }
  destruct (has_columns_lookup data PROFIT_COLS "offer_id" Hcols) as [lid Hlid];
    [unfold PROFIT_COLS; simpl; tauto|].
  destruct (has_columns_lookup data PROFIT_COLS "offer_type" Hcols) as [lty Hlty];
    [unfold PROFIT_COLS; simpl; tauto|].
  set (m := eq_zero_mask viewed).
  set (d2 := loc_set_label d1 m "offer_id" (VStr "no_offer")).
  assert (Hl1 : lookup "offer_id" (cols d1) = Some lid).
  { unfold d1. now rewrite (setitem_pairs_other "offer_id" data sub Hfst eq_refl). }
  assert (Hw2 : wf_table d2 = true) by (eapply wf_loc_set_label; eassumption).
  assert (Hl2 : lookup "offer_type" (cols d2) = Some lty).
  { unfold d2. rewrite lookup_loc_set_label. simpl String.eqb. cbv iota.
    unfold d1. now rewrite (setitem_pairs_other "offer_type" data sub Hfst eq_refl). }
  set (d3 := loc_set_label d2 m "offer_type" (VStr "no_offer")).
  assert (Hw3 : wf_table d3 = true) by (eapply wf_loc_set_label; eassumption).
  change (fill_frame data sub viewed)
    with (loc_set_colmask d3 m (columns_isin d3 Z_COLS) (VInt 0)).
  split; [now apply wf_loc_set_colmask|]. split.
  - change (nrows (loc_set_colmask d3 m (columns_isin d3 Z_COLS) (VInt 0)))
      with (nrows d3).
    unfold d3, d2. rewrite !loc_set_label_nrows.
    unfold d1. apply setitem_pairs_nrows.
  - intros Hnew. unfold loc_set_colmask, columns at 1. simpl cols.
    rewrite colmask_columns. fold (columns d3).
    assert (Hc3 : columns d3 = columns d2).
    { unfold d3, loc_set_label. rewrite Hl2. unfold columns, setitem. simpl.
      apply set_col_columns. rewrite mem_lookup, Hl2. reflexivity. }
    assert (Hc2 : columns d2 = columns d1).
    { unfold d2, loc_set_label. rewrite Hl1. unfold columns, setitem. simpl.
      apply set_col_columns. rewrite mem_lookup, Hl1. reflexivity. }
    rewrite Hc3, Hc2. unfold d1. rewrite setitem_pairs_columns.
    + now rewrite Hkeys.
    + rewrite Hkeys. exact NoDup_VIEW_COLS.
    + rewrite Hkeys. intros c Hc. rewrite forallb_forall in Hnew.
      apply negb_true_iff. now apply Hnew.
Qed.

Lemma fill_null_offer_keeps_wf r h :
  r < length h ->
  wf_table (nth r h empty_frame) = true ->
  has_columns (nth r h empty_frame) PROFIT_COLS = true ->
  has_columns (nth r h empty_frame) ["viewed"] = true ->
  wf_table (nth r (snd (fill_null_offer r h)) empty_frame) = true
  /\ nrows (nth r (snd (fill_null_offer r h)) empty_frame)
     = nrows (nth r h empty_frame).
Proof.
  intros Hr Hwf Hcols Hviewed.
  destruct (has_columns_lookup _ _ "viewed" Hviewed) as [viewed Hv]; [now left|].
  destruct (fill_null_offer_run r h viewed Hr Hcols Hv)
    as [sub [_ [Hfst [Hsub Hrun]]]].
  rewrite Hrun. cbn [snd]. rewrite nth_update_same by assumption.
  destruct (fill_frame_wf _ sub viewed Hwf Hcols Hfst Hsub) as [H1 [H2 _]].
  now split.
Qed.

(** [fill_null_offer] keeps the dataset well formed (labels unique, one
    cell per row in every column) with as many rows as before; on a dataset
    that has no view-block column yet, the columns afterwards are the old
    ones in their order followed by the view block. *)
Theorem fill_null_offer_keeps_well_formed r h :
  r < length h ->
  wf_table (nth r h empty_frame) = true ->
  has_columns (nth r h empty_frame) PROFIT_COLS = true ->
  has_columns (nth r h empty_frame) ["viewed"] = true ->
  let data := nth r h empty_frame in
  let filled := nth r (snd (fill_null_offer r h)) empty_frame in
  wf_table filled = true
  /\ nrows filled = nrows data
  /\ (forallb (fun c => negb (mem c (columns data))) VIEW_COLS = true ->
      columns filled = columns data ++ VIEW_COLS).
Proof.
  intros Hr Hwf Hcols Hviewed data filled.
  destruct (has_columns_lookup _ _ "viewed" Hviewed) as [viewed Hv]; [now left|].
  destruct (fill_null_offer_run r h viewed Hr Hcols Hv)
    as [sub [_ [Hfst [Hsub Hrun]]]].
  unfold filled. rewrite Hrun. cbn [snd].
  rewrite nth_update_same by assumption.
  now apply fill_frame_wf.
Qed.

Lemma fill_null_offer_keeps_well_formed_witness :
  let filled := nth 0 (snd (fill_null_offer 0 [Fixtures.raw_data])) empty_frame in
  wf_table filled = true
  /\ nrows filled = nrows Fixtures.raw_data
  /\ (forallb (fun c => negb (mem c (columns Fixtures.raw_data))) VIEW_COLS = true ->
      columns filled = columns Fixtures.raw_data ++ VIEW_COLS).
Proof.
  apply (fill_null_offer_keeps_well_formed 0 [Fixtures.raw_data]).
  - simpl. lia.
  - reflexivity.
  - reflexivity.
  - reflexivity.
Defined.

(** [fill_null_offer] is not idempotent.  Called a second time on the same
    dataset it succeeds again, and in every row with [viewed == 0] it
    overwrites the view block with the nulled profit block: the record of
    the offer that was sent ("no_offer" for identity and type, zero for the
    numeric columns) is lost. *)
Theorem fill_null_offer_twice_erases_view_block r h i v :
  r < length h ->
  wf_table (nth r h empty_frame) = true ->
  has_columns (nth r h empty_frame) PROFIT_COLS = true ->
  cell (nth r h empty_frame) "viewed" i = Some v ->
  eq_zero v = true ->
  let once := snd (fill_null_offer r h) in
  let twice := nth r (snd (fill_null_offer r once)) empty_frame in
  fst (fill_null_offer r once) = Ok (r, VIEW_COLS, PROFIT_COLS)
  /\ cell twice (format2 "offer_id" VIEWCOL_LABEL) i = Some (VStr "no_offer")
  /\ cell twice (format2 "offer_type" VIEWCOL_LABEL) i = Some (VStr "no_offer")
  /\ forall c, In c Z_COLS ->
       cell twice (format2 c VIEWCOL_LABEL) i = Some (VInt 0).
Proof.
  intros Hr Hwf Hcols Hv Hz once twice.
  assert (Hviewed : has_columns (nth r h empty_frame) ["viewed"] = true).
  { unfold has_columns. simpl. rewrite andb_true_r. unfold columns.
    rewrite mem_lookup. unfold cell in Hv.
    now destruct (lookup "viewed" (cols (nth r h empty_frame))). }
  destruct (fill_null_offer_cells r h i v Hr Hwf Hcols Hv)
    as [_ [Hsnd [Hother [_ [Hcolumns Hsome]]]]].
  destruct (fill_null_offer_keeps_wf r h Hr Hwf Hcols Hviewed) as [Hwf1 _].
  fold once in Hsnd, Hother, Hcolumns, Hwf1.
  set (filled := nth r once empty_frame) in *.
  rewrite Hz in Hother.
  assert (Hr1 : r < length once).
  { rewrite Hsnd, update_length. exact Hr. }
  assert (Hcols1 : has_columns filled PROFIT_COLS = true).
  { unfold has_columns. apply forallb_forall. intros c Hc.
    rewrite Hcolumns. apply orb_true_iff. left.
    unfold has_columns in Hcols. rewrite forallb_forall in Hcols. now apply Hcols. }
  assert (Hv1 : cell filled "viewed" i = Some v).
  { rewrite (Hother "viewed" eq_refl), Hv. reflexivity. }
  destruct (fill_null_offer_cells r once i v Hr1 Hwf1 Hcols1 Hv1)
    as [Hret [_ [_ [Hview _]]]].
  fold filled in Hview. fold twice in Hview.
  assert (Hin : forall c, In c PROFIT_COLS ->
            cell twice (format2 c VIEWCOL_LABEL) i
            = match cell (nth r h empty_frame) c i with
              | Some x => Some (if mem c ["offer_id"; "offer_type"]
                                then VStr "no_offer"
                                else if mem c Z_COLS then VInt 0 else x)
              | None => None
              end).
  { intros c Hc. rewrite (Hview c Hc). apply Hother. now apply profit_col_not_view. }
  split; [exact Hret|]. split; [|split].
  - rewrite (Hin "offer_id") by (unfold PROFIT_COLS; simpl; tauto).
    destruct (Hsome "offer_id") as [x Hx]; [unfold PROFIT_COLS; simpl; tauto|].
    now rewrite Hx.
  - rewrite (Hin "offer_type") by (unfold PROFIT_COLS; simpl; tauto).
    destruct (Hsome "offer_type") as [x Hx]; [unfold PROFIT_COLS; simpl; tauto|].
    now rewrite Hx.
  - intros c Hc.
    assert (Hp : In c PROFIT_COLS) by (unfold PROFIT_COLS; apply in_or_app; now left).
    rewrite (Hin c Hp). destruct (Hsome c Hp) as [x Hx]. rewrite Hx.
    unfold Z_COLS in Hc. simpl in Hc.
    repeat (destruct Hc as [Hc|Hc]; [subst c; reflexivity|]). destruct Hc.
Qed.

Lemma fill_null_offer_twice_erases_view_block_witness :
  let once := snd (fill_null_offer 0 [Fixtures.raw_data]) in
  let twice := nth 0 (snd (fill_null_offer 0 once)) empty_frame in
  fst (fill_null_offer 0 once) = Ok (0, VIEW_COLS, PROFIT_COLS)
  /\ cell twice (format2 "offer_id" VIEWCOL_LABEL) 0 = Some (VStr "no_offer")
  /\ cell twice (format2 "offer_type" VIEWCOL_LABEL) 0 = Some (VStr "no_offer")
  /\ forall c, In c Z_COLS ->
       cell twice (format2 c VIEWCOL_LABEL) 0 = Some (VInt 0).
Proof.
  apply (fill_null_offer_twice_erases_view_block 0 [Fixtures.raw_data] 0 (VInt 0)).
  - simpl. lia.
  - reflexivity.
  - reflexivity.
  - reflexivity.
  - reflexivity.
Defined.

(* ================================================================== *)
(** ** [split_view_profit]: what the two tables hold *)

Lemma lookup_filter_keep (labels : list string) c (cs : list (string * list value)) :
  mem c labels = false ->
  lookup c (filter (fun x => negb (mem (fst x) labels)) cs) = lookup c cs.
Proof.
  intros Hc. induction cs as [|[k l] cs IH]; simpl; [reflexivity|].
  destruct (mem k labels) eqn:Hk; simpl.
  - destruct (String.eqb c k) eqn:E; [|exact IH].
    apply String.eqb_eq in E. subst k. congruence.
  - now rewrite IH.
Qed.

Lemma lookup_filter_dropped (labels : list string) c (cs : list (string * list value)) :
  mem c labels = true ->
  lookup c (filter (fun x => negb (mem (fst x) labels)) cs) = None.
Proof.
  intros Hc. apply lookup_not_mem. apply mem_false_In. intros Hin.
  apply in_map_iff in Hin. destruct Hin as [[k l] [Hk Hin]]. simpl in Hk. subst k.
  apply filter_In in Hin. simpl in Hin. rewrite Hc in Hin. destruct Hin. discriminate.
Qed.

Lemma in_combine_inj (vc pc : list string) k k' p :
  NoDup pc -> In (k, p) (combine vc pc) -> In (k', p) (combine vc pc) -> k = k'.
Proof.
  revert pc. induction vc as [|v vc IH]; intros [|q pc] Hnd H1 H2; simpl in *;
    try contradiction.
  inversion Hnd as [|? ? Hq Hnd']. subst.
  destruct H1 as [E1|H1], H2 as [E2|H2].
  - congruence.
  - inversion E1. subst. apply in_combine_r in H2. contradiction.
  - inversion E2. subst. apply in_combine_r in H1. contradiction.
  - eapply IH; eassumption.
Qed.

Lemma in_combine_nth (vc pc : list string) j v p :
  nth_error vc j = Some v -> nth_error pc j = Some p -> In (v, p) (combine vc pc).
Proof.
  revert vc pc. induction j as [|j IH]; intros [|a vc] [|b pc] Hv Hp;
    simpl in *; try discriminate.
  - inversion Hv. inversion Hp. now left.
  - right. now apply IH.
Qed.

Lemma dict_get_pair (vc pc : list string) k p :
  NoDup vc -> length vc = length pc ->
  In (k, p) (combine vc pc) -> dict_get k (combine vc pc) = Some p.
Proof.
  intros Hnd Hlen Hin. unfold dict_get. apply lookup_nodup.
  - rewrite map_rev. apply NoDup_rev. now rewrite map_fst_combine.
  - apply in_rev. now rewrite rev_involutive.
Qed.

Lemma lookup_renamed (ren : string -> string) k p (cs : list (string * list value)) :
  ren k = p ->
  (forall k', In k' (map fst cs) -> ren k' = p -> k' = k) ->
  lookup p (map (fun c => (ren (fst c), snd c)) cs) = lookup k cs.
Proof.
  intros Hk Hinj. induction cs as [|[k' l'] cs IH]; simpl; [reflexivity|].
  destruct (String.eqb k k') eqn:E.
  - apply String.eqb_eq in E. subst k'. now rewrite Hk, String.eqb_refl.
  - destruct (String.eqb p (ren k')) eqn:E'.
    + apply String.eqb_eq in E'. symmetry in E'.
      apply Hinj in E'; [|now left]. subst k'. now rewrite String.eqb_refl in E.
    + apply IH. intros k'' Hin. apply Hinj. now right.
Qed.

(** The view-side table presents, under each profit-block name, the data of
    the view-block column paired with it; every column outside the two
    blocks is the same in the input and in both outputs; the profit-side
    table is the input without its view-block columns. *)
Theorem split_view_profit_cells X vc pc h :
  X < length h ->
  NoDup vc ->
  NoDup pc ->
  length vc = length pc ->
  (forall c, In c vc -> ~ In c pc) ->
  has_columns (nth X h empty_frame) vc = true ->
  has_columns (nth X h empty_frame) pc = true ->
  let x := nth X h empty_frame in
  let x_view := nth (S (length h)) (snd (split_view_profit X vc pc h)) empty_frame in
  let x_profit :=
    nth (S (S (length h))) (snd (split_view_profit X vc pc h)) empty_frame in
  nrows x_view = nrows x
  /\ nrows x_profit = nrows x
  /\ (forall j v p, nth_error vc j = Some v -> nth_error pc j = Some p ->
        lookup p (cols x_view) = lookup v (cols x))
  /\ (forall c, ~ In c vc -> ~ In c pc ->
        lookup c (cols x_view) = lookup c (cols x))
  /\ (forall c, ~ In c vc -> lookup c (cols x_profit) = lookup c (cols x))
  /\ (forall c, In c vc -> lookup c (cols x_profit) = None).
Proof.
  intros HX Hndv Hndp Hlen Hdisj Hvc Hpc x x_view x_profit.
  destruct (drop_ok _ _ Hpc) as [dv Hdv]. destruct (drop_ok _ _ Hvc) as [xp Hxp].
  fold x in Hdv, Hxp.
  assert (Hrun := split_view_profit_run X vc pc h dv xp HX Hdv Hxp).
  assert (Ev : x_view = rename_columns dv (combine vc pc)).
  { unfold x_view. rewrite Hrun. cbn [snd]. rewrite app_nth2 by lia.
    replace (S (length h) - length h) with 1 by lia. reflexivity. }
  assert (Ep : x_profit = xp).
  { unfold x_profit. rewrite Hrun. cbn [snd]. rewrite app_nth2 by lia.
    replace (S (S (length h)) - length h) with 2 by lia. reflexivity. }
  assert (Edv : dv = mkDF (nrows x) (filter (fun c => negb (mem (fst c) pc)) (cols x))).
  { unfold drop in Hdv. destruct (forallb _ pc); [|discriminate]. congruence. }
  assert (Exp : xp = mkDF (nrows x) (filter (fun c => negb (mem (fst c) vc)) (cols x))).
  { unfold drop in Hxp. destruct (forallb _ vc); [|discriminate]. congruence. }
  set (ren := fun k => match dict_get k (combine vc pc) with
                       | Some p => p
                       | None => k
                       end).
  assert (Hkept : forall k', In k' (map fst (cols dv)) -> ~ In k' pc).
  { intros k' Hin. rewrite Edv in Hin. simpl in Hin.
    apply in_map_iff in Hin. destruct Hin as [[k l] [Hk Hin]]. simpl in Hk. subst k.
    apply filter_In in Hin. destruct Hin as [_ Hin]. simpl in Hin.
    now apply mem_false_In, negb_true_iff. }
  rewrite Ev, Ep. split; [now rewrite Edv|]. split; [now rewrite Exp|].
  split; [|split; [|split]].
  - intros j v p Hv Hp.
    pose proof (in_combine_nth vc pc j v p Hv Hp) as Hin.
    pose proof (dict_get_pair vc pc v p Hndv Hlen Hin) as Hget.
    assert (Hvnot : mem v pc = false).
    { apply mem_false_In. apply Hdisj. eapply nth_error_In; eassumption. }
    unfold rename_columns. cbn [cols].
    change (lookup p (map (fun c => (ren (fst c), snd c)) (cols dv))
            = lookup v (cols x)).
    rewrite (lookup_renamed ren v p).
    + rewrite Edv. simpl. now apply lookup_filter_keep.
    + unfold ren. now rewrite Hget.
    + intros k' Hk' Hren. unfold ren in Hren.
      destruct (dict_get k' (combine vc pc)) as [p'|] eqn:E.
      * subst p'. unfold dict_get in E. apply lookup_In, in_rev in E.
        symmetry. eapply in_combine_inj; eassumption.
      * subst k'. exfalso. apply (Hkept p Hk'). eapply nth_error_In; eassumption.
  - intros c Hcv Hcp.
    assert (Hnone : dict_get c (combine vc pc) = None).
    { destruct (dict_get c (combine vc pc)) as [p|] eqn:E; [|reflexivity].
      apply dict_get_In in E. tauto. }
    unfold rename_columns. cbn [cols].
    change (lookup c (map (fun c0 => (ren (fst c0), snd c0)) (cols dv))
            = lookup c (cols x)).
    rewrite (lookup_renamed ren c c).
    + rewrite Edv. simpl. apply lookup_filter_keep. now apply mem_false_In.
    + unfold ren. now rewrite Hnone.
    + intros k' Hk' Hren. unfold ren in Hren.
      destruct (dict_get k' (combine vc pc)) as [p'|] eqn:E; [|assumption].
      subst p'. apply dict_get_In in E. tauto.
  - intros c Hcv. rewrite Exp. simpl. apply lookup_filter_keep.
    now apply mem_false_In.
  - intros c Hcv. rewrite Exp. simpl. apply lookup_filter_dropped.
    now apply mem_In.
Qed.

Lemma split_view_profit_cells_witness :
  let x := Fixtures.X in
  let x_view :=
    nth 2 (snd (split_view_profit 0 VIEW_COLS PROFIT_COLS [Fixtures.X])) empty_frame in
  let x_profit :=
    nth 3 (snd (split_view_profit 0 VIEW_COLS PROFIT_COLS [Fixtures.X])) empty_frame in
  nrows x_view = nrows x
  /\ nrows x_profit = nrows x
  /\ (forall j v p, nth_error VIEW_COLS j = Some v -> nth_error PROFIT_COLS j = Some p ->
        lookup p (cols x_view) = lookup v (cols x))
  /\ (forall c, ~ In c VIEW_COLS -> ~ In c PROFIT_COLS ->
        lookup c (cols x_view) = lookup c (cols x))
  /\ (forall c, ~ In c VIEW_COLS -> lookup c (cols x_profit) = lookup c (cols x))
  /\ (forall c, In c VIEW_COLS -> lookup c (cols x_profit) = None).
Proof.
  apply (split_view_profit_cells 0 VIEW_COLS PROFIT_COLS [Fixtures.X]).
  - simpl. lia.
  - exact NoDup_VIEW_COLS.
  - exact NoDup_PROFIT_COLS.
  - reflexivity.
  - exact VIEW_PROFIT_disjoint.
  - reflexivity.
  - reflexivity.
Defined.

(* ================================================================== *)
(** ** The composite estimator: failures and the store *)

Lemma drop_missing x labels :
  has_columns x labels = false -> drop x labels = Raise KeyError.
Proof. unfold has_columns, drop. now intros ->. Qed.

Section EstimatorFailures.

Variable score : Type.
Variable smul : score -> score -> score.

Lemma np_mul_mismatch (a b : list score) :
  length a <> length b -> length a <> 1 -> length b <> 1 ->
  np_mul smul a b = Raise ValueError.
Proof.
  intros Hab Ha Hb. unfold np_mul.
  destruct (Nat.eqb (length a) (length b)) eqn:E;
    [apply Nat.eqb_eq in E; contradiction|].
  destruct a as [|x [|x' a]]; simpl in Ha; try congruence;
    destruct b as [|y [|y' b]]; simpl in Hb; try congruence; reflexivity.
Qed.

(** [predict] and [predict_profit_alone] both need the two blocks: if the
    table lacks a column of the profit block or of the view block, each
    raises [KeyError], whatever the pipelines are.  In particular
    [predict_profit_alone], which never reads the view block, still fails
    on a table without it. *)
Theorem estimator_requires_both_blocks (self : ProfitsPredictor score) X h :
  X < length h ->
  has_columns (nth X h empty_frame) (profit_cols self) = false
  \/ has_columns (nth X h empty_frame) (view_cols self) = false ->
  fst (predict smul self X h) = Raise KeyError
  /\ fst (predict_profit_alone self X h) = Raise KeyError.
Proof.
  intros HX Hmiss. unfold predict, predict_profit_alone, bind.
  destruct (has_columns (nth X h empty_frame) (profit_cols self)) eqn:Hp.
  - destruct Hmiss as [Hmiss|Hmiss]; [discriminate|].
    destruct (drop_ok _ _ Hp) as [dv Hdv].
    rewrite (split_view_profit_raise_view X _ _ h dv KeyError HX Hdv
               (drop_missing _ _ Hmiss)).
    now split.
  - rewrite (split_view_profit_raise_profit X _ _ h KeyError (drop_missing _ _ Hp)).
    now split.
Qed.

(** [predict], [predict_profit_alone] and [split_view_profit] leave every
    object that existed before the call as it was, their argument first of
    all, even when a pipeline modifies the table it is handed. *)
Theorem estimator_leaves_store (self : ProfitsPredictor score) X h vc pc r :
  r < length h ->
  nth r (snd (predict smul self X h)) empty_frame = nth r h empty_frame
  /\ nth r (snd (predict_profit_alone self X h)) empty_frame = nth r h empty_frame
  /\ nth r (snd (split_view_profit X vc pc h)) empty_frame = nth r h empty_frame.
Proof.
  intros Hr.
  destruct (frame_predict score smul (length h) self X h (le_n _)) as [_ [H1 _]].
  destruct (frame_predict_profit_alone score (length h) self X h (le_n _))
    as [_ [H2 _]].
  destruct (frame_split (length h) X vc pc h (le_n _)) as [_ [H3 _]].
  auto.
Qed.

(** [predict] has no recovery of its own.  When the split succeeds: an
    exception of the view classifier is the outcome of [predict], whatever
    the regressor would do; an exception of the regressor is the outcome of
    [predict] and of [predict_profit_alone]; and two arrays of different
    lengths, neither of length one, make [predict] raise [ValueError]. *)
Theorem predict_propagates_failures (self : ProfitsPredictor score) X h dv xp :
  X < length h ->
  drop (nth X h empty_frame) (profit_cols self) = Ok dv ->
  drop (nth X h empty_frame) (view_cols self) = Ok xp ->
  let xv := rename_columns dv (combine (view_cols self) (profit_cols self)) in
  (forall e xv',
     views_model_predict_proba self xv = (Raise e, xv') ->
     fst (predict smul self X h) = Raise e)
  /\ (forall proba xv' e xp',
        views_model_predict_proba self xv = (Ok proba, xv') ->
        profits_model_predict self xp = (Raise e, xp') ->
        fst (predict smul self X h) = Raise e)
  /\ (forall e xp',
        profits_model_predict self xp = (Raise e, xp') ->
        fst (predict_profit_alone self X h) = Raise e)
  /\ (forall proba xv' profits xp',
        views_model_predict_proba self xv = (Ok proba, xv') ->
        profits_model_predict self xp = (Ok profits, xp') ->
        length proba <> length profits ->
        length proba <> 1 -> length profits <> 1 ->
        fst (predict smul self X h) = Raise ValueError).
Proof.
  intros HX Hdv Hxp xv.
  assert (Hxv : nth (S (length h)) (h ++ [dv; xv; xp]) empty_frame = xv).
  { rewrite app_nth2 by lia.
    replace (S (length h) - length h) with 1 by lia. reflexivity. }
  assert (Hxp' : forall d, nth (S (S (length h)))
                             (update (S (length h)) d (h ++ [dv; xv; xp])) empty_frame
                           = xp).
  { intros d. rewrite nth_update_other by lia. rewrite app_nth2 by lia.
    replace (S (S (length h)) - length h) with 2 by lia. reflexivity. }
  split; [|split; [|split]].
  - intros e xv' Hviews. unfold predict, bind.
    rewrite (split_view_profit_run X _ _ h dv xp HX Hdv Hxp).
    unfold call. fold xv. rewrite Hxv, Hviews. reflexivity.
  - intros proba xv' e xp' Hviews Hprofits. unfold predict, bind.
    rewrite (split_view_profit_run X _ _ h dv xp HX Hdv Hxp).
    unfold call. fold xv. rewrite Hxv, Hviews, Hxp', Hprofits. reflexivity.
  - intros e xp' Hprofits.
    now rewrite (predict_profit_alone_run score self X h dv xp (Raise e) xp'
                   HX Hdv Hxp Hprofits).
  - intros proba xv' profits xp' Hviews Hprofits Hne H1 H2.
    rewrite (predict_run score smul self X h dv xp proba xv' profits xp'
               HX Hdv Hxp Hviews Hprofits).
    cbn [fst]. apply np_mul_mismatch; rewrite ?length_map; assumption.
Qed.

End EstimatorFailures.

(** The fixture table without its view block. *)
Lemma estimator_requires_both_blocks_witness :
  fst (predict XScore.mul Fixtures.model 0 [Fixtures.raw_data]) = Raise KeyError
  /\ fst (predict_profit_alone Fixtures.model 0 [Fixtures.raw_data]) = Raise KeyError.
Proof.
  apply (estimator_requires_both_blocks XScore.t XScore.mul Fixtures.model
           0 [Fixtures.raw_data]).
  - simpl. lia.
  - right. reflexivity.
Defined.

Lemma estimator_leaves_store_witness :
  nth 0 (snd (predict XScore.mul Fixtures.model 0 [Fixtures.X])) empty_frame
  = nth 0 [Fixtures.X] empty_frame
  /\ nth 0 (snd (predict_profit_alone Fixtures.model 0 [Fixtures.X])) empty_frame
     = nth 0 [Fixtures.X] empty_frame
  /\ nth 0 (snd (split_view_profit 0 VIEW_COLS PROFIT_COLS [Fixtures.X])) empty_frame
     = nth 0 [Fixtures.X] empty_frame.
Proof.
  apply (estimator_leaves_store XScore.t XScore.mul Fixtures.model
           0 [Fixtures.X] VIEW_COLS PROFIT_COLS 0).
  simpl. lia.
Defined.

(** [Fixtures.model] on a table without the customer's [age]: its profits
    pipeline raises. *)
Lemma predict_propagates_failures_witness :
  let x := mkDF 2 (filter (fun c => negb (String.eqb (fst c) "age"))
                     (cols Fixtures.X)) in
  let dv := mkDF 2 (filter (fun c => negb (mem (fst c) PROFIT_COLS)) (cols x)) in
  let xp := mkDF 2 (filter (fun c => negb (mem (fst c) VIEW_COLS)) (cols x)) in
  let xv := rename_columns dv (combine VIEW_COLS PROFIT_COLS) in
  (forall e xv',
     Fixtures.views_proba xv = (Raise e, xv') ->
     fst (predict XScore.mul Fixtures.model 0 [x]) = Raise e)
  /\ (forall proba xv' e xp',
        Fixtures.views_proba xv = (Ok proba, xv') ->
        Fixtures.profits xp = (Raise e, xp') ->
        fst (predict XScore.mul Fixtures.model 0 [x]) = Raise e)
  /\ (forall e xp',
        Fixtures.profits xp = (Raise e, xp') ->
        fst (predict_profit_alone Fixtures.model 0 [x]) = Raise e)
  /\ (forall proba xv' profits xp',
        Fixtures.views_proba xv = (Ok proba, xv') ->
        Fixtures.profits xp = (Ok profits, xp') ->
        length proba <> length profits ->
        length proba <> 1 -> length profits <> 1 ->
        fst (predict XScore.mul Fixtures.model 0 [x]) = Raise ValueError).
Proof.
  apply (predict_propagates_failures XScore.t XScore.mul Fixtures.model 0
           [mkDF 2 (filter (fun c => negb (String.eqb (fst c) "age"))
                      (cols Fixtures.X))]).
  - simpl. lia.
  - reflexivity.
  - reflexivity.
Defined.

(* ================================================================== *)
(** ** [predict_profit_with_offer] and [choose_offer]: malformed inputs *)

Lemma insert_item_length kv s : length (insert_item kv s) = S (length s).
Proof.
  induction s as [|y s IH]; simpl; [reflexivity|].
  destruct (String.leb (fst kv) (fst y)); simpl; [reflexivity | now rewrite IH].
Qed.

Lemma sort_index_length s : length (sort_index s) = length s.
Proof.
  induction s as [|y s IH]; simpl; [reflexivity|].
  now rewrite insert_item_length, IH.
Qed.

Lemma series_drop_shorter (s : Series) k :
  mem k (index s) = true ->
  length (filter (fun kv => negb (String.eqb (fst kv) k)) s) < length s.
Proof.
  induction s as [|[k' v] s IH]; simpl; [discriminate|].
  rewrite String.eqb_sym.
  destruct (String.eqb k' k) eqn:E; simpl.
  - intros _. apply Nat.lt_succ_r. apply filter_length_le.
  - intros H. apply -> Nat.succ_lt_mono. now apply IH.
Qed.

Section MalformedInputs.

Variable score : Type.
Variable smul : score -> score -> score.
Variable sleb : score -> score -> bool.
Variable sisnan : score -> bool.
Variable snan : score.
Variable sneginf : score.

(** With [drop_offer_id=True], [predict_profit_with_offer] cannot score an
    offer of nine fields: the offer loses its [id], eight values are left
    for the nine columns of a block, and the call raises [ValueError]
    ([KeyError] if the offer has no [id]) before anything is written to the
    copy of the customer table. *)
Theorem drop_offer_id_cannot_score (model : ProfitsPredictor score) data offer h :
  has_columns (nth data h empty_frame) VIEW_COLS = true ->
  length offer = 9 ->
  (mem "id" (index offer) = true ->
   predict_profit_with_offer smul model data offer true h
   = (Raise ValueError, h ++ [nth data h empty_frame]))
  /\ (mem "id" (index offer) = false ->
      predict_profit_with_offer smul model data offer true h
      = (Raise KeyError, h ++ [nth data h empty_frame])).
Proof.
  intros Hview Hlen. set (d := nth data h empty_frame) in *.
  split; intros Hid.
  - unfold predict_profit_with_offer.
    unfold bind at 1. unfold get at 1. cbv beta iota.
    unfold bind at 1. unfold new at 1. cbv beta iota.
    unfold bind at 1. unfold lift at 1. unfold series_drop. rewrite Hid.
    cbn [rbind]. cbv beta iota.
    unfold bind at 1. unfold get at 1. cbv beta iota. rewrite nth_new. fold d.
    unfold bind at 1. unfold lift at 1. unfold loc_set_all_rows.
    fold (has_columns d (sorted VIEW_COLS)).
    rewrite (has_columns_sorted d _ Hview). cbn [negb].
    rewrite !values_rename_index, index_values_length.
    pose proof (series_drop_shorter offer "id" Hid) as Hshort.
    unfold index at 1. rewrite length_map.
    destruct (Nat.eqb (length (sorted VIEW_COLS))
                (length (filter (fun kv => negb (String.eqb (fst kv) "id")) offer)))
      eqn:E.
    + apply Nat.eqb_eq in E. change (length (sorted VIEW_COLS)) with 9 in E. lia.
    + reflexivity.
  - unfold predict_profit_with_offer.
    unfold bind at 1. unfold get at 1. cbv beta iota.
    unfold bind at 1. unfold new at 1. cbv beta iota.
    unfold bind at 1. unfold lift at 1. unfold series_drop. rewrite Hid.
    reflexivity.
Qed.

(** [predict_profit_with_offer] rejects inputs it cannot substitute: a
    customer table without the view block raises [KeyError]; with the view
    block there, an offer whose number of fields is not nine raises
    [ValueError].  Either way nothing has been written: the store only
    gains the untouched copy. *)
Theorem predict_profit_with_offer_rejects (model : ProfitsPredictor score)
  data offer h :
  (has_columns (nth data h empty_frame) VIEW_COLS = false ->
   predict_profit_with_offer smul model data offer false h
   = (Raise KeyError, h ++ [nth data h empty_frame]))
  /\ (has_columns (nth data h empty_frame) VIEW_COLS = true ->
      length offer <> 9 ->
      predict_profit_with_offer smul model data offer false h
      = (Raise ValueError, h ++ [nth data h empty_frame])).
Proof.
  set (d := nth data h empty_frame).
  assert (Hsorted : forall b, has_columns d VIEW_COLS = b ->
                      has_columns d (sorted VIEW_COLS) = b).
  { intros [|] Hb; [now apply has_columns_sorted|].
    destruct (has_columns d (sorted VIEW_COLS)) eqn:E; [|reflexivity].
    assert (Ht : has_columns d VIEW_COLS = true); [|congruence].
    unfold has_columns in *. rewrite forallb_forall in E.
    apply forallb_forall. intros c Hc. apply E. now apply In_sorted. }
  split.
  - intros Hview. unfold predict_profit_with_offer.
    unfold bind at 1. unfold get at 1. cbv beta iota.
    unfold bind at 1. unfold new at 1. cbv beta iota.
    unfold bind at 1. unfold lift at 1. cbv beta iota.
    unfold bind at 1. unfold get at 1. cbv beta iota. rewrite nth_new. fold d.
    unfold bind at 1. unfold lift at 1. unfold loc_set_all_rows.
    fold (has_columns d (sorted VIEW_COLS)).
    rewrite (Hsorted false Hview). reflexivity.
  - intros Hview Hlen. unfold predict_profit_with_offer.
    unfold bind at 1. unfold get at 1. cbv beta iota.
    unfold bind at 1. unfold new at 1. cbv beta iota.
    unfold bind at 1. unfold lift at 1. cbv beta iota.
    unfold bind at 1. unfold get at 1. cbv beta iota. rewrite nth_new. fold d.
    unfold bind at 1. unfold lift at 1. unfold loc_set_all_rows.
    fold (has_columns d (sorted VIEW_COLS)).
    rewrite (Hsorted true Hview). cbn [negb].
    rewrite values_rename_index, index_values_length.
    unfold index at 1. rewrite length_map, sort_index_length.
    unfold rename_index. rewrite length_map.
    destruct (Nat.eqb (length (sorted VIEW_COLS)) (length offer)) eqn:E.
    + apply Nat.eqb_eq in E. change (length (sorted VIEW_COLS)) with 9 in E.
      congruence.
    + reflexivity.
Qed.

(** With [add_null_offer=True], a portfolio that does not have exactly nine
    columns makes [choose_offer] raise [ValueError] when it builds the null
    offer, before any candidate is scored: the store only gains the copy of
    the portfolio. *)
Theorem choose_offer_needs_nine_columns (model : ProfitsPredictor score)
  X portfolio h :
  length (columns (nth portfolio h empty_frame)) <> 9 ->
  choose_offer smul sleb sisnan snan sneginf model X portfolio true h
  = (Raise ValueError, h ++ [nth portfolio h empty_frame]).
Proof.
  intros Hlen. unfold choose_offer.
  unfold bind at 1. unfold get at 1. cbv beta iota.
  unfold bind at 1. unfold new at 1. cbv beta iota.
  unfold bind at 1.
  unfold bind at 1. unfold get at 1. cbv beta iota. rewrite nth_new.
  unfold bind at 1. unfold lift at 1. unfold mk_series.
  destruct (Nat.eqb (length null_offer_values)
              (length (columns (nth portfolio h empty_frame)))) eqn:E.
  - apply Nat.eqb_eq in E. change (length null_offer_values) with 9 in E.
    congruence.
  - reflexivity.
Qed.

End MalformedInputs.

Lemma drop_offer_id_cannot_score_witness :
  (mem "id" (index (row Fixtures.portfolio1 0)) = true ->
   predict_profit_with_offer XScore.mul Fixtures.model 0
     (row Fixtures.portfolio1 0) true [Fixtures.X]
   = (Raise ValueError, [Fixtures.X] ++ [nth 0 [Fixtures.X] empty_frame]))
  /\ (mem "id" (index (row Fixtures.portfolio1 0)) = false ->
      predict_profit_with_offer XScore.mul Fixtures.model 0
        (row Fixtures.portfolio1 0) true [Fixtures.X]
      = (Raise KeyError, [Fixtures.X] ++ [nth 0 [Fixtures.X] empty_frame])).
Proof.
  apply (drop_offer_id_cannot_score XScore.t XScore.mul Fixtures.model 0
           (row Fixtures.portfolio1 0) [Fixtures.X]).
  - reflexivity.
  - reflexivity.
Defined.

(** An offer of two fields against the fixture table: the second case. *)
Lemma predict_profit_with_offer_rejects_witness :
  predict_profit_with_offer XScore.mul Fixtures.model 0
    [("id", VStr "A"); ("offer_type", VStr "bogo")] false [Fixtures.X]
  = (Raise ValueError, [Fixtures.X] ++ [nth 0 [Fixtures.X] empty_frame]).
Proof.
  apply (proj2 (predict_profit_with_offer_rejects XScore.t XScore.mul
                  Fixtures.model 0
                  [("id", VStr "A"); ("offer_type", VStr "bogo")] [Fixtures.X])).
  - reflexivity.
  - simpl. lia.
Defined.

(** The customer table passed as portfolio: it has nineteen columns. *)
Lemma choose_offer_needs_nine_columns_witness :
  choose_offer XScore.mul XScore.leb XScore.isnan XScore.NaN XScore.NInf
    Fixtures.model 0 0 true [Fixtures.X]
  = (Raise ValueError, [Fixtures.X] ++ [nth 0 [Fixtures.X] empty_frame]).
Proof.
  apply (choose_offer_needs_nine_columns XScore.t XScore.mul XScore.leb
           XScore.isnan XScore.NaN XScore.NInf Fixtures.model 0 0 [Fixtures.X]).
  simpl. lia.
Defined.

(* ================================================================== *)
(** ** [choose_offer]: catalogs of any size, with or without the null offer *)

Lemma Forall2_map_seq {A B} (R : A -> B -> Prop) (f : nat -> A) (d : B) (l : list B) :
  forall s,
    (forall i, i < length l -> R (f (s + i)) (nth i l d)) ->
    Forall2 R (map f (seq s (length l))) l.
Proof.
  induction l as [|b l IH]; intros s H; simpl; constructor.
  - specialize (H 0 ltac:(simpl; lia)). now rewrite Nat.add_0_r in H.
  - apply IH. intros i Hi. specialize (H (S i) ltac:(simpl; lia)).
    now rewrite Nat.add_succ_r in H.
Qed.

Lemma map_snd_combine {A B} (a : list A) (b : list B) :
  length a = length b -> map snd (combine a b) = b.
Proof.
  revert b. induction a as [|x a IH]; intros [|y b] H; simpl in *;
    try reflexivity; try discriminate.
  f_equal. apply IH. lia.
Qed.

Lemma max_of_equal_lengths {A} (ys : list (list A)) n :
  ys <> [] -> Forall (fun y => length y = n) ys ->
  fold_right Nat.max 0 (map (@length A) ys) = n.
Proof.
  intros Hne H. induction H as [|y ys Hy Hys IH]; [congruence|].
  simpl. rewrite Hy. destruct ys as [|y' ys].
  - simpl. apply Nat.max_0_r.
  - rewrite IH by discriminate. apply Nat.max_id.
Qed.

Section AnyCatalog.

Variable score : Type.
Variable smul : score -> score -> score.
Variable sleb : score -> score -> bool.
Variable sisnan : score -> bool.
Variable snan : score.
Variable sneginf : score.

Lemma choose_offer_prefix_plain (model : ProfitsPredictor score) X portfolio h :
  choose_offer smul sleb sisnan snan sneginf model X portfolio false h
  = score_candidates smul sleb sisnan snan sneginf model X (length h)
      (h ++ [nth portfolio h empty_frame]).
Proof. reflexivity. Qed.

Lemma transpose_results_rows (ys : list (list score)) r :
  In r (transpose_results snan ys) -> ys <> [] /\ length r = length ys.
Proof.
  intros H. split; [|now apply (transpose_results_row_length score snan ys)].
  intros ->. unfold transpose_results in H. simpl in H. exact H.
Qed.

(** For a portfolio of any number of offers in the catalog layout and a
    fitted model, [choose_offer] with [add_null_offer=True] returns: the
    score table has one column per offer, labelled by the identities in
    catalog order, then the "no_offer" column; it has one row per customer,
    and one offer is chosen per customer. *)
Theorem choose_offer_table_shape (model : ProfitsPredictor score)
  X portfolio h dv xp :
  X < length h ->
  portfolio < length h ->
  wf_table (nth X h empty_frame) = true ->
  has_columns (nth X h empty_frame) VIEW_COLS = true ->
  has_columns (nth X h empty_frame) PROFIT_COLS = true ->
  drop (nth X h empty_frame) (profit_cols model) = Ok dv ->
  drop (nth X h empty_frame) (view_cols model) = Ok xp ->
  predicts_per_row (views_model_predict_proba model)
    (columns (rename_columns dv (combine (view_cols model) (profit_cols model)))) ->
  predicts_per_row (profits_model_predict model) (columns xp) ->
  wf_table (nth portfolio h empty_frame) = true ->
  portfolio_layout (nth portfolio h empty_frame) = true ->
  sorted (map std_label (columns (nth portfolio h empty_frame)))
  = sorted PROFIT_COLS ->
  exists ids rows chosen,
    getattr (cols (nth portfolio h empty_frame)) "id" = Ok ids
    /\ length ids = nrows (nth portfolio h empty_frame)
    /\ fst (choose_offer smul sleb sisnan snan sneginf model X portfolio true h)
       = Ok (chosen, mkScores (ids ++ [VStr "no_offer"]) rows)
    /\ length rows = nrows (nth X h empty_frame)
    /\ length chosen = nrows (nth X h empty_frame)
    /\ Forall (fun r => length r = S (length ids)) rows.
Proof.
  intros HX Hp Hwfx Hview Hprofit Hdv Hxp Hviews Hprofits Hwf Hlay Hfields.
  set (x := nth X h empty_frame) in *. set (p := nth portfolio h empty_frame) in *.
  pose proof (portfolio_layout_length p Hlay) as Hlen9.
  destruct (catalog_ids p Hwf Hlay) as [ids [Hids [Hlids Hcat]]].
  assert (Hlk : lookup "id" (cols p) = Some ids).
  { unfold getattr in Hids. destruct (lookup "id" (cols p)); congruence. }
  destruct (portfolio_layout_fields p Hlay) as [_ Hty].
  apply mem_In, lookup_mem in Hty. destruct Hty as [types Hty].
  destruct (null_offer_fields p Hwf Hlay) as [Hnid [Hnty _]].
  set (cp := complete_with_null p).
  set (h2 := h ++ [p; cp]).
  assert (Hl2 : length h2 = S (S (length h)))
    by (unfold h2; rewrite length_app; simpl; lia).
  assert (Hcp : nth (S (length h)) h2 empty_frame = cp).
  { unfold h2. rewrite app_nth2 by lia.
    replace (S (length h) - length h) with 1 by lia. reflexivity. }
  assert (Hx2 : nth X h2 empty_frame = x) by (unfold h2; now apply app_nth1).
  assert (Hrows2 : iter_rows cp
                   = iter_rows p ++ [combine (columns p) null_offer_values]).
  { unfold cp. now rewrite (iter_rows_complete p Hwf), (null_offer_row p Hwf Hlen9). }
  assert (Hscorable : Forall2 scorable (iter_rows cp) (ids ++ [VStr "no_offer"])).
  { rewrite Hrows2. apply Forall2_app.
    - unfold iter_rows. rewrite <- Hlids.
      apply (Forall2_map_seq scorable (row p) (VFloat PrimFloat.nan) ids 0).
      intros i Hi. simpl. split; [now rewrite index_row|].
      unfold getattr. rewrite !lookup_row, Hlk, Hty. simpl.
      split; [reflexivity | eauto].
    - constructor; [|constructor]. split.
      + unfold index. rewrite map_fst_combine; [exact Hfields|]. now rewrite Hlen9.
      + unfold getattr. rewrite Hnid, Hnty. split; [reflexivity | eauto]. }
  destruct (mapM_predict_profit_with_offer score smul model x dv xp
              Hview Hprofit Hdv Hxp Hviews Hprofits X _ _ h2
              ltac:(lia) Hx2 Hscorable)
    as [ys [h3 [Hrun [Hlys Hys]]]].
  rewrite <- Hcp in Hrun.
  assert (Hidcp : getattr (cols (nth (S (length h)) h2 empty_frame)) "id"
                  = Ok (ids ++ [VStr "no_offer"])).
  { rewrite Hcp. exact Hcat. }
  assert (Hlc : length (ids ++ [VStr "no_offer"])
                = length (combine (ids ++ [VStr "no_offer"]) ys)).
  { rewrite length_combine. lia. }
  pose proof (score_candidates_run score smul sleb sisnan snan sneginf
                model X (S (length h)) h2 _ h3 _ ltac:(lia) Hrun Hidcp Hlc)
    as Hfinal.
  rewrite (map_snd_combine _ ys (eq_sym Hlys)) in Hfinal.
  assert (Hne : ys <> []).
  { intros ->. rewrite length_app in Hlys. simpl in Hlys. lia. }
  assert (Hnrows : length (transpose_results snan ys) = nrows x).
  { unfold transpose_results.
    now rewrite length_map, length_seq, (max_of_equal_lengths ys (nrows x) Hne Hys). }
  exists ids, (transpose_results snan ys),
    (idxmax sleb sisnan sneginf
       (mkScores (ids ++ [VStr "no_offer"]) (transpose_results snan ys))).
  split; [exact Hids|]. split; [exact Hlids|]. split.
  { rewrite (choose_offer_prefix score smul sleb sisnan snan sneginf
               model X portfolio h Hlen9). exact Hfinal. }
  split; [exact Hnrows|].
  split; [unfold idxmax; cbn [st_rows]; now rewrite length_map|].
  apply Forall_forall. intros r Hr.
  rewrite (transpose_results_row_length score snan ys r Hr), Hlys, length_app.
  simpl. lia.
Qed.

End AnyCatalog.

Section PlainCatalog.

Variable score : Type.
Variable smul : score -> score -> score.
Variable sleb : score -> score -> bool.
Variable sisnan : score -> bool.
Variable snan : score.
Variable sneginf : score.

Hypothesis sleb_total :
  forall a b, sisnan a = false -> sisnan b = false ->
              sleb a b = true \/ sleb b a = true.
Hypothesis sleb_trans :
  forall a b c, sleb a b = true -> sleb b c = true -> sleb a c = true.

(** With [add_null_offer=False] there is no "do nothing" candidate: the
    columns of a returned score table are the identities of the portfolio
    and nothing else, and the offer chosen in a row that holds no NaN is
    the identity of a portfolio row, the first that attains the maximum. *)
Theorem choose_offer_without_null (model : ProfitsPredictor score)
  X portfolio h chosen t :
  portfolio < length h ->
  fst (choose_offer smul sleb sisnan snan sneginf model X portfolio false h)
  = Ok (chosen, t) ->
  exists ids,
    getattr (cols (nth portfolio h empty_frame)) "id" = Ok ids
    /\ st_columns t = ids
    /\ forall k r, nth_error (st_rows t) k = Some r -> no_nan sisnan r ->
         exists i,
           i < length ids
           /\ nth_error chosen k = Some (nth_error ids i)
           /\ first_max sleb r i.
Proof.
  intros Hp Hrun. set (p := nth portfolio h empty_frame) in *.
  rewrite choose_offer_prefix_plain in Hrun. fold p in Hrun.
  assert (Hlt : length h < length (h ++ [p])) by (rewrite length_app; simpl; lia).
  destruct (score_candidates_inv score smul sleb sisnan snan sneginf
              model X (length h) _ chosen t Hlt Hrun)
    as [ids [ys [Hids [Hlen [Ht Hchosen]]]]].
  rewrite nth_new in Hids.
  exists ids. split; [exact Hids|]. split; [now rewrite Ht|].
  intros k r Hr Hnan.
  assert (Hin : In r (transpose_results snan ys)).
  { rewrite Ht in Hr. cbn [st_rows] in Hr. eapply nth_error_In; eassumption. }
  destruct (transpose_results_rows score snan ys r Hin) as [Hne Hrlen].
  destruct (nanargmax_first_max score sleb sisnan sneginf sleb_total sleb_trans r)
    as [i [Hi Hfirst]];
    [intros ->; destruct ys; [congruence | discriminate] | assumption |].
  exists i. split; [|split].
  - destruct Hfirst as [y [Hy _]].
    assert (i < length r) by (apply nth_error_Some; congruence). lia.
  - rewrite Hchosen, (nth_error_idxmax score sleb sisnan sneginf t k r Hr), Hi, Ht.
    reflexivity.
  - exact Hfirst.
Qed.

End PlainCatalog.

(** The flat model on the fixture table and the two-offer catalog. *)
Lemma choose_offer_table_shape_witness :
  exists ids rows chosen,
    getattr (cols Fixtures.portfolio2) "id" = Ok ids
    /\ length ids = 2
    /\ fst (Fixtures.choose Fixtures.flat_model Fixtures.X Fixtures.portfolio2)
       = Ok (chosen, mkScores (ids ++ [VStr "no_offer"]) rows)
    /\ length rows = 2
    /\ length chosen = 2
    /\ Forall (fun r => length r = S (length ids)) rows.
Proof.
  eapply (choose_offer_table_shape XScore.t XScore.mul XScore.leb XScore.isnan
            XScore.NaN XScore.NInf Fixtures.flat_model 0 1
            [Fixtures.X; Fixtures.portfolio2]).
  - simpl. lia.
  - simpl. lia.
  - reflexivity.
  - reflexivity.
  - reflexivity.
  - reflexivity.
  - reflexivity.
  - apply flat_model_views_fitted.
  - apply flat_model_profits_fitted.
  - reflexivity.
  - reflexivity.
  - reflexivity.
Defined.

(** The flat model and the one-offer catalog, without the null offer. *)
Lemma choose_offer_without_null_witness :
  exists ids,
    getattr (cols Fixtures.portfolio1) "id" = Ok ids
    /\ [VStr "A"] = ids
    /\ forall k r,
         nth_error [[XScore.Fin 5]; [XScore.Fin 5]] k = Some r ->
         no_nan XScore.isnan r ->
         exists i,
           i < length ids
           /\ nth_error [Some (VStr "A"); Some (VStr "A")] k
              = Some (nth_error ids i)
           /\ first_max XScore.leb r i.
Proof.
  apply (choose_offer_without_null XScore.t XScore.mul XScore.leb XScore.isnan
           XScore.NaN XScore.NInf XScore_leb_total XScore_leb_trans
           Fixtures.flat_model 0 1 [Fixtures.X; Fixtures.portfolio1]
           [Some (VStr "A"); Some (VStr "A")]
           (mkScores [VStr "A"] [[XScore.Fin 5]; [XScore.Fin 5]])).
  - simpl. lia.
  - reflexivity.
Defined.

(* ================================================================== *)
(** ** [get_offers_ts]: the time series of active offers *)

Lemma offers_ts_loop_viewed delta rows : forall ts,
  offers_ts_loop delta true rows ts
  = offers_ts_loop delta false (filter (fun r => truthy (rc_viewed r)) rows) ts.
Proof.
  induction rows as [|r rows IH]; intros ts; [reflexivity|].
  cbn [offers_ts_loop filter]. unfold offers_ts_step at 1.
  destruct (truthy (rc_viewed r)).
  - cbn [offers_ts_loop]. unfold offers_ts_step at 1.
    destruct (ts_loc_set ts (rc_time r) (rc_time r + delta) (rc_offer_id r));
      simpl; [apply IH | reflexivity].
  - simpl. apply IH.
Qed.

(** With [viewed=True] the rows whose [viewed] field is falsy are skipped
    and nothing else changes: the result is that of the unfiltered call on
    the received rows that were viewed. *)
Theorem get_offers_ts_viewed_filters user_received offers data_time delta :
  get_offers_ts user_received offers data_time delta true
  = get_offers_ts (filter (fun r => truthy (rc_viewed r)) user_received)
      offers data_time delta false.
Proof.
  unfold get_offers_ts. now rewrite offers_ts_loop_viewed.
Qed.

Lemma get_loc_None label idx : get_loc label idx = None <-> ~ In label idx.
Proof.
  induction idx as [|t idx IH]; simpl; [tauto|].
  destruct (Z.eqb_spec t label) as [E|E].
  - split; [discriminate | intros H; exfalso; apply H; now left].
  - destruct (get_loc label idx) as [k|].
    + split; [discriminate|]. intros H. exfalso. apply H. right.
      destruct (proj1 IH) as []; try tauto.
      destruct (in_dec Z.eq_dec label idx) as [Hin|Hin]; [assumption|].
      apply IH in Hin. discriminate.
    + split; [|reflexivity]. intros _ [H|H]; [congruence|].
      now apply (proj1 IH).
Qed.

(** On a time index that is neither increasing nor decreasing, a label
    slice needs both its bounds among the labels: if the end of the first
    window that is written, [time + delta], is not a time of the transcript,
    [get_offers_ts] raises [KeyError]. *)
Theorem get_offers_ts_unsorted_index r rest offers data_time delta viewed :
  is_monotonic_increasing (unique data_time) = false ->
  is_monotonic_decreasing (unique data_time) = false ->
  (viewed = true -> truthy (rc_viewed r) = true) ->
  ~ In (rc_time r + delta)%Z (unique data_time) ->
  get_offers_ts (r :: rest) offers data_time delta viewed = Raise KeyError.
Proof.
  intros Hinc Hdec Hviewed Hend. unfold get_offers_ts. simpl offers_ts_loop.
  assert (Hstep : offers_ts_step delta viewed
                    (mkTs (unique data_time)
                       (map (fun o => (o, repeat (TsNum 0) (length (unique data_time))))
                          offers)) r
                  = Raise KeyError).
  { assert (Hset : forall ts, ts_index ts = unique data_time ->
               ts_loc_set ts (rc_time r) (rc_time r + delta) (rc_offer_id r)
               = Raise KeyError).
    { intros ts Hts. unfold ts_loc_set. rewrite Hts.
      assert (Hright : get_slice_bound (unique data_time) (rc_time r + delta) SideRight
                       = Raise KeyError).
      { unfold get_slice_bound. apply get_loc_None in Hend.
        now rewrite Hend, Hinc, Hdec. }
      unfold get_slice_bound at 1.
      destruct (get_loc (rc_time r) (unique data_time)).
      - simpl. now rewrite Hright.
      - now rewrite Hinc, Hdec. }
    unfold offers_ts_step. destruct viewed.
    - rewrite (Hviewed eq_refl). now apply Hset.
    - now apply Hset. }
  now rewrite Hstep.
Qed.

Lemma get_offers_ts_unsorted_index_witness :
  get_offers_ts (mkReceived 0 "A" (VInt 1) :: []) ["A"; "B"] [0; 12; 6]%Z 10 false
  = Raise KeyError.
Proof.
  apply (get_offers_ts_unsorted_index (mkReceived 0 "A" (VInt 1)) []
           ["A"; "B"] [0; 12; 6]%Z 10 false).
  - reflexivity.
  - reflexivity.
  - discriminate.
  - simpl. intros [H|[H|[H|H]]]; try discriminate H. exact H.
Defined.

Lemma unique_from_spec l : forall seen,
  NoDup (unique_from seen l)
  /\ forall t, In t (unique_from seen l) <-> In t l /\ ~ In t seen.
Proof.
  induction l as [|x l IH]; intros seen; simpl.
  - split; [constructor | intros t; tauto].
  - destruct (existsb (Z.eqb x) seen) eqn:E.
    + destruct (IH seen) as [Hnd Hin]. split; [exact Hnd|].
      intros t. rewrite Hin. split; [tauto|].
      intros [[Hx|Hl] Hs]; [|tauto]. exfalso. subst t.
      apply existsb_exists in E. destruct E as [y [Hy Hxy]].
      apply Z.eqb_eq in Hxy. subst y. contradiction.
    + destruct (IH (x :: seen)) as [Hnd Hin]. split.
      * constructor; [|exact Hnd]. intros H. apply Hin in H.
        destruct H as [_ H]. apply H. now left.
      * intros t. simpl. rewrite Hin. simpl. split.
        -- intros [Hx|[Hl Hs]].
           ++ subst t. split; [now left|]. intros Hs.
              assert (existsb (Z.eqb x) seen = true); [|congruence].
              apply existsb_exists. exists x. split; [exact Hs | apply Z.eqb_refl].
           ++ split; [now right | tauto].
        -- intros [[Hx|Hl] Hs]; [now left|].
           destruct (Z.eq_dec x t) as [Ext|Ext]; [now left|]. right. tauto.
Qed.

Lemma NoDup_unique l : NoDup (unique l).
Proof. apply unique_from_spec. Qed.

Lemma increasing_cons x l :
  is_monotonic_increasing (x :: l) = true -> NoDup (x :: l) ->
  Forall (Z.lt x) l /\ is_monotonic_increasing l = true /\ NoDup l.
Proof.
  revert x. induction l as [|y l IH]; intros x Hinc Hnd.
  - repeat split; constructor.
  - cbn [is_monotonic_increasing] in Hinc. apply andb_true_iff in Hinc.
    destruct Hinc as [Hxy Hinc]. apply Z.leb_le in Hxy.
    inversion Hnd as [|? ? Hx Hnd']. subst.
    destruct (IH y Hinc Hnd') as [Hall _].
    repeat split; try assumption.
    constructor.
    + assert (x <> y) by (intros E; apply Hx; now left). lia.
    + eapply Forall_impl; [|exact Hall]. simpl. intros; lia.
Qed.

Lemma filter_none {A} (f : A -> bool) l :
  Forall (fun t => f t = false) l -> filter f l = [].
Proof.
  induction 1 as [|x l Hx _ IH]; simpl; [reflexivity|]. now rewrite Hx.
Qed.

Lemma searchsorted_above l a sd :
  Forall (Z.lt a) l -> searchsorted l a sd = 0.
Proof.
  intros H. unfold searchsorted. rewrite filter_none; [reflexivity|].
  eapply Forall_impl; [|exact H]. simpl. intros t Ht.
  destruct sd; [apply Z.ltb_ge | apply Z.leb_gt]; lia.
Qed.

Lemma searchsorted_cons x l a sd :
  searchsorted (x :: l) a sd
  = (if match sd with SideLeft => Z.ltb x a | SideRight => Z.leb x a end
     then S (searchsorted l a sd) else searchsorted l a sd).
Proof.
  unfold searchsorted. simpl. now destruct sd; destruct (_ : bool).
Qed.

Lemma get_loc_In label idx k : get_loc label idx = Some k -> In label idx.
Proof.
  destruct (in_dec Z.eq_dec label idx) as [H|H]; [trivial|].
  apply get_loc_None in H. congruence.
Qed.

Lemma get_loc_searchsorted idx a : forall k,
  is_monotonic_increasing idx = true -> NoDup idx ->
  get_loc a idx = Some k ->
  k = searchsorted idx a SideLeft /\ S k = searchsorted idx a SideRight.
Proof.
  induction idx as [|x l IH]; intros k Hinc Hnd; simpl; [discriminate|].
  destruct (increasing_cons x l Hinc Hnd) as [Hall [Hinc' Hnd']].
  rewrite !searchsorted_cons.
  destruct (Z.eqb_spec x a) as [E|E].
  - intros H. inversion H. subst.
    rewrite Z.ltb_irrefl, Z.leb_refl, !searchsorted_above by assumption.
    split; reflexivity.
  - destruct (get_loc a l) as [k'|] eqn:Hk; [|discriminate].
    intros H. inversion H. subst k.
    destruct (IH k' Hinc' Hnd' eq_refl) as [Hl Hr].
    assert (Hxa : (x < a)%Z).
    { apply get_loc_In in Hk. rewrite Forall_forall in Hall. now apply Hall. }
    assert (E1 : Z.ltb x a = true) by (apply Z.ltb_lt; lia).
    assert (E2 : Z.leb x a = true) by (apply Z.leb_le; lia).
    rewrite E1, E2. split; congruence.
Qed.

Lemma get_slice_bound_increasing idx a sd :
  is_monotonic_increasing idx = true -> NoDup idx ->
  get_slice_bound idx a sd = Ok (searchsorted idx a sd).
Proof.
  intros Hinc Hnd. unfold get_slice_bound.
  destruct (get_loc a idx) as [k|] eqn:Hk.
  - destruct (get_loc_searchsorted idx a k Hinc Hnd Hk) as [Hl Hr].
    destruct sd; congruence.
  - now rewrite Hinc.
Qed.

Lemma left_bound_le idx a : forall i t,
  is_monotonic_increasing idx = true -> NoDup idx ->
  nth_error idx i = Some t ->
  Nat.leb (searchsorted idx a SideLeft) i = Z.leb a t.
Proof.
  induction idx as [|x l IH]; intros i t Hinc Hnd Hi; [now destruct i|].
  destruct (increasing_cons x l Hinc Hnd) as [Hall [Hinc' Hnd']].
  rewrite searchsorted_cons.
  destruct i as [|i]; simpl in Hi.
  - inversion Hi. subst x. destruct (Z.ltb_spec t a) as [E|E].
    + simpl. symmetry. apply Z.leb_gt. lia.
    + rewrite searchsorted_above.
      * simpl. symmetry. apply Z.leb_le. lia.
      * eapply Forall_impl; [|exact Hall]. simpl. intros; lia.
  - assert (Hxt : (x < t)%Z).
    { rewrite Forall_forall in Hall. apply Hall. eapply nth_error_In; eassumption. }
    destruct (Z.ltb_spec x a) as [E|E].
    + simpl. now apply IH.
    + rewrite searchsorted_above.
      * simpl. symmetry. apply Z.leb_le. lia.
      * eapply Forall_impl; [|exact Hall]. simpl. intros; lia.
Qed.

Lemma right_bound_lt idx b : forall i t,
  is_monotonic_increasing idx = true -> NoDup idx ->
  nth_error idx i = Some t ->
  Nat.ltb i (searchsorted idx b SideRight) = Z.leb t b.
Proof.
  induction idx as [|x l IH]; intros i t Hinc Hnd Hi; [now destruct i|].
  destruct (increasing_cons x l Hinc Hnd) as [Hall [Hinc' Hnd']].
  rewrite searchsorted_cons.
  destruct i as [|i]; simpl in Hi.
  - inversion Hi. subst x. destruct (Z.leb_spec t b) as [E|E].
    + reflexivity.
    + rewrite searchsorted_above; [reflexivity|].
      eapply Forall_impl; [|exact Hall]. simpl. intros; lia.
  - assert (Hxt : (x < t)%Z).
    { rewrite Forall_forall in Hall. apply Hall. eapply nth_error_In; eassumption. }
    destruct (Z.leb_spec x b) as [E|E].
    + change (Nat.ltb (S i) (S ?n)) with (Nat.ltb i n). now apply IH.
    + rewrite searchsorted_above.
      * symmetry. apply Z.leb_gt. lia.
      * eapply Forall_impl; [|exact Hall]. simpl. intros; lia.
Qed.

Lemma nth_error_ts_where v l : forall mask i,
  nth_error (ts_where mask v l) i
  = match nth_error l i with
    | Some x => Some (match nth_error mask i with
                      | Some true => v
                      | _ => x
                      end)
    | None => None
    end.
Proof.
  induction l as [|x l IH]; intros mask i.
  - simpl. now destruct i.
  - destruct mask as [|m mask].
    + simpl. destruct (nth_error (x :: l) i); [|reflexivity]. now destruct i.
    + destruct i as [|i]; simpl; [now destruct m | apply IH].
Qed.

Lemma ts_where_length v l : forall mask, length (ts_where mask v l) = length l.
Proof.
  induction l as [|x l IH]; intros mask; [reflexivity|].
  destruct mask; simpl; [reflexivity|]. now rewrite IH.
Qed.

Lemma nth_error_map_seq {A} (f : nat -> A) n : forall s i,
  i < n -> nth_error (map f (seq s n)) i = Some (f (s + i)).
Proof.
  induction n as [|n IH]; intros s i Hi; [lia|].
  destruct i as [|i]; simpl.
  - now rewrite Nat.add_0_r.
  - rewrite IH by lia. f_equal. f_equal. lia.
Qed.

Lemma lookup_ts_set_col c l c' cs :
  lookup c' (ts_set_col c l cs) = if String.eqb c' c then Some l else lookup c' cs.
Proof.
  induction cs as [|[k old] cs IH]; simpl.
  - reflexivity.
  - destruct (String.eqb c k) eqn:E; simpl.
    + apply String.eqb_eq in E. subst k.
      now destruct (String.eqb c' c).
    + rewrite IH. destruct (String.eqb c' k) eqn:E'; [|reflexivity].
      apply String.eqb_eq in E'. subst k.
      rewrite String.eqb_sym in E. now rewrite E.
Qed.

Lemma ts_set_col_keys c l cs :
  map fst (ts_set_col c l cs)
  = map fst cs ++ (if mem c (map fst cs) then [] else [c]).
Proof.
  unfold mem. induction cs as [|[k old] cs IH]; simpl; [reflexivity|].
  destruct (String.eqb c k) eqn:E; simpl.
  - now rewrite app_nil_r.
  - now rewrite IH.
Qed.

Lemma ts_set_col_Forall (P : string * list ts_cell -> Prop) c l cs :
  (forall k, P (k, l)) -> Forall P cs -> Forall P (ts_set_col c l cs).
Proof.
  intros Hl. induction 1 as [|[k old] cs Hk Hcs IH]; simpl.
  - constructor; [apply Hl | constructor].
  - destruct (String.eqb c k); constructor; try assumption. apply Hl.
Qed.

Lemma ts_marks_ext idx offers act act' ts :
  (forall o t, act o t = act' o t) ->
  ts_marks idx offers act ts -> ts_marks idx offers act' ts.
Proof.
  intros Hext [Hi [Hk Hc]]. repeat split; try assumption.
  intros o i t Ho Ht. rewrite <- Hext. now apply Hc.
Qed.

Lemma ts_loc_set_marks idx offers act ts a b c :
  is_monotonic_increasing idx = true -> NoDup idx ->
  ts_marks idx offers act ts -> In c offers ->
  exists ts', ts_loc_set ts a b c = Ok ts'
    /\ ts_marks idx offers
         (fun o t => act o t || (String.eqb c o && Z.leb a t && Z.leb t b)) ts'.
Proof.
  intros Hinc Hnd [Hi [Hk Hc]] Hin. unfold ts_loc_set. rewrite Hi.
  rewrite !get_slice_bound_increasing by assumption. cbn [rbind].
  assert (Hl : exists l, lookup c (ts_cols ts) = Some l).
  { apply lookup_mem. rewrite Hk. unfold mem. apply existsb_exists.
    exists c. split; [exact Hin | apply String.eqb_refl]. }
  destruct Hl as [l Hl]. rewrite Hl. eexists. split; [reflexivity|].
  repeat split; cbn [ts_index ts_cols].
  - rewrite ts_set_col_keys, Hk.
    assert (Hm : mem c offers = true).
    { unfold mem. apply existsb_exists. exists c.
      split; [exact Hin | apply String.eqb_refl]. }
    now rewrite Hm, app_nil_r.
  - intros o i t Ho Ht. specialize (Hc o i t Ho Ht).
    unfold ts_cell_at in *. cbn [ts_cols]. rewrite lookup_ts_set_col.
    rewrite (String.eqb_sym o c).
    destruct (String.eqb c o) eqn:E.
    + apply String.eqb_eq in E. subst o. rewrite Hl in Hc.
      rewrite nth_error_ts_where, Hc.
      assert (Hlt : i < length idx) by (apply nth_error_Some; congruence).
      rewrite (nth_error_map_seq _ (length idx) 0 i Hlt). cbn [Nat.add].
      rewrite (left_bound_le idx a i t Hinc Hnd Ht).
      rewrite (right_bound_lt idx b i t Hinc Hnd Ht).
      now destruct (act c t), (Z.leb a t), (Z.leb t b).
    + rewrite Hc. cbn [andb]. now rewrite orb_false_r.
Qed.

Lemma offers_ts_step_marks idx offers act delta viewed ts r :
  is_monotonic_increasing idx = true -> NoDup idx ->
  ts_marks idx offers act ts -> In (rc_offer_id r) offers ->
  exists ts', offers_ts_step delta viewed ts r = Ok ts'
    /\ ts_marks idx offers (fun o t => act o t || puts_on delta viewed o t r) ts'.
Proof.
  intros Hinc Hnd Hm Hin.
  destruct (ts_loc_set_marks idx offers act ts (rc_time r) (rc_time r + delta)
              (rc_offer_id r) Hinc Hnd Hm Hin) as [ts' [Hset Hm']].
  unfold offers_ts_step, puts_on. destruct viewed.
  - destruct (truthy (rc_viewed r)).
    + exists ts'. split; [exact Hset|].
      eapply ts_marks_ext; [|exact Hm']. intros o t. cbv beta.
      now rewrite andb_true_r.
    + exists ts. split; [reflexivity|].
      eapply ts_marks_ext; [|exact Hm]. intros o t. cbv beta.
      now rewrite andb_false_r, orb_false_r.
  - exists ts'. split; [exact Hset|].
    eapply ts_marks_ext; [|exact Hm']. intros o t. cbv beta.
    now rewrite andb_true_r.
Qed.

Lemma offers_ts_loop_marks idx offers delta viewed rows : forall act ts,
  is_monotonic_increasing idx = true -> NoDup idx ->
  ts_marks idx offers act ts ->
  (forall r, In r rows -> In (rc_offer_id r) offers) ->
  exists ts', offers_ts_loop delta viewed rows ts = Ok ts'
    /\ ts_marks idx offers
         (fun o t => act o t || offer_on delta viewed rows o t) ts'.
Proof.
  induction rows as [|r rows IH]; intros act ts Hinc Hnd Hm Hin.
  - exists ts. split; [reflexivity|].
    eapply ts_marks_ext; [|exact Hm]. intros o t. simpl.
    now rewrite orb_false_r.
  - destruct (offers_ts_step_marks idx offers act delta viewed ts r Hinc Hnd Hm)
      as [ts1 [Hstep Hm1]]; [apply Hin; now left|].
    destruct (IH _ ts1 Hinc Hnd Hm1) as [ts' [Hloop Hm']];
      [intros r' Hr'; apply Hin; now right|].
    exists ts'. cbn [offers_ts_loop]. rewrite Hstep. cbn [rbind].
    split; [exact Hloop|].
    eapply ts_marks_ext; [|exact Hm']. intros o t. cbv beta.
    unfold offer_on. cbn [existsb]. now rewrite orb_assoc.
Qed.

Lemma lookup_zero_columns (l : list ts_cell) o offers :
  In o offers -> lookup o (map (fun o => (o, l)) offers) = Some l.
Proof.
  induction offers as [|k offers IH]; simpl; [contradiction|].
  intros [E|Hin].
  - subst k. now rewrite String.eqb_refl.
  - destruct (String.eqb o k); [reflexivity | now apply IH].
Qed.

Lemma zero_table_marks idx offers :
  ts_marks idx offers (fun _ _ => false)
    (mkTs idx (map (fun o => (o, repeat (TsNum 0) (length idx))) offers)).
Proof.
  repeat split; cbn [ts_index ts_cols].
  - rewrite map_map. cbn [fst]. apply map_id.
  - intros o i t Ho Ht. unfold ts_cell_at. cbn [ts_cols].
    rewrite lookup_zero_columns by assumption.
    apply nth_error_repeat. apply nth_error_Some. congruence.
Qed.

(** The loop of [get_offers_ts] on increasing times and offers of the
    portfolio. *)
Lemma offers_ts_loop_run user_received offers data_time delta viewed :
  is_monotonic_increasing (unique data_time) = true ->
  (forall r, In r user_received -> In (rc_offer_id r) offers) ->
  exists ts,
    offers_ts_loop delta viewed user_received
      (mkTs (unique data_time)
         (map (fun o => (o, repeat (TsNum 0) (length (unique data_time)))) offers))
    = Ok ts
    /\ ts_marks (unique data_time) offers (offer_on delta viewed user_received) ts.
Proof.
  intros Hinc Hin.
  destruct (offers_ts_loop_marks (unique data_time) offers delta viewed user_received
              (fun _ _ => false) _ Hinc (NoDup_unique data_time)
              (zero_table_marks (unique data_time) offers) Hin)
    as [ts [Hloop Hm]].
  exists ts. split; [exact Hloop|].
  eapply ts_marks_ext; [|exact Hm]. reflexivity.
Qed.

Lemma ts_row_sum_marks (f : string -> bool) i cs :
  NoDup (map fst cs) ->
  (forall o, In o (map fst cs) ->
     match lookup o cs with Some l => nth_error l i | None => None end
     = Some (TsNum (if f o then 1 else 0))) ->
  (0 <= ts_row_sum cs i)%Z
  /\ Z.eqb (ts_row_sum cs i) 0 = negb (existsb f (map fst cs)).
Proof.
  induction cs as [|[k l] cs IH]; intros Hnd Hc.
  - split; [simpl; lia | reflexivity].
  - inversion Hnd as [|? ? Hk Hnd']. subst.
    destruct IH as [Hpos Hz]; [exact Hnd'| |].
    { intros o Ho. specialize (Hc o (or_intror Ho)). simpl in Hc.
      destruct (String.eqb o k) eqn:E; [|exact Hc].
      apply String.eqb_eq in E. subst o. contradiction. }
    specialize (Hc k (or_introl eq_refl)). simpl in Hc.
    rewrite String.eqb_refl in Hc.
    unfold ts_row_sum in *. cbn [fold_right snd map existsb fst]. rewrite Hc.
    destruct (f k); cbn [orb negb].
    + split; [lia | apply Z.eqb_neq; lia].
    + split; [lia | exact Hz].
Qed.

Lemma mem_false_iff c l : mem c l = false <-> ~ In c l.
Proof.
  unfold mem. split.
  - intros H Hin. assert (existsb (String.eqb c) l = true); [|congruence].
    apply existsb_exists. exists c. split; [exact Hin | apply String.eqb_refl].
  - intros H. destruct (existsb (String.eqb c) l) eqn:E; [|reflexivity].
    apply existsb_exists in E. destruct E as [x [Hx E]].
    apply String.eqb_eq in E. subst x. contradiction.
Qed.

(** On transcript times that appear in increasing order, with every received
    offer in the portfolio, [get_offers_ts] returns a table over the distinct
    times whose cell for offer [o] at time [t] is 1 exactly when some
    received row of [o] (a viewed one, with [viewed=True]) has
    [time <= t <= time + delta], and 0 otherwise. *)
Theorem get_offers_ts_offer_cells user_received offers data_time delta viewed :
  is_monotonic_increasing (unique data_time) = true ->
  NoDup offers -> ~ In "no_offer" offers ->
  (forall r, In r user_received -> In (rc_offer_id r) offers) ->
  exists ts,
    get_offers_ts user_received offers data_time delta viewed = Ok ts
    /\ ts_index ts = unique data_time
    /\ forall o i t, In o offers -> nth_error (unique data_time) i = Some t ->
         ts_cell_at ts o i
         = Some (TsNum (if offer_on delta viewed user_received o t then 1 else 0)).
Proof.
  intros Hinc _ Hno Hin.
  destruct (offers_ts_loop_run user_received offers data_time delta viewed Hinc Hin)
    as [ts [Hloop [Hi [Hk Hc]]]].
  unfold get_offers_ts. rewrite Hloop. cbn [rbind].
  eexists. split; [reflexivity|]. cbn [ts_index]. split; [exact Hi|].
  intros o i t Ho Ht. unfold ts_cell_at. cbn [ts_cols].
  rewrite lookup_ts_set_col.
  destruct (String.eqb o "no_offer") eqn:E.
  - apply String.eqb_eq in E. subst o. contradiction.
  - exact (Hc o i t Ho Ht).
Qed.

Lemma get_offers_ts_offer_cells_witness :
  exists ts,
    get_offers_ts Fixtures.received ["A"; "B"] Fixtures.clock 6 true = Ok ts
    /\ ts_index ts = unique Fixtures.clock
    /\ forall o i t, In o ["A"; "B"] -> nth_error (unique Fixtures.clock) i = Some t ->
         ts_cell_at ts o i
         = Some (TsNum (if offer_on 6 true Fixtures.received o t then 1 else 0)).
Proof.
  apply (get_offers_ts_offer_cells Fixtures.received ["A"; "B"] Fixtures.clock 6 true).
  - reflexivity.
  - repeat constructor; simpl; intuition discriminate.
  - simpl. intuition discriminate.
  - intros r [E|[E|[]]]; subst r; simpl; auto.
Defined.

(** Under the same conditions the column ["no_offer"] is added after the
    offers and holds, at each time, 1 when no offer of the portfolio is on
    and 0 when one is. *)
Theorem get_offers_ts_no_offer_column user_received offers data_time delta viewed :
  is_monotonic_increasing (unique data_time) = true ->
  NoDup offers -> ~ In "no_offer" offers ->
  (forall r, In r user_received -> In (rc_offer_id r) offers) ->
  exists ts,
    get_offers_ts user_received offers data_time delta viewed = Ok ts
    /\ map fst (ts_cols ts) = offers ++ ["no_offer"]
    /\ forall i t, nth_error (unique data_time) i = Some t ->
         ts_cell_at ts "no_offer" i
         = Some (TsNum (if existsb (fun o => offer_on delta viewed user_received o t)
                             offers
                        then 0 else 1)).
Proof.
  intros Hinc Hnd Hno Hin.
  destruct (offers_ts_loop_run user_received offers data_time delta viewed Hinc Hin)
    as [ts [Hloop [Hi [Hk Hc]]]].
  unfold get_offers_ts. rewrite Hloop. cbn [rbind].
  eexists. split; [reflexivity|]. cbn [ts_cols]. split.
  - rewrite ts_set_col_keys, Hk.
    apply mem_false_iff in Hno. now rewrite Hno.
  - intros i t Ht. unfold ts_cell_at. cbn [ts_cols].
    rewrite lookup_ts_set_col, String.eqb_refl, Hi.
    assert (Hlt : i < length (unique data_time))
      by (apply nth_error_Some; congruence).
    rewrite (nth_error_map_seq _ (length (unique data_time)) 0 i Hlt).
    cbn [Nat.add].
    destruct (ts_row_sum_marks (fun o => offer_on delta viewed user_received o t)
                i (ts_cols ts)) as [_ Hz].
    + now rewrite Hk.
    + intros o Ho. rewrite Hk in Ho. exact (Hc o i t Ho Ht).
    + rewrite Hz, Hk.
      now destruct (existsb (fun o => offer_on delta viewed user_received o t) offers).
Qed.

Lemma get_offers_ts_no_offer_column_witness :
  exists ts,
    get_offers_ts Fixtures.received ["A"; "B"] Fixtures.clock 6 false = Ok ts
    /\ map fst (ts_cols ts) = ["A"; "B"] ++ ["no_offer"]
    /\ forall i t, nth_error (unique Fixtures.clock) i = Some t ->
         ts_cell_at ts "no_offer" i
         = Some (TsNum (if existsb (fun o => offer_on 6 false Fixtures.received o t)
                             ["A"; "B"]
                        then 0 else 1)).
Proof.
  apply (get_offers_ts_no_offer_column Fixtures.received ["A"; "B"] Fixtures.clock
           6 false).
  - reflexivity.
  - repeat constructor; simpl; intuition discriminate.
  - simpl. intuition discriminate.
  - intros r [E|[E|[]]]; subst r; simpl; auto.
Defined.

Lemma ts_loc_set_shape idx offers ts a b c ts' :
  ts_shape idx offers ts -> ts_loc_set ts a b c = Ok ts' -> ts_shape idx offers ts'.
Proof.
  intros [Hi [Hlen [extra Hk]]]. unfold ts_loc_set.
  destruct (get_slice_bound (ts_index ts) a SideLeft) as [start|]; [|discriminate].
  destruct (get_slice_bound (ts_index ts) b SideRight) as [stop|]; [|discriminate].
  cbn [rbind].
  assert (Hkeys : forall l, exists extra',
            map fst (ts_set_col c l (ts_cols ts)) = offers ++ extra').
  { intros l. rewrite ts_set_col_keys, Hk, <- app_assoc. eauto. }
  destruct (lookup c (ts_cols ts)) as [l|] eqn:Hl.
  - intros H. inversion H. subst ts'. clear H.
    repeat split; cbn [ts_index ts_cols]; [exact Hi| |apply Hkeys].
    apply ts_set_col_Forall; [|exact Hlen].
    intros k. cbn [snd]. rewrite ts_where_length.
    apply lookup_In in Hl. rewrite Forall_forall in Hlen.
    exact (Hlen _ Hl).
  - destruct (Nat.eqb (length (ts_index ts)) 0); [discriminate|].
    intros H. inversion H. subst ts'. clear H.
    repeat split; cbn [ts_index ts_cols]; [exact Hi| |apply Hkeys].
    apply ts_set_col_Forall; [|exact Hlen].
    intros k. cbn [snd]. now rewrite !length_map, length_seq, Hi.
Qed.

Lemma offers_ts_loop_shape idx offers delta viewed rows : forall ts ts',
  ts_shape idx offers ts -> offers_ts_loop delta viewed rows ts = Ok ts' ->
  ts_shape idx offers ts'.
Proof.
  induction rows as [|r rows IH]; intros ts ts' Hs; cbn [offers_ts_loop].
  - intros H. inversion H. now subst.
  - destruct (offers_ts_step delta viewed ts r) as [ts1|] eqn:Hstep; [|discriminate].
    cbn [rbind]. apply IH.
    unfold offers_ts_step in Hstep.
    destruct viewed; [destruct (truthy (rc_viewed r))|].
    + eapply ts_loc_set_shape; eassumption.
    + inversion Hstep. now subst.
    + eapply ts_loc_set_shape; eassumption.
Qed.

(** Whatever the order of the times and whatever offers are received, a
    table returned by [get_offers_ts] has the distinct transcript times as
    its rows, each once; every column holds one cell per time; the columns
    begin with the offers of the portfolio, and ["no_offer"] is among
    them. *)
Theorem get_offers_ts_shape user_received offers data_time delta viewed ts :
  NoDup offers ->
  get_offers_ts user_received offers data_time delta viewed = Ok ts ->
  ts_shape (unique data_time) offers ts
  /\ NoDup (ts_index ts)
  /\ In "no_offer" (map fst (ts_cols ts)).
Proof.
  intros _. unfold get_offers_ts.
  destruct (offers_ts_loop _ _ _ _) as [ts1|] eqn:Hloop; [|discriminate].
  cbn [rbind]. intros H. inversion H. subst ts. clear H.
  assert (Hs : ts_shape (unique data_time) offers ts1).
  { eapply offers_ts_loop_shape; [|exact Hloop].
    repeat split; cbn [ts_index ts_cols].
    - apply Forall_forall. intros c Hc. apply in_map_iff in Hc.
      destruct Hc as [o [E _]]. subst c. cbn [snd]. apply repeat_length.
    - exists []. rewrite map_map, app_nil_r. cbn [fst]. apply map_id. }
  destruct Hs as [Hi [Hlen [extra Hk]]].
  repeat split; cbn [ts_index ts_cols].
  - exact Hi.
  - apply ts_set_col_Forall; [|exact Hlen].
    intros k. cbn [snd]. now rewrite length_map, length_seq, Hi.
  - rewrite ts_set_col_keys, Hk, <- app_assoc. eauto.
  - rewrite Hi. apply NoDup_unique.
  - rewrite ts_set_col_keys. apply in_app_iff.
    destruct (mem "no_offer" (map fst (ts_cols ts1))) eqn:E.
    + left. unfold mem in E. apply existsb_exists in E.
      destruct E as [x [Hx E]]. apply String.eqb_eq in E. now subst x.
    + right. now left.
Qed.

Lemma get_offers_ts_shape_witness :
  ts_shape (unique Fixtures.clock) ["A"; "B"] Fixtures.offers_table
  /\ NoDup (ts_index Fixtures.offers_table)
  /\ In "no_offer" (map fst (ts_cols Fixtures.offers_table)).
Proof.
  apply (get_offers_ts_shape Fixtures.received ["A"; "B"] Fixtures.clock 6 false
           Fixtures.offers_table).
  - repeat constructor; simpl; intuition discriminate.
  - reflexivity.
Defined.

Lemma ts_row_sum_zero_columns n offers i :
  ts_row_sum (map (fun o => (o, repeat (TsNum 0) n)) offers) i = 0%Z.
Proof.
  unfold ts_row_sum. induction offers as [|o offers IH]; [reflexivity|].
  cbn [map fold_right snd]. rewrite IH.
  destruct (nth_error (repeat (TsNum 0) n) i) as [x|] eqn:E; [|reflexivity].
  apply nth_error_In, repeat_spec in E. now subst x.
Qed.

Lemma map_const_seq {A} (f : nat -> A) (a : A) n : forall s,
  (forall i, f i = a) -> map f (seq s n) = repeat a n.
Proof.
  induction n as [|n IH]; intros s H; simpl; [reflexivity|].
  now rewrite H, IH.
Qed.

Lemma ts_set_col_missing c l (cs : list (string * list ts_cell)) :
  ~ In c (map fst cs) -> ts_set_col c l cs = cs ++ [(c, l)].
Proof.
  induction cs as [|[k old] cs IH]; simpl; [reflexivity|].
  intros H. destruct (String.eqb c k) eqn:E.
  - apply String.eqb_eq in E. exfalso. apply H. now left.
  - rewrite IH; [reflexivity|]. intros Hin. apply H. now right.
Qed.

(** When the user received nothing, every offer column is 0 at every time
    and ["no_offer"] is 1 at every time, whatever the order of the times. *)
Theorem get_offers_ts_nothing_received offers data_time delta viewed :
  ~ In "no_offer" offers ->
  get_offers_ts [] offers data_time delta viewed
  = Ok (mkTs (unique data_time)
          (map (fun o => (o, repeat (TsNum 0) (length (unique data_time)))) offers
           ++ [("no_offer", repeat (TsNum 1) (length (unique data_time)))])).
Proof.
  intros Hno. unfold get_offers_ts. cbn [offers_ts_loop rbind ts_index ts_cols].
  f_equal. f_equal.
  rewrite (map_const_seq _ (TsNum 1)).
  - apply ts_set_col_missing. rewrite map_map. cbn [fst]. now rewrite map_id.
  - intros i. now rewrite ts_row_sum_zero_columns.
Qed.

Lemma get_offers_ts_nothing_received_witness :
  get_offers_ts [] ["A"; "B"] [0; 12; 6]%Z 6 true
  = Ok (mkTs [0; 12; 6]%Z
          [("A", [TsNum 0; TsNum 0; TsNum 0]);
           ("B", [TsNum 0; TsNum 0; TsNum 0]);
           ("no_offer", [TsNum 1; TsNum 1; TsNum 1])]).
Proof.
  apply (get_offers_ts_nothing_received ["A"; "B"] [0; 12; 6]%Z 6 true).
  simpl. intuition discriminate.
Defined.
